(** * Target-workload service controller: label propagation between services and pods

    A shallow embedding of
    [pkg/controllers/user/targetworkloadservice/target_workload_service.go].

    The two handlers ([Controller.sync] for services, [PodController.sync] for
    pods) are functions from the objects they are handed, the registry
    ([workloadServiceUUIDToDeploymentUUIDs]) and the external collaborators
    (listers, clients, workload directory, JSON decoder) to an outcome, a new
    registry and the chronological list of the calls they issued.

    - Go maps are [gmap]s; a nil map is [None], a non-nil map is [Some m].
      Reading and ranging over a nil map behave like the empty map, writing
      into one panics, and [reflect.DeepEqual] tells nil from empty.
    - Errors are their messages; [errors.Wrapf] prefixes the message.
    - A run-time panic (index out of range, write to a nil map) is an outcome
      of its own. *)

From Stdlib Require Import Ascii.
From stdpp Require Import gmap strings list fin_maps.

Open Scope string_scope.
Open Scope list_scope.

(** ** Strings *)

Module Strings.

(** [strings.Split(s, "/")]: the substrings between the separators; a
    string without separator is returned whole. *)
Fixpoint Split_slash (s : string) : list string :=
  match s with
  | EmptyString => [EmptyString]
  | String c s' =>
      if Ascii.eqb c "/"%char then EmptyString :: Split_slash s'
      else match Split_slash s' with
           | h :: t => String c h :: t
           | [] => [String c EmptyString]
           end
  end.

(** [strings.HasPrefix(s, prefix)]. *)
Definition HasPrefix (s prefix : string) : bool := String.prefix prefix s.

(** [fmt.Sprintf("%s/%s", a, b)]. *)
Definition Sprintf_slash (a b : string) : string := a +:+ "/" +:+ b.

(** [fmt.Sprintf("%s_%s", a, b)]. *)
Definition Sprintf_underscore (a b : string) : string := a +:+ "_" +:+ b.

End Strings.

(** ** Objects *)

(** [map[string]string], nil or not. *)
Abbreviation Labels := (option (gmap string string)).

(** [m[k]] with the comma-ok form: a nil map has no key. *)
Definition getLabel (m : Labels) (k : string) : option string :=
  match m with
  | Some m => m !! k
  | None => None
  end.

(** The pairs a [range] over the map visits; none for a nil map. *)
Definition rangeLabels (m : Labels) : gmap string string :=
  match m with
  | Some m => m
  | None => ∅
  end.

Definition error := string.

(** [errors.Wrapf(err, msg)]: the message of the wrapped error. *)
Definition Wrapf (err : error) (msg : string) : error := msg +:+ ": " +:+ err.

(** The fields of [corev1.Service] the controller reads or writes. *)
Record Service := mkService {
  svc_Namespace : string;
  svc_Name : string;
  svc_Annotations : Labels;
  svc_DeletionTimestamp : option Z;
  svc_Selector : Labels                    (* Spec.Selector *)
}.

(** The fields of [corev1.Pod] the controller reads or writes. *)
Record Pod := mkPod {
  pod_Namespace : string;
  pod_Name : string;
  pod_Labels : Labels;
  pod_DeletionTimestamp : option Z
}.

(** The fields of [util.Workload] the controller reads. *)
Record Workload := mkWorkload {
  wl_Namespace : string;
  wl_Name : string;
  wl_SelectorLabels : Labels
}.

#[global] Instance Service_eq_dec : EqDecision Service.
Proof. solve_decision. Defined.
#[global] Instance Pod_eq_dec : EqDecision Pod.
Proof. solve_decision. Defined.
#[global] Instance Workload_eq_dec : EqDecision Workload.
Proof. solve_decision. Defined.

Definition set_svc_Selector (s : Service) (sel : Labels) : Service :=
  mkService (svc_Namespace s) (svc_Name s) (svc_Annotations s)
            (svc_DeletionTimestamp s) sel.

Definition set_pod_Labels (p : Pod) (l : Labels) : Pod :=
  mkPod (pod_Namespace p) (pod_Name p) l (pod_DeletionTimestamp p).

(** ** Outcomes and the calls a handler issues *)

Inductive Result (A : Type) : Type :=
| Ok (a : A)
| Err (e : error)
| Panic (msg : string).
Arguments Ok {A} a.
Arguments Err {A} e.
Arguments Panic {A} msg.

(** What a lister or the workload directory hands back: [(value, nil)] or
    [(_, err)]. *)
Inductive Fallible (A : Type) : Type :=
| Returned (a : A)
| Failed (e : error).
Arguments Returned {A} a.
Arguments Failed {A} e.

Inductive LogLevel := Debug | Warn.

Inductive Event :=
| ServicesUpdate (s : Service)             (* c.services.Update *)
| PodsUpdate (p : Pod)                     (* c.pods.Update *)
| PodsEnqueue (namespace name : string)    (* c.pods.Controller().Enqueue *)
| Logged (lvl : LogLevel) (format : string) (args : list string).

#[global] Instance LogLevel_eq_dec : EqDecision LogLevel.
Proof. solve_decision. Defined.
#[global] Instance Event_eq_dec : EqDecision Event.
Proof. solve_decision. Defined.
#[global] Instance Result_eq_dec {A} `{EqDecision A} : EqDecision (Result A).
Proof. solve_decision. Defined.

(** A computation that issues calls, in order, and then returns, fails or
    panics; the calls issued before a failure stay issued. *)
Definition W (A : Type) : Type := (list Event * Result A)%type.

#[global] Instance W_ret : MRet W := λ A a, ([], Ok a).

#[global] Instance W_bind : MBind W := λ A B f m,
  match m with
  | (t, Ok a) => let '(t', r) := f a in (t ++ t', r)
  | (t, Err e) => (t, Err e)
  | (t, Panic msg) => (t, Panic msg)
  end.

Definition emit (e : Event) : W unit := ([e], Ok tt).
Definition fail {A} (e : error) : W A := ([], Err e).
Definition panic {A} (msg : string) : W A := ([], Panic msg).

(** [l[i]] on a slice. *)
Definition index {A} (l : list A) (i : nat) : W A :=
  match l !! i with
  | Some a => mret a
  | None => panic "index out of range"
  end.

(** A [for ... range] loop over a slice that threads its local variables. *)
Fixpoint forEach {A S} (f : S → A → W S) (l : list A) (s : S) : W S :=
  match l with
  | [] => mret s
  | a :: l' => s' ← f s a; forEach f l' s'
  end.

(** ** External collaborators *)

(** Everything the handlers call that is not in this package.  Listers read
    the informer caches; [services_Update] and [pods_Update] tell whether the
    API call with that object fails. *)
Record Env := mkEnv {
  (* util.WorkloadAnnotation, util.WorkloadAnnotatioNoop *)
  WorkloadAnnotation : string;
  WorkloadAnnotatioNoop : string;
  (* json.Unmarshal([]byte(value), &ids) on a nil []string: the slice
     afterwards and the error returned *)
  json_Unmarshal : string → list string * option error;
  (* c.workloadLister *)
  GetByWorkloadID : string → Fallible Workload;
  GetWorkloadsMatchingLabels : string → Labels → Fallible (list Workload);
  (* c.podLister.List(namespace, labels.SelectorFromSet(set)) *)
  podLister_List : string → gmap string string → Fallible (list Pod);
  (* c.serviceLister.Get(namespace, name) *)
  serviceLister_Get : string → string → Fallible Service;
  services_Update : Service → option error;
  pods_Update : Pod → option error
}.

(** The registry, [workloadServiceUUIDToDeploymentUUIDs]: a [sync.Map] from
    service key to [map[string]bool]. *)
Abbreviation Registry := (gmap string (gmap string bool)).

(** An enumeration [sync.Map.Range] may follow: each entry once, in any
    order. *)
Definition RangeOrder := Registry → list (string * gmap string bool).

Definition valid_order (order : RangeOrder) : Prop :=
  ∀ reg, order reg ≡ₚ map_to_list reg.

(** ** The handlers *)

Definition WorkloadIDLabelPrefix : string := "workloadID".

Definition getServiceSelector (serviceName : string) : string :=
  Strings.Sprintf_underscore WorkloadIDLabelPrefix serviceName.

Section Handlers.
Context (E : Env).

Definition call_services_Update (s : Service) : W unit :=
  ([ServicesUpdate s],
   match services_Update E s with None => Ok tt | Some err => Err err end).

(** [c.pods.Update(toUpdate)]; [wrap] is what the caller does to the
    error. *)
Definition call_pods_Update (wrap : error → error) (p : Pod) : W unit :=
  ([PodsUpdate p],
   match pods_Update E p with None => Ok tt | Some err => Err (wrap err) end).

Definition isWorkloadService (obj : Service) : W (list string) :=
  match svc_Annotations obj with
  | None => mret []
  | Some annotations =>
      match annotations !! WorkloadAnnotation E with
      | None => mret []
      | Some value =>
          if decide (value = "") then mret []
          else if decide (annotations !! WorkloadAnnotatioNoop E = Some "true")
          then mret []
          else
            let '(workloadIDs, err) := json_Unmarshal E value in
            match err with
            | Some e =>
                emit (Logged Debug "Failed to unmarshal targetWorkloadIds" [e]);;
                mret workloadIDs
            | None => mret workloadIDs
            end
      end
  end.

Definition updateServiceWorkloadPods (key : string) : W unit :=
  let splitted := Strings.Split_slash key in
  namespace ← index splitted 0;
  serviceName ← index splitted 1;
  let selectorToCheck := getServiceSelector serviceName in
  match podLister_List E namespace {[ selectorToCheck := "true" ]} with
  | Failed err => fail err
  | Returned pods =>
      forEach (λ _ pod, emit (PodsEnqueue namespace (pod_Name pod))) pods tt
  end.

(** The selector pairs of the service the pod does not carry: the passes of
    the inner loop of [updatePods] that reach [append]. *)
Definition missingPairs (selector : Labels) (pod : Pod) : list (string * string) :=
  filter (λ kv, getLabel (pod_Labels pod) kv.1 ≠ Some kv.2)
         (map_to_list (rangeLabels selector)).

(** What one listed pod adds to [podsToUpdate]: itself, once per pass
    that reaches [append]. *)
Definition queuePod (selector : Labels) (pod : Pod) : list Pod :=
  match pod_DeletionTimestamp pod with
  | Some _ => []
  | None => (λ _, pod) <$> missingPairs selector pod
  end.

(** One pass of the loop over [workloadIDs] in [updatePods]. *)
Definition resolveWorkload (obj : Service)
    (st : list Pod * gmap string bool) (workloadID : string)
    : W (list Pod * gmap string bool) :=
  let '(podsToUpdate, targetWorkloadUUIDs) := st in
  match GetByWorkloadID E workloadID with
  | Failed err =>
      emit (Logged Warn "Failed to fetch workload [%s]: [%v]" [workloadID; err]);;
      mret (podsToUpdate, targetWorkloadUUIDs)
  | Returned targetWorkload =>
      let targetWorkloadUUID :=
        Strings.Sprintf_slash (wl_Namespace targetWorkload) (wl_Name targetWorkload) in
      let targetWorkloadUUIDs := <[ targetWorkloadUUID := true ]> targetWorkloadUUIDs in
      let set := rangeLabels (wl_SelectorLabels targetWorkload) in
      match podLister_List E (wl_Namespace targetWorkload) set with
      | Failed err =>
          fail (Wrapf err ("Failed to list pods for target workload ["
                           +:+ workloadID +:+ "]"))
      | Returned pods =>
          mret (podsToUpdate ++ mjoin (queuePod (svc_Selector obj) <$> pods),
                targetWorkloadUUIDs)
      end
  end.

(** [toUpdate.Labels[k] = v] for every pair of the selector, on a copy of
    the pod. *)
Definition mergeSelector (selector : Labels) (pod : Pod) : W Pod :=
  match pod_Labels pod with
  | Some l => mret (set_pod_Labels pod (Some (rangeLabels selector ∪ l)))
  | None =>
      if decide (rangeLabels selector = ∅) then mret pod
      else panic "assignment to entry in nil map"
  end.

(** One pass of the loop over [podsToUpdate] in [updatePods]. *)
Definition updatePod (obj : Service) (_ : unit) (pod : Pod) : W unit :=
  toUpdate ← mergeSelector (svc_Selector obj) pod;
  call_pods_Update
    (λ err, Wrapf err ("Failed to update pod [" +:+ pod_Name pod
                       +:+ "] with workload service selector ["
                       +:+ Strings.Sprintf_slash (svc_Namespace obj) (svc_Name obj)
                       +:+ "]"))
    toUpdate.

Definition updatePods (serviceName : string) (obj : Service)
    (workloadIDs : list string) : W (gmap string bool) :=
  st ← forEach (resolveWorkload obj) workloadIDs ([], ∅);
  forEach (updatePod obj) st.1 tt;;
  mret st.2.

Definition reconcilePods (key : string) (obj : Service)
    (workloadIDs : list string) : W (gmap string bool) :=
  let obj :=
    match svc_Selector obj with
    | None => set_svc_Selector obj (Some ∅)
    | Some _ => obj
    end in
  let selectorToAdd := getServiceSelector (svc_Name obj) in
  match getLabel (svc_Selector obj) selectorToAdd with
  | None =>
      let toUpdate :=
        set_svc_Selector obj
          (Some (<[ selectorToAdd := "true" ]> (rangeLabels (svc_Selector obj)))) in
      call_services_Update toUpdate
  | Some _ => mret tt
  end;;
  updatePods key obj workloadIDs.

(** Whether some workload key of the old entry is not in the new set. *)
Definition targetsShrank (oldMap targetWorkloadUUIDs : gmap string bool) : bool :=
  existsb (λ workloadID, bool_decide (targetWorkloadUUIDs !! workloadID = None))
          (map_to_list oldMap).*1.

(** The branch of [Controller.sync] for a service that is gone or is
    being deleted. *)
Definition syncRemoved (reg : Registry) (key : string) : W Registry :=
  match reg !! key with
  | Some _ => updateServiceWorkloadPods key
  | None => mret tt
  end;;
  mret (delete key reg).

(** [Controller.sync]: the calls it issues and, when it returns nil, the
    registry it leaves; when it fails the registry is as it was. *)
Definition Controller_sync (reg : Registry) (key : string)
    (obj : option Service) : W Registry :=
  match obj with
  | None => syncRemoved reg key
  | Some o =>
      if decide (svc_DeletionTimestamp o ≠ None) then syncRemoved reg key
      else
        workloadIDs ← isWorkloadService o;
        if decide (length workloadIDs = 0) then mret reg
        else
          targetWorkloadUUIDs ← reconcilePods key o workloadIDs;
          let cleanup :=
            match reg !! key with
            | Some oldMap => targetsShrank oldMap targetWorkloadUUIDs
            | None => false
            end in
          (if cleanup then updateServiceWorkloadPods key else mret tt);;
          mret (<[ key := targetWorkloadUUIDs ]> reg)
  end.

(** The service keys the loop over [workloads] collects; [order i] is the
    enumeration the [i]-th [Range] follows. *)
Fixpoint collectServices (order : nat → RangeOrder) (reg : Registry)
    (i : nat) (workloads : list Workload) : list string :=
  match workloads with
  | [] => []
  | d :: workloads' =>
      let deploymentUUID := Strings.Sprintf_slash (wl_Namespace d) (wl_Name d) in
      (filter (λ kv : string * gmap string bool, is_Some (kv.2 !! deploymentUUID))
              (order i reg)).*1
      ++ collectServices order reg (S i) workloads'
  end.

(** One pass of the loop over [workloadServiceUUIDToAdd]. *)
Definition mergeService (obj : Pod) (workloadServicesLabels : gmap string string)
    (workloadServiceUUID : string) : W (gmap string string) :=
  let splitted := Strings.Split_slash workloadServiceUUID in
  name ← index splitted 1;
  match serviceLister_Get E (pod_Namespace obj) name with
  | Failed err => fail err
  | Returned workload =>
      mret (rangeLabels (svc_Selector workload) ∪ workloadServicesLabels)
  end.

(** The loop "remove old labels" followed by the loop "add new labels". *)
Definition recomputeLabels (old : Labels) (workloadServicesLabels : gmap string string)
    : gmap string string :=
  workloadServicesLabels ∪
  filter (λ kv : string * string,
            ¬ (Strings.HasPrefix kv.1 WorkloadIDLabelPrefix = true
               ∧ workloadServicesLabels !! kv.1 = None))
         (rangeLabels old).

(** [PodController.sync]. *)
Definition PodController_sync (order : nat → RangeOrder) (reg : Registry)
    (key : string) (obj : option Pod) : W unit :=
  match obj with
  | None => mret tt
  | Some o =>
      if decide (pod_DeletionTimestamp o ≠ None) then mret tt
      else
        match GetWorkloadsMatchingLabels E (pod_Namespace o) (pod_Labels o) with
        | Failed err => fail err
        | Returned workloads =>
            let workloadServiceUUIDToAdd := collectServices order reg 0 workloads in
            workloadServicesLabels ←
              forEach (mergeService o) workloadServiceUUIDToAdd ∅;
            let labels := recomputeLabels (pod_Labels o) workloadServicesLabels in
            if decide (pod_Labels o = Some labels) then mret tt
            else call_pods_Update id (set_pod_Labels o (Some labels))
        end
  end.

End Handlers.

(** ** A cluster to run the handlers on *)

(** Modelled from the spec: [encoding/json]'s [Unmarshal] is not part of
    this repository; this is its documented behaviour for a destination of
    type [*[]string] that holds nil.  The input is checked as a whole first
    and a syntax error leaves the slice untouched; [null] leaves it
    untouched without error; an array fills the slice element by element,
    where [null] and every element that is not a string leave the empty
    string and the latter is reported as a type error after the whole array
    has been decoded; any other value is a type error.  Errors are named by
    their Go type.  Two limits of the model: bytes above 127 are copied as
    they are, where [encoding/json] replaces invalid UTF-8 by U+FFFD, and
    arrays and objects may nest to any depth, where [encoding/json] gives a
    syntax error beyond depth 10000. *)
Module Json.

(** What matters of a value that is to become a string. *)
Inductive scalar :=
| SString (s : string)
| SNull
| SOther.                      (* number, boolean, object or array *)

Inductive value :=
| Scalar (e : scalar)
| Array (elems : list scalar).

Definition as_scalar (v : value) : scalar :=
  match v with
  | Scalar e => e
  | Array _ => SOther
  end.

Definition is_space (c : ascii) : bool :=
  bool_decide (nat_of_ascii c ∈ [32; 9; 10; 13]%nat).

Fixpoint skip_space (s : list ascii) : list ascii :=
  match s with
  | c :: r => if is_space c then skip_space r else s
  | [] => []
  end.

Definition is_digit (c : ascii) : bool :=
  bool_decide (48 ≤ nat_of_ascii c ≤ 57)%nat.

(** The input after the longest run of digits, and whether the run is
    empty. *)
Fixpoint digits (s : list ascii) : bool * list ascii :=
  match s with
  | c :: r => if is_digit c then (false, (digits r).2) else (true, s)
  | [] => (true, [])
  end.

Definition number (s : list ascii) : option (list ascii) :=
  let s := match s with
           | c :: r => if Ascii.eqb c "-" then r else s
           | [] => s
           end in
  r ← match s with
      | c :: r => if Ascii.eqb c "0" then Some r
                  else if is_digit c then Some (digits r).2 else None
      | [] => None
      end;
  r ← match r with
      | c :: r' => if Ascii.eqb c "." then
                     let '(none, r'') := digits r' in
                     if none then None else Some r''
                   else Some r
      | [] => Some r
      end;
  match r with
  | c :: r' =>
      if Ascii.eqb c "e" || Ascii.eqb c "E" then
        let r' := match r' with
                  | d :: r'' => if Ascii.eqb d "+" || Ascii.eqb d "-" then r'' else r'
                  | [] => r'
                  end in
        let '(none, r'') := digits r' in
        if none then None else Some r''
      else Some r
  | [] => Some r
  end.

Definition hex (c : ascii) : option N :=
  let n := N_of_ascii c in
  if bool_decide (48 ≤ n ≤ 57)%N then Some (n - 48)%N
  else if bool_decide (97 ≤ n ≤ 102)%N then Some (n - 87)%N
  else if bool_decide (65 ≤ n ≤ 70)%N then Some (n - 55)%N
  else None.

(** [getu4]: the code unit of [\uXXXX]. *)
Definition getu4 (s : list ascii) : option (N * list ascii) :=
  match s with
  | b :: u :: h1 :: h2 :: h3 :: h4 :: r =>
      if Ascii.eqb b "\" && Ascii.eqb u "u" then
        a ← hex h1; b ← hex h2; c ← hex h3; d ← hex h4;
        Some (((a * 16 + b) * 16 + c) * 16 + d, r)%N
      else None
  | _ => None
  end.

(** [utf8.EncodeRune]. *)
Definition EncodeRune (r : N) : list ascii :=
  let byte (n : N) := ascii_of_N n in
  if bool_decide (r < 128)%N then [byte r]
  else if bool_decide (r < 2048)%N then
    [byte (192 + r / 64); byte (128 + r mod 64)]%N
  else if bool_decide (r < 65536)%N then
    [byte (224 + r / 4096); byte (128 + (r / 64) mod 64); byte (128 + r mod 64)]%N
  else
    [byte (240 + r / 262144); byte (128 + (r / 4096) mod 64);
     byte (128 + (r / 64) mod 64); byte (128 + r mod 64)]%N.

Definition ReplacementChar : N := 65533.

(** The rune of an escape [\uXXXX] with code unit [rr], given what
    follows it. *)
Definition escaped_rune (rr : N) (r : list ascii) : N * list ascii :=
  if bool_decide (55296 ≤ rr < 57344)%N then
    match getu4 r with
    | Some (rr1, r') =>
        if bool_decide (rr < 56320 ∧ 56320 ≤ rr1 < 57344)%N
        then (((rr - 55296) * 1024 + (rr1 - 56320) + 65536)%N, r')
        else (ReplacementChar, r)
    | None => (ReplacementChar, r)
    end
  else (rr, r).

(** The rest of a string literal after its opening quote: the bytes it
    denotes, in reverse, and the input after the closing quote. *)
Fixpoint literal (fuel : nat) (s : list ascii) (acc : list ascii)
    : option (list ascii * list ascii) :=
  match fuel with
  | 0 => None
  | S fuel =>
      match s with
      | [] => None
      | c :: r =>
          if Ascii.eqb c "034" then Some (acc, r)
          else if Ascii.eqb c "\" then
            match r with
            | [] => None
            | e :: r' =>
                if Ascii.eqb e "u" then
                  match getu4 s with
                  | Some (rr, r'') =>
                      let '(rune, r''') := escaped_rune rr r'' in
                      literal fuel r''' (rev (EncodeRune rune) ++ acc)
                  | None => None
                  end
                else
                  match
                    (if Ascii.eqb e "034" then Some "034"
                     else if Ascii.eqb e "\" then Some "\"
                     else if Ascii.eqb e "/" then Some "/"
                     else if Ascii.eqb e "b" then Some "008"
                     else if Ascii.eqb e "f" then Some "012"
                     else if Ascii.eqb e "n" then Some "010"
                     else if Ascii.eqb e "r" then Some "013"
                     else if Ascii.eqb e "t" then Some "009"
                     else None)%char
                  with
                  | Some b => literal fuel r' (b :: acc)
                  | None => None
                  end
            end
          else if bool_decide (nat_of_ascii c < 32)%nat then None
          else literal fuel r (c :: acc)
      end
  end.

Definition string_literal (s : list ascii) : option (string * list ascii) :=
  match s with
  | c :: r =>
      if Ascii.eqb c "034" then
        '(acc, r') ← literal (length r) r [];
        Some (String.string_of_list_ascii (rev acc), r')
      else None
  | [] => None
  end.

Definition keyword (w : string) (s : list ascii) : option (list ascii) :=
  let w := String.list_ascii_of_string w in
  if decide (take (length w) s = w) then Some (drop (length w) s) else None.

(** The elements of an array after the first, up to the closing bracket. *)
Fixpoint elements (fuel : nat) (val : list ascii → option (value * list ascii))
    (s : list ascii) (acc : list scalar) : option (value * list ascii) :=
  match fuel with
  | 0 => None
  | S fuel =>
      '(v, r) ← val s;
      match skip_space r with
      | c :: r' =>
          if Ascii.eqb c "," then elements fuel val r' (as_scalar v :: acc)
          else if Ascii.eqb c "]" then Some (Array (rev (as_scalar v :: acc)), r')
          else None
      | [] => None
      end
  end.

(** The members of an object, up to the closing brace. *)
Fixpoint members (fuel : nat) (val : list ascii → option (value * list ascii))
    (s : list ascii) : option (value * list ascii) :=
  match fuel with
  | 0 => None
  | S fuel =>
      '(_, r) ← string_literal (skip_space s);
      match skip_space r with
      | c :: r' =>
          if Ascii.eqb c ":" then
            '(_, r'') ← val r';
            match skip_space r'' with
            | d :: r''' =>
                if Ascii.eqb d "," then members fuel val r'''
                else if Ascii.eqb d "}" then Some (Scalar SOther, r''')
                else None
            | [] => None
            end
          else None
      | [] => None
      end
  end.

Fixpoint parse (fuel : nat) (s : list ascii) : option (value * list ascii) :=
  match fuel with
  | 0 => None
  | S fuel =>
      match skip_space s with
      | [] => None
      | c :: r =>
          if Ascii.eqb c "[" then
            match skip_space r with
            | d :: r' =>
                if Ascii.eqb d "]" then Some (Array [], r')
                else elements (length r) (parse fuel) r []
            | [] => None
            end
          else if Ascii.eqb c "{" then
            match skip_space r with
            | d :: r' =>
                if Ascii.eqb d "}" then Some (Scalar SOther, r')
                else members (length r) (parse fuel) r
            | [] => None
            end
          else if Ascii.eqb c "034" then
            '(str, r') ← string_literal (c :: r); Some (Scalar (SString str), r')
          else if Ascii.eqb c "n" then r' ← keyword "null" (c :: r); Some (Scalar SNull, r')
          else if Ascii.eqb c "t" then r' ← keyword "true" (c :: r); Some (Scalar SOther, r')
          else if Ascii.eqb c "f" then r' ← keyword "false" (c :: r); Some (Scalar SOther, r')
          else r' ← number (c :: r); Some (Scalar SOther, r')
      end
  end.

Definition element (e : scalar) : string :=
  match e with
  | SString s => s
  | _ => ""
  end.

Definition fits_string (e : scalar) : bool :=
  match e with
  | SString _ | SNull => true
  | SOther => false
  end.

(** [json.Unmarshal(data, &ids)] with [var ids []string]. *)
Definition Unmarshal (data : string) : list string * option error :=
  let s := String.list_ascii_of_string data in
  match parse (S (length s)) s with
  | Some (v, r) =>
      match skip_space r with
      | [] =>
          match v with
          | Scalar SNull => ([], None)
          | Array elems =>
              (element <$> elems,
               if forallb fits_string elems then None
               else Some "json.UnmarshalTypeError")
          | _ => ([], Some "json.UnmarshalTypeError")
          end
      | _ => ([], Some "json.SyntaxError")
      end
  | None => ([], Some "json.SyntaxError")
  end.

End Json.

(** Modelled from the spec: the workload directory
    ([util.CommonController]), the listers and the clients are outside this
    package (spec section 6).  A cluster holds the services, the pods and the
    workloads under their identifiers; listers read it, a selector built from
    a label set matches the objects that carry every pair of the set, the
    reverse match returns the workloads of the namespace whose selector
    labels the given labels satisfy, and an update replaces the stored object
    of the same namespace and name. *)
Module Cluster.

Record t := mk {
  services : list Service;
  pods : list Pod;
  workloads : list (string * Workload)
}.

(** [labels.SelectorFromSet(set).Matches(labels.Set(l))]. *)
Definition matches (set : gmap string string) (l : Labels) : bool :=
  forallb (λ kv, bool_decide (getLabel l kv.1 = Some kv.2)) (map_to_list set).

Definition sameService (ns name : string) (s : Service) : bool :=
  bool_decide (svc_Namespace s = ns ∧ svc_Name s = name).

Definition samePod (ns name : string) (p : Pod) : bool :=
  bool_decide (pod_Namespace p = ns ∧ pod_Name p = name).

Definition env (c : t) : Env := {|
  WorkloadAnnotation := "field.cattle.io/targetWorkloadIds";
  WorkloadAnnotatioNoop := "workload.cattle.io/targetWorkloadIdNoop";
  json_Unmarshal := Json.Unmarshal;
  GetByWorkloadID id :=
    match find (λ iw, bool_decide (iw.1 = id)) (workloads c) with
    | Some iw => Returned iw.2
    | None => Failed "workload not found"
    end;
  GetWorkloadsMatchingLabels ns l :=
    Returned (List.filter
                (λ w, bool_decide (wl_Namespace w = ns)
                      && matches (rangeLabels (wl_SelectorLabels w)) l)
                (workloads c).*2);
  podLister_List ns set :=
    Returned (List.filter
                (λ p, bool_decide (pod_Namespace p = ns) && matches set (pod_Labels p))
                (pods c));
  serviceLister_Get ns name :=
    match find (sameService ns name) (services c) with
    | Some s => Returned s
    | None => Failed "service not found"
    end;
  services_Update s :=
    if existsb (sameService (svc_Namespace s) (svc_Name s)) (services c)
    then None else Some "service not found";
  pods_Update p :=
    if existsb (samePod (pod_Namespace p) (pod_Name p)) (pods c)
    then None else Some "pod not found"
|}.

(** The cluster after a call has been served. *)
Definition apply (c : t) (e : Event) : t :=
  match e with
  | ServicesUpdate s =>
      mk ((λ s', if sameService (svc_Namespace s) (svc_Name s) s' then s else s')
            <$> services c)
         (pods c) (workloads c)
  | PodsUpdate p =>
      mk (services c)
         ((λ p', if samePod (pod_Namespace p) (pod_Name p) p' then p else p')
            <$> pods c)
         (workloads c)
  | PodsEnqueue _ _ | Logged _ _ _ => c
  end.

(** The cluster together with the controller's registry. *)
Record state := mkState {
  cluster : t;
  registry : Registry
}.

Definition getService (c : t) (key : string) : option Service :=
  match Strings.Split_slash key with
  | [ns; name] => find (sameService ns name) (services c)
  | _ => None
  end.

Definition getPod (c : t) (key : string) : option Pod :=
  match Strings.Split_slash key with
  | [ns; name] => find (samePod ns name) (pods c)
  | _ => None
  end.

(** The service handler is delivered [key]: the calls it issues and its
    outcome, and the state once the calls have been served. *)
Definition serviceSync (st : state) (key : string) : W Registry * state :=
  let w := Controller_sync (env (cluster st)) (registry st) key
                           (getService (cluster st) key) in
  (w, mkState (foldl apply (cluster st) w.1)
              (match w.2 with Ok reg => reg | _ => registry st end)).

(** The pod handler is delivered [key]. *)
Definition podSync (order : nat → RangeOrder) (st : state) (key : string)
    : W unit * state :=
  let w := PodController_sync (env (cluster st)) order (registry st) key
                              (getPod (cluster st) key) in
  (w, mkState (foldl apply (cluster st) w.1) (registry st)).

End Cluster.

(** The enumeration that follows the keys in increasing order of their
    encoding, every time. *)
Definition canonical_order : nat → RangeOrder := λ _ reg, map_to_list reg.

Definition quote : string := String "034" "".
Definition quoted (s : string) : string := quote +:+ s +:+ quote.

(** ** The scenario of the specification: [svc1], [wl1], [p1] *)
Module Scenario.

Definition svc1 : Service :=
  mkService "default" "svc1"
    (Some {[ "field.cattle.io/targetWorkloadIds" := "[" +:+ quoted "wl1" +:+ "]" ]})
    None None.

Definition wl1 : Workload := mkWorkload "default" "wl1" (Some {[ "app" := "x" ]}).

Definition p1 : Pod := mkPod "default" "p1" (Some {[ "app" := "x" ]}) None.

Definition start : Cluster.state :=
  Cluster.mkState (Cluster.mk [svc1] [p1] [("wl1", wl1)]) ∅.

Definition after1 := Cluster.serviceSync start "default/svc1".
Definition after2 := Cluster.serviceSync after1.2 "default/svc1".

End Scenario.

(** ** Scenarios and the vocabulary of the statements *)

(** The calls other than log lines. *)
Definition is_call (e : Event) : bool :=
  match e with
  | Logged _ _ _ => false
  | _ => true
  end.

Definition calls (t : list Event) : list Event := List.filter is_call t.

(** The pods handed to [c.pods.Update], in order. *)
Definition podUpdates (t : list Event) : list Pod :=
  omap (λ e, match e with PodsUpdate p => Some p | _ => None end) t.

(** The service carries the opt-out annotation, or its list of target
    identifiers is absent or empty once decoded. *)
Definition notParticipating (E : Env) (obj : Service) : Prop :=
  match svc_Annotations obj with
  | None => True
  | Some annotations =>
      match annotations !! WorkloadAnnotation E with
      | None => True
      | Some value =>
          value = ""
          ∨ annotations !! WorkloadAnnotatioNoop E = Some "true"
          ∨ (json_Unmarshal E value).1 = []
      end
  end.

Module OptOut.

(** [svc1] opted out of propagation after it had been synced with target
    [wl1]: the registry still holds its entry. *)
Definition svc1 : Service :=
  mkService "default" "svc1"
    (Some {[ "field.cattle.io/targetWorkloadIds" := "[" +:+ quoted "wl1" +:+ "]";
             "workload.cattle.io/targetWorkloadIdNoop" := "true" ]})
    None (Some {[ "workloadID_svc1" := "true" ]}).

Definition start : Cluster.state :=
  Cluster.mkState (Cluster.mk [svc1] [Scenario.p1] [("wl1", Scenario.wl1)])
                  {[ "default/svc1" := {[ "default/wl1" := true ]} ]}.

End OptOut.

Definition storedLabels (st : Cluster.state) (key : string) : option Labels :=
  pod_Labels <$> Cluster.getPod (Cluster.cluster st) key.

Definition storedSelector (st : Cluster.state) (key : string) : option Labels :=
  svc_Selector <$> Cluster.getService (Cluster.cluster st) key.

Module TwoPairs.

(** [svc1] selects [role: api] itself and has its selector term installed;
    [p1] belongs to [wl1] and carries neither pair. *)
Definition svc1 : Service :=
  mkService "default" "svc1"
    (Some {[ "field.cattle.io/targetWorkloadIds" := "[" +:+ quoted "wl1" +:+ "]" ]})
    None (Some {[ "role" := "api"; "workloadID_svc1" := "true" ]}).

Definition start : Cluster.state :=
  Cluster.mkState (Cluster.mk [svc1] [Scenario.p1] [("wl1", Scenario.wl1)]) ∅.

Definition labelled : Pod :=
  set_pod_Labels Scenario.p1
    (Some {[ "app" := "x"; "role" := "api"; "workloadID_svc1" := "true" ]}).

End TwoPairs.

Module Unlabelled.

(** [p0] has no labels at all: its label map is nil. *)
Definition p0 : Pod := mkPod "default" "p0" None None.

Definition start : Cluster.state :=
  Cluster.mkState
    (Cluster.mk [Scenario.svc1] [Scenario.p1; p0] [("wl1", Scenario.wl1)])
    {[ "default/svc1" := {[ "default/wl1" := true ]} ]}.

End Unlabelled.

(** A pod as the pod lister returns it for a workload that resolves. *)
Definition listedPod (E : Env) (p : Pod) : Prop :=
  ∃ workloadID targetWorkload pods,
    GetByWorkloadID E workloadID = Returned targetWorkload
    ∧ podLister_List E (wl_Namespace targetWorkload)
        (rangeLabels (wl_SelectorLabels targetWorkload)) = Returned pods
    ∧ p ∈ pods.

Module Overwrite.

(** [svc1] selects [app: y] itself; [p1] belongs to [wl1] and carries
    [app: x]. *)
Definition svc1 : Service :=
  mkService "default" "svc1"
    (Some {[ "field.cattle.io/targetWorkloadIds" := "[" +:+ quoted "wl1" +:+ "]" ]})
    None (Some {[ "app" := "y"; "workloadID_svc1" := "true" ]}).

Definition wl1 : Workload := mkWorkload "default" "wl1" (Some {[ "tier" := "db" ]}).

Definition p1 : Pod :=
  mkPod "default" "p1" (Some {[ "app" := "x"; "tier" := "db" ]}) None.

Definition start : Cluster.state :=
  Cluster.mkState (Cluster.mk [svc1] [p1] [("wl1", wl1)])
                  {[ "default/svc1" := {[ "default/wl1" := true ]} ]}.

Definition written : Pod :=
  set_pod_Labels p1
    (Some {[ "app" := "y"; "tier" := "db"; "workloadID_svc1" := "true" ]}).

End Overwrite.

Module PartialDecode.

(** The second element of the target list of [svc1] is a number. *)
Definition payload : string := "[" +:+ quoted "wl1" +:+ ",5]".

Definition svc1 : Service :=
  mkService "default" "svc1"
    (Some {[ "field.cattle.io/targetWorkloadIds" := payload ]}) None None.

Definition start : Cluster.state :=
  Cluster.mkState (Cluster.mk [svc1] [Scenario.p1] [("wl1", Scenario.wl1)]) ∅.

End PartialDecode.

(** The service a collected key makes the pod handler fetch. *)
Definition fetched (E : Env) (obj : Pod) (uuid : string) (workload : Service) : Prop :=
  ∃ name, Strings.Split_slash uuid !! 1 = Some name
          ∧ serviceLister_Get E (pod_Namespace obj) name = Returned workload.

Module CrossNamespace.

(** [svc1] of namespace [default] targets the workload [wl] of namespace
    [other], to which the pod [p] belongs. *)
Definition svc1 : Service :=
  mkService "default" "svc1"
    (Some {[ "field.cattle.io/targetWorkloadIds" := "[" +:+ quoted "wl" +:+ "]" ]})
    None (Some {[ "workloadID_svc1" := "true" ]}).

Definition wl : Workload := mkWorkload "other" "wl" (Some {[ "app" := "x" ]}).

Definition p : Pod := mkPod "other" "p" (Some {[ "app" := "x" ]}) None.

Definition registry : Registry := {[ "default/svc1" := {[ "other/wl" := true ]} ]}.

Definition start : Cluster.state :=
  Cluster.mkState (Cluster.mk [svc1] [p] [("wl", wl)]) registry.

(** Another service named [svc1], in the pod's namespace, that targets
    nothing. *)
Definition namesake : Service :=
  mkService "other" "svc1" None None (Some {[ "tier" := "web" ]}).

Definition crowded : Cluster.state :=
  Cluster.mkState (Cluster.mk [svc1; namesake] [p] [("wl", wl)]) registry.

End CrossNamespace.

(** The pod as [updatePods] hands it to the pod client. *)
Definition labelled (selector : Labels) (p : Pod) : Pod :=
  set_pod_Labels p (Some (rangeLabels selector ∪ rangeLabels (pod_Labels p))).

Module SkipFailure.

(** [svc1] declares [wl1] and [wl2]; there is no workload [wl1]. *)
Definition svc1 : Service :=
  mkService "default" "svc1"
    (Some {[ "field.cattle.io/targetWorkloadIds"
             := "[" +:+ quoted "wl1" +:+ "," +:+ quoted "wl2" +:+ "]" ]})
    None (Some {[ "workloadID_svc1" := "true" ]}).

Definition wl2 : Workload := mkWorkload "default" "wl2" (Some {[ "app" := "y" ]}).

Definition p2 : Pod := mkPod "default" "p2" (Some {[ "app" := "y" ]}) None.

Definition registry : Registry := {[ "default/svc1" := {[ "default/wl2" := true ]} ]}.

Definition start : Cluster.state :=
  Cluster.mkState (Cluster.mk [svc1] [p2] [("wl2", wl2)]) registry.

End SkipFailure.

Module Shrink.

(** [svc1] targeted the workloads [A] and [B] and now declares [A] only;
    [pa] belongs to [A], [pb] to [B], and both carry the label of
    [svc1]. *)
Definition svc1 : Service :=
  mkService "default" "svc1"
    (Some {[ "field.cattle.io/targetWorkloadIds" := "[" +:+ quoted "A" +:+ "]" ]})
    None (Some {[ "workloadID_svc1" := "true" ]}).

Definition A : Workload := mkWorkload "default" "A" (Some {[ "app" := "a" ]}).
Definition B : Workload := mkWorkload "default" "B" (Some {[ "app" := "b" ]}).

Definition pa : Pod :=
  mkPod "default" "pa" (Some {[ "app" := "a"; "workloadID_svc1" := "true" ]}) None.
Definition pb : Pod :=
  mkPod "default" "pb" (Some {[ "app" := "b"; "workloadID_svc1" := "true" ]}) None.

Definition registry : Registry :=
  {[ "default/svc1" := {[ "default/A" := true; "default/B" := true ]} ]}.

Definition start : Cluster.state :=
  Cluster.mkState (Cluster.mk [svc1] [pa; pb] [("A", A); ("B", B)]) registry.

Definition afterService := Cluster.serviceSync start "default/svc1".
Definition afterPod := Cluster.podSync canonical_order afterService.2 "default/pb".

End Shrink.

(** The enumeration that follows the keys in decreasing order, every time. *)
Definition reversed_order : nat → RangeOrder := λ _ reg, reverse (map_to_list reg).

(** No two of the maps give different values to one key. *)
Definition agree (ms : list (gmap string string)) : Prop :=
  ∀ m1 m2 k v1 v2,
    m1 ∈ ms → m2 ∈ ms → m1 !! k = Some v1 → m2 !! k = Some v2 → v1 = v2.

Definition overlay (acc m : gmap string string) : gmap string string := m ∪ acc.

(** The selector the pod handler merges for a collected key. *)
Definition fetchedSelector (E : Env) (obj : Pod) (uuid : string) : gmap string string :=
  match Strings.Split_slash uuid !! 1 with
  | Some name =>
      match serviceLister_Get E (pod_Namespace obj) name with
      | Returned workload => rangeLabels (svc_Selector workload)
      | Failed _ => ∅
      end
  | None => ∅
  end.

Module Conflict.

(** [blue] and [green] both target [wl], to which [p] belongs, and give
    different values to [tier]; the workload [wl'] selects [p] as well. *)
Definition blue : Service :=
  mkService "default" "blue" None None
    (Some {[ "workloadID_blue" := "true"; "tier" := "a" ]}).
Definition green : Service :=
  mkService "default" "green" None None
    (Some {[ "workloadID_green" := "true"; "tier" := "b" ]}).

Definition wl : Workload := mkWorkload "default" "wl" (Some {[ "app" := "x" ]}).
Definition wl' : Workload := mkWorkload "default" "wl'" (Some {[ "app" := "x" ]}).

Definition p : Pod := mkPod "default" "p" (Some {[ "app" := "x" ]}) None.

Definition registry : Registry :=
  {[ "default/blue" := {[ "default/wl" := true ]};
     "default/green" := {[ "default/wl" := true ]} ]}.

Definition start : Cluster.state :=
  Cluster.mkState (Cluster.mk [blue; green] [p] [("wl", wl); ("wl'", wl')]) registry.

Definition written (tier : string) : Pod :=
  set_pod_Labels p
    (Some {[ "app" := "x"; "tier" := tier;
             "workloadID_blue" := "true"; "workloadID_green" := "true" ]}).

(** The registry when [blue] targets [wl'] too. *)
Definition registry' : Registry :=
  {[ "default/blue" := {[ "default/wl" := true; "default/wl'" := true ]};
     "default/green" := {[ "default/wl" := true ]} ]}.

End Conflict.

Module Concord.

(** As in [Conflict], but [blue] and [green] give [tier] the same value. *)
Definition green : Service :=
  mkService "default" "green" None None
    (Some {[ "workloadID_green" := "true"; "tier" := "a" ]}).

Definition cluster : Cluster.t :=
  Cluster.mk [Conflict.blue; green] [Conflict.p]
             [("wl", Conflict.wl); ("wl'", Conflict.wl')].

End Concord.

(** ** The vocabulary of the further properties *)

(** The services handed to [c.services.Update], in order. *)
Definition serviceUpdates (t : list Event) : list Service :=
  omap (λ e, match e with ServicesUpdate s => Some s | _ => None end) t.

(** The service as [reconcilePods] hands it to the service client: a copy
    with the selector term added. *)
Definition installed (obj : Service) : Service :=
  set_svc_Selector obj
    (Some (<[ getServiceSelector (svc_Name obj) := "true" ]>
             (rangeLabels (svc_Selector obj)))).

(** The string has no slash. *)
Definition noSlash (s : string) : Prop :=
  Forall (λ c, c ≠ "/"%char) (String.list_ascii_of_string s).

(** The handler is delivered a service that is gone or is being deleted. *)
Definition removed (obj : option Service) : Prop :=
  match obj with
  | None => True
  | Some o => svc_DeletionTimestamp o ≠ None
  end.

(** The call is not one to the service client. *)
Definition notServiceUpdate (e : Event) : Prop :=
  match e with
  | ServicesUpdate _ => False
  | _ => True
  end.

Module Vanished.

(** The cache still holds [svc1], the cluster no longer does. *)
Definition cluster : Cluster.t :=
  Cluster.mk [] [Scenario.p1] [("wl1", Scenario.wl1)].

End Vanished.

(** The registry key of a workload. *)
Definition workloadUUID (w : Workload) : string :=
  Strings.Sprintf_slash (wl_Namespace w) (wl_Name w).

(** The identifier does not resolve, or it resolves and the pods of its
    workload can be listed. *)
Definition resolvesOrSkips (E : Env) (workloadID : string) : Prop :=
  match GetByWorkloadID E workloadID with
  | Failed _ => True
  | Returned w =>
      ∃ pods, podLister_List E (wl_Namespace w) (rangeLabels (wl_SelectorLabels w))
              = Returned pods
  end.

(** The pod is not deletion-marked and lacks a pair of the selector. *)
Definition lacksPair (selector : Labels) (p : Pod) : Prop :=
  pod_DeletionTimestamp p = None
  ∧ ∃ k v, getLabel selector k = Some v ∧ getLabel (pod_Labels p) k ≠ Some v.

(** The error [updatePods] returns when the update of [pod] fails. *)
Definition updateError (obj : Service) (pod : Pod) (err : error) : error :=
  Wrapf err ("Failed to update pod [" +:+ pod_Name pod
             +:+ "] with workload service selector ["
             +:+ Strings.Sprintf_slash (svc_Namespace obj) (svc_Name obj)
             +:+ "]").

Module Bare.

(** The workload [wl0] has no selector labels, so its listing returns every
    pod of the namespace, among them [p0], which has no label map. *)
Definition svc1 : Service :=
  mkService "default" "svc1"
    (Some {[ "field.cattle.io/targetWorkloadIds" := "[" +:+ quoted "wl0" +:+ "]" ]})
    None (Some {[ "workloadID_svc1" := "true" ]}).

Definition wl0 : Workload := mkWorkload "default" "wl0" None.

Definition p0 : Pod := mkPod "default" "p0" None None.

Definition cluster : Cluster.t := Cluster.mk [svc1] [p0] [("wl0", wl0)].

End Bare.

Module Refused.

(** The lister still returns [p1] and [p2] for [wl1], but [p1] is gone from
    the cluster, so its update is refused. *)
Definition p2 : Pod := mkPod "default" "p2" (Some {[ "app" := "x" ]}) None.

Definition svc1 : Service :=
  mkService "default" "svc1"
    (Some {[ "field.cattle.io/targetWorkloadIds" := "[" +:+ quoted "wl1" +:+ "]" ]})
    None (Some {[ "workloadID_svc1" := "true" ]}).

Definition env : Env :=
  let E := Cluster.env (Cluster.mk [svc1] [p2] [("wl1", Scenario.wl1)]) in
  mkEnv (WorkloadAnnotation E) (WorkloadAnnotatioNoop E) (json_Unmarshal E)
        (GetByWorkloadID E) (GetWorkloadsMatchingLabels E)
        (λ _ _, Returned [Scenario.p1; p2])
        (serviceLister_Get E) (services_Update E) (pods_Update E).

End Refused.

Module Unlisted.

(** The pods of [wl1] cannot be listed. *)
Definition env : Env :=
  let E := Cluster.env (Cluster.cluster Scenario.start) in
  mkEnv (WorkloadAnnotation E) (WorkloadAnnotatioNoop E) (json_Unmarshal E)
        (GetByWorkloadID E) (GetWorkloadsMatchingLabels E)
        (λ _ _, Failed "cache not synced")
        (serviceLister_Get E) (services_Update E) (pods_Update E).

End Unlisted.

(** The identifier does not resolve, or the pods of its workload can be
    listed and each of them is deletion-marked or carries every pair of the
    selector. *)
Definition settled (E : Env) (selector : Labels) (workloadID : string) : Prop :=
  match GetByWorkloadID E workloadID with
  | Failed _ => True
  | Returned w =>
      ∃ pods, podLister_List E (wl_Namespace w) (rangeLabels (wl_SelectorLabels w))
              = Returned pods
              ∧ ∀ p, p ∈ pods →
                     pod_DeletionTimestamp p ≠ None
                     ∨ ∀ k v, getLabel selector k = Some v →
                              getLabel (pod_Labels p) k = Some v
  end.

(** ** Namespaces and the cluster roles of their project *)

(** The namespace lifecycle of the RBAC controller (package [rbac]): the
    index of cluster roles by namespace, the role it creates for a project,
    and the reconciliation of the roles that grant access to a namespace.
    The indexer, the lister and the role client are parameters; the calls to
    the role client are recorded in order. *)
Module Rbac.

Definition projectNSAnn : string := "authz.cluster.auth.io/project-namespaces".

(** [fmt.Sprintf(projectNSGetClusterRoleNameFmt, a, b)] with the format
    [%v-namespaces-%v]. *)
Definition projectNSGetClusterRoleName (a b : string) : string :=
  a +:+ "-namespaces-" +:+ b.

(** The entries of the map [projectNSVerbToSuffix]; a [range] over it visits
    them in any order. *)
Definition projectNSVerbToSuffix : list (string * string) :=
  [("get", "readonly"); ("*", "edit")].

(** The fields of [rbacv1.PolicyRule]. *)
Record PolicyRule := mkRule {
  APIGroups : list string;
  Verbs : list string;
  Resources : list string;
  ResourceNames : list string
}.

(** The fields of [rbacv1.ClusterRole] the controller reads or writes. *)
Record ClusterRole := mkRole {
  cr_Name : string;
  cr_Annotations : Labels;
  cr_Rules : list PolicyRule
}.

(** The fields of [v1.Namespace] the controller reads. *)
Record Namespace := mkNamespace {
  ns_Name : string;
  ns_Annotations : Labels;
  ns_DeletionTimestamp : option Z
}.

(** What an indexer holds: a cluster role, or an object of another type,
    given by the text [%v] prints for it. *)
Inductive Object :=
| IsClusterRole (cr : ClusterRole)
| Other (printed : string).

#[global] Instance PolicyRule_eq_dec : EqDecision PolicyRule.
Proof. solve_decision. Defined.
#[global] Instance ClusterRole_eq_dec : EqDecision ClusterRole.
Proof. solve_decision. Defined.

(** [slice.ContainsString] of norman: whether the item is in the slice. *)
Definition ContainsString (slice : list string) (item : string) : bool :=
  bool_decide (item ∈ slice).

(** [m[k]] without the comma-ok form: the empty string for a missing key. *)
Definition annotation (m : Labels) (k : string) : string :=
  default "" (getLabel m k).

(** [strings.SplitN(s, ":", 2)]: the text before the first colon and the
    text after it, or the string itself when it has no colon. *)
Fixpoint SplitN2_colon (s : string) : list string :=
  match s with
  | EmptyString => [EmptyString]
  | String c s' =>
      if Ascii.eqb c ":"%char then [EmptyString; s']
      else match SplitN2_colon s' with
           | h :: t => String c h :: t
           | [] => [String c EmptyString]
           end
  end.

(** [crByNS], the index function: the namespaces a cluster role of a project
    grants [get] on.  Its error is always nil. *)
Definition crByNS (obj : Object) : list string :=
  match obj with
  | Other _ => []
  | IsClusterRole cr =>
      match getLabel (cr_Annotations cr) projectNSAnn with
      | None => []
      | Some _ =>
          foldl (λ result r,
                   if ContainsString (Resources r) "namespaces"
                      && (ContainsString (Verbs r) "get" || ContainsString (Verbs r) "*")
                   then result ++ ResourceNames r
                   else result)
                [] (cr_Rules cr)
      end
  end.

(** The role [createProjectNSRole] hands to [roleCli.Create]. *)
Definition projectNSRole (roleName verb ns : string) : ClusterRole :=
  mkRole roleName (Some {[ projectNSAnn := roleName ]})
         (if decide (ns = "") then []
          else [mkRule [""] [verb] ["namespaces"] [ns]]).

(** The loop [for i := len(resNames) - 1; i >= 0; i--] that cuts the name out
    of the slice, from index [i - 1] down; [None] is an index out of range. *)
Fixpoint removeName (i : nat) (name : string) (resNames : list string)
    : option (list string) :=
  match i with
  | 0 => Some resNames
  | S i' =>
      x ← resNames !! i';
      removeName i' name
        (if decide (x = name) then take i' resNames ++ drop (S i') resNames
         else resNames)
  end.

(** Whether the rule grants [verb] on the namespace. *)
Definition grants (verb nsName : string) (r : PolicyRule) : bool :=
  ContainsString (Verbs r) verb
  && ContainsString (Resources r) "namespaces"
  && ContainsString (ResourceNames r) nsName.

(** One pass of the loop over the rules of [undesiredRole]: the rule
    afterwards and whether it was modified. *)
Definition stripRule (verb nsName : string) (r : PolicyRule)
    : option (PolicyRule * bool) :=
  if grants verb nsName r then
    resNames ← removeName (length (ResourceNames r)) nsName (ResourceNames r);
    Some (mkRule (APIGroups r) (Verbs r) (Resources r) resNames, true)
  else Some (r, false).

(** The loop over the rules of [undesiredRole]: the rules afterwards and
    [modified]. *)
Fixpoint stripRules (verb nsName : string) (rules : list PolicyRule)
    : option (list PolicyRule * bool) :=
  match rules with
  | [] => Some ([], false)
  | r :: rules' =>
      '(r', m) ← stripRule verb nsName r;
      '(rs', ms) ← stripRules verb nsName rules';
      Some (r' :: rs', m || ms)
  end.

(** The loop that appends the namespace to the first rule that grants [verb]
    on namespaces; [None] when there is no such rule. *)
Fixpoint appendToExisting (verb nsName : string) (rules : list PolicyRule)
    : option (list PolicyRule) :=
  match rules with
  | [] => None
  | r :: rules' =>
      if ContainsString (Verbs r) verb && ContainsString (Resources r) "namespaces"
      then Some (mkRule (APIGroups r) (Verbs r) (Resources r)
                        (ResourceNames r ++ [nsName]) :: rules')
      else cons r <$> appendToExisting verb nsName rules'
  end.

(** The role handed to [roleCli.Update] when the namespace has to be added
    to the desired role. *)
Definition withNamespace (verb nsName : string) (cr : ClusterRole) : ClusterRole :=
  mkRole (cr_Name cr) (cr_Annotations cr)
         (match appendToExisting verb nsName (cr_Rules cr) with
          | Some rules => rules
          | None => cr_Rules cr ++ [mkRule [""] [verb] ["namespaces"] [nsName]]
          end).

(** What [crLister.Get] hands back. *)
Inductive Got :=
| Found (cr : ClusterRole)
| NotFound
| GetFailed (err : error).

Record Env := mkEnv {
  projectIDAnnotation : string;
  (* n.m.crIndexer.ByIndex(crByNSIndex, name) *)
  crIndexer_ByIndex : string → Fallible (list Object);
  (* n.m.crLister.Get("", name) *)
  crLister_Get : string → Got;
  roleCli_Update : ClusterRole → option error;
  roleCli_Create : ClusterRole → option error
}.

Inductive Call :=
| RoleUpdate (cr : ClusterRole)
| RoleCreate (cr : ClusterRole).

#[global] Instance Call_eq_dec : EqDecision Call.
Proof. solve_decision. Defined.

(** How a pass of the loop over the verbs ends: the loop goes on, or the
    function returns, with an error or nil; a panic is an index out of
    range. *)
Inductive Flow :=
| Continue
| Return (err : option error)
| Panicked.

(** [createProjectNSRole]: the call and its error. *)
Definition createProjectNSRole (E : Env) (roleName verb ns : string)
    : list Call * option error :=
  ([RoleCreate (projectNSRole roleName verb ns)],
   roleCli_Create E (projectNSRole roleName verb ns)).

(** The role the namespace should be in for this verb, or the empty
    string. *)
Definition desiredRoleOf (E : Env) (ns : Namespace) (name : string) : string :=
  match ns_DeletionTimestamp ns with
  | Some _ => ""
  | None =>
      match SplitN2_colon (annotation (ns_Annotations ns) (projectIDAnnotation E)) with
      | [_; project] =>
          if (0 <? String.length project)%nat
          then projectNSGetClusterRoleName project name
          else ""
      | _ => ""
      end
  end.

(** The loop over the indexed cluster roles: the calls, and how it ends
    or whether the namespace is in the desired role. *)
Fixpoint stripRoles (E : Env) (verb nsName desiredRole : string)
    (clusterRoles : list Object) (nsInDesiredRole : bool)
    : list Call * (Flow + bool) :=
  match clusterRoles with
  | [] => ([], inr nsInDesiredRole)
  | Other printed :: rest =>
      ([], inl (Return (Some (printed +:+ " is not a ClusterRole"))))
  | IsClusterRole cr :: rest =>
      if decide (cr_Name cr = desiredRole)
      then stripRoles E verb nsName desiredRole rest true
      else
        match stripRules verb nsName (cr_Rules cr) with
        | None => ([], inl Panicked)
        | Some (rules, modified) =>
            if modified then
              let undesiredRole := mkRole (cr_Name cr) (cr_Annotations cr) rules in
              match roleCli_Update E undesiredRole with
              | Some err => ([RoleUpdate undesiredRole], inl (Return (Some err)))
              | None =>
                  let '(t, r) := stripRoles E verb nsName desiredRole rest nsInDesiredRole in
                  (RoleUpdate undesiredRole :: t, r)
              end
            else stripRoles E verb nsName desiredRole rest nsInDesiredRole
        end
  end.

(** One pass of the loop over [projectNSVerbToSuffix]. *)
Definition reconcileVerb (E : Env) (ns : Namespace) (verb name : string)
    : list Call * Flow :=
  let desiredRole := desiredRoleOf E ns name in
  match crIndexer_ByIndex E (ns_Name ns) with
  | Failed err => ([], Return (Some err))
  | Returned clusterRoles =>
      match stripRoles E verb (ns_Name ns) desiredRole clusterRoles false with
      | (t, inl flow) => (t, flow)
      | (t, inr nsInDesiredRole) =>
          if negb nsInDesiredRole && negb (bool_decide (desiredRole = "")) then
            match crLister_Get E desiredRole with
            | GetFailed err => (t, Return (Some err))
            | NotFound =>
                let '(t', err) := createProjectNSRole E desiredRole verb (ns_Name ns) in
                (t ++ t', Return err)
            | Found cr =>
                if existsb (grants verb (ns_Name ns)) (cr_Rules cr)
                then (t, Continue)
                else
                  let cr' := withNamespace verb (ns_Name ns) cr in
                  (t ++ [RoleUpdate cr'], Return (roleCli_Update E cr'))
            end
          else (t, Continue)
      end
  end.

(** [reconcileNamespaceProjectClusterRole], for the order in which the
    [range] visits the verbs. *)
Fixpoint reconcileVerbs (E : Env) (ns : Namespace) (verbs : list (string * string))
    : list Call * Flow :=
  match verbs with
  | [] => ([], Return None)
  | (verb, name) :: verbs' =>
      match reconcileVerb E ns verb name with
      | (t, Continue) =>
          let '(t', flow) := reconcileVerbs E ns verbs' in (t ++ t', flow)
      | (t, flow) => (t, flow)
      end
  end.

Definition reconcileNamespaceProjectClusterRole (E : Env) (ns : Namespace)
    (verbs : list (string * string)) : list Call * Flow :=
  reconcileVerbs E ns verbs.

End Rbac.

(** ** The vocabulary of the sync with failing identifiers and of the shrink *)

Module SkipFresh.

(** [svc1] of [SkipFailure] before its selector term is installed: it
    declares [wl1] and [wl2], there is no workload [wl1], and its selector is
    nil. *)
Definition svc1 : Service :=
  mkService "default" "svc1"
    (Some {[ "field.cattle.io/targetWorkloadIds"
             := "[" +:+ quoted "wl1" +:+ "," +:+ quoted "wl2" +:+ "]" ]})
    None None.

Definition start : Cluster.state :=
  Cluster.mkState
    (Cluster.mk [svc1] [SkipFailure.p2] [("wl2", SkipFailure.wl2)]) ∅.

Definition after := Cluster.serviceSync start "default/svc1".

End SkipFresh.


(** The registry key of a service. *)
Definition serviceUUID (obj : Service) : string :=
  Strings.Sprintf_slash (svc_Namespace obj) (svc_Name obj).

(** A pod the pod lister returns for the workload that one of the declared
    identifiers resolves to. *)
Definition declaredPod (E : Env) (workloadIDs : list string) (p : Pod) : Prop :=
  ∃ workloadID targetWorkload pods,
    workloadID ∈ workloadIDs
    ∧ GetByWorkloadID E workloadID = Returned targetWorkload
    ∧ podLister_List E (wl_Namespace targetWorkload)
        (rangeLabels (wl_SelectorLabels targetWorkload)) = Returned pods
    ∧ p ∈ pods.

(** ** The vocabulary of the properties of the namespace lifecycle *)

(** The text before the colon of a project identifier. *)
Definition noColon (s : string) : Prop :=
  Forall (λ c, c ≠ ":"%char) (String.list_ascii_of_string s).

(** A rule once the namespace is taken out of it for the verb: untouched
    when it does not grant the verb on the namespace, and without any
    occurrence of the namespace among its resource names otherwise. *)
Definition stripped (verb nsName : string) (r : Rbac.PolicyRule) : Rbac.PolicyRule :=
  if Rbac.grants verb nsName r
  then Rbac.mkRule (Rbac.APIGroups r) (Rbac.Verbs r) (Rbac.Resources r)
                   (filter (λ n, n ≠ nsName) (Rbac.ResourceNames r))
  else r.

(** The calls to the role client that create a role. *)
Definition isRoleCreate (c : Rbac.Call) : bool :=
  match c with
  | Rbac.RoleCreate _ => true
  | Rbac.RoleUpdate _ => false
  end.

(** A call that takes the namespace out of an indexed cluster role other
    than the desired one: the role is handed to the role client with the
    namespace stripped from the rules that granted the verb on it. *)
Definition stripCall (E : Rbac.Env) (nsName verb desiredRole : string)
    (c : Rbac.Call) : Prop :=
  ∃ roles cr,
    Rbac.crIndexer_ByIndex E nsName = Returned roles
    ∧ Rbac.IsClusterRole cr ∈ roles
    ∧ Rbac.cr_Name cr ≠ desiredRole
    ∧ existsb (Rbac.grants verb nsName) (Rbac.cr_Rules cr) = true
    ∧ c = Rbac.RoleUpdate
            (Rbac.mkRole (Rbac.cr_Name cr) (Rbac.cr_Annotations cr)
                         (stripped verb nsName <$> Rbac.cr_Rules cr)).

(** The namespace is being deleted, or its project annotation names no
    project. *)
Definition unassigned (E : Rbac.Env) (ns : Rbac.Namespace) : Prop :=
  Rbac.ns_DeletionTimestamp ns ≠ None
  ∨ noColon (Rbac.annotation (Rbac.ns_Annotations ns) (Rbac.projectIDAnnotation E)).

(** The namespace is live and annotated with [cluster:project]. *)
Definition assigned (E : Rbac.Env) (ns : Rbac.Namespace) (cluster project : string)
    : Prop :=
  Rbac.ns_DeletionTimestamp ns = None
  ∧ noColon cluster ∧ project ≠ ""
  ∧ getLabel (Rbac.ns_Annotations ns) (Rbac.projectIDAnnotation E)
    = Some (cluster +:+ ":" +:+ project).

(** The roles [createProjectNSRole] makes for a namespace of a project, one
    for each verb. *)
Definition projectRoles (project nsName : string) : list Rbac.Object :=
  (λ '(verb, suffix),
     Rbac.IsClusterRole
       (Rbac.projectNSRole (Rbac.projectNSGetClusterRoleName project suffix)
                           verb nsName))
  <$> Rbac.projectNSVerbToSuffix.

(** A namespace of project [p-1] of cluster [c-1], and three states of the
    cluster it is reconciled in. *)
Module Project.

Definition projectId : string := "field.cattle.io/projectId".

Definition ns1 : Rbac.Namespace :=
  Rbac.mkNamespace "ns1" (Some {[ projectId := "c-1:p-1" ]}) None.

(** The namespace while it is being deleted. *)
Definition leaving : Rbac.Namespace :=
  Rbac.mkNamespace "ns1" (Some {[ projectId := "c-1:p-1" ]}) (Some 1%Z).

(** No role of the project exists yet. *)
Definition fresh : Rbac.Env :=
  Rbac.mkEnv projectId (λ _, Returned []) (λ _, Rbac.NotFound)
             (λ _, None) (λ _, None).

Definition readonly : Rbac.ClusterRole :=
  Rbac.projectNSRole "p-1-namespaces-readonly" "get" "ns1".

(** Both roles of the project exist and are indexed under the namespace. *)
Definition settled : Rbac.Env :=
  Rbac.mkEnv projectId
             (λ name, if decide (name = "ns1")
                      then Returned (projectRoles "p-1" "ns1")
                      else Returned [])
             (λ _, Rbac.NotFound) (λ _, None) (λ _, None).

End Project.

(** * Properties *)

(** ** The writer of calls *)

Lemma bind_Ok {A B} (t : list Event) (a : A) (f : A → W B) :
  (mbind f ((t, Ok a) : W A)) = (t ++ (f a).1, (f a).2).
Proof. unfold mbind, W_bind. by destruct (f a). Qed.

Lemma bind_Err {A B} (t : list Event) (e : error) (f : A → W B) :
  (mbind f ((t, Err e) : W A)) = (t, Err e).
Proof. done. Qed.

Lemma bind_Panic {A B} (t : list Event) (msg : string) (f : A → W B) :
  (mbind f ((t, Panic msg) : W A)) = (t, Panic msg).
Proof. done. Qed.

Lemma bind_ret {A B} (a : A) (f : A → W B) : (mret a ≫= f) = f a.
Proof. unfold mret, W_ret. rewrite bind_Ok. simpl. by destruct (f a). Qed.

Lemma bind_nil_Ok {A B} (a : A) (f : A → W B) : ((([], Ok a) : W A) ≫= f) = f a.
Proof. apply bind_ret. Qed.

Lemma bind_inv_Ok {A B} (m : W A) (f : A → W B) t b :
  (m ≫= f) = (t, Ok b) →
  ∃ t1 a t2, m = (t1, Ok a) ∧ f a = (t2, Ok b) ∧ t = t1 ++ t2.
Proof.
  destruct m as [t1 [a | e | msg]]; [|done..].
  rewrite bind_Ok. intros [= <- Hb]. exists t1, a, (f a).1.
  split; [done|]. split; [|done]. destruct (f a); simpl in *; congruence.
Qed.

Lemma bind_assoc {A B C} (m : W A) (f : A → W B) (g : B → W C) :
  ((m ≫= f) ≫= g) = (m ≫= λ a, f a ≫= g).
Proof.
  destruct m as [t [a | e | msg]]; [|done..].
  unfold mbind, W_bind.
  destruct (f a) as [t1 [b | e | msg]]; [|done..].
  destruct (g b) as [t2 r]. by rewrite (assoc_L (++)).
Qed.

Lemma bind_ext {A B} (m : W A) (f g : A → W B) :
  (∀ a, f a = g a) → (m ≫= f) = (m ≫= g).
Proof.
  intros Hfg. destruct m as [t [a | e | msg]]; [|done..].
  unfold mbind, W_bind. by rewrite Hfg.
Qed.

Lemma forEach_cons {A S} (f : S → A → W S) (a : A) (l : list A) (s : S) :
  forEach f (a :: l) s = (f s a ≫= forEach f l).
Proof. done. Qed.

Lemma forEach_app {A S} (f : S → A → W S) (l1 l2 : list A) (s : S) :
  forEach f (l1 ++ l2) s = (forEach f l1 s ≫= forEach f l2).
Proof.
  revert s. induction l1 as [|a l1 IH]; intros s.
  - change (forEach f l2 s = (mret s ≫= forEach f l2)). by rewrite bind_ret.
  - rewrite <- app_comm_cons, !forEach_cons, bind_assoc.
    apply bind_ext, IH.
Qed.

(** ** C1: a service that does not participate *)

Lemma isWorkloadService_notParticipating E obj :
  notParticipating E obj →
  (isWorkloadService E obj).2 = Ok [] ∧ calls (isWorkloadService E obj).1 = [].
Proof.
  unfold notParticipating, isWorkloadService.
  destruct (svc_Annotations obj) as [annotations|]; [|done].
  destruct (annotations !! WorkloadAnnotation E) as [value|]; [|done].
  destruct (decide (value = "")) as [|Hne]; [done|].
  destruct (decide (annotations !! WorkloadAnnotatioNoop E = Some "true")) as [|Hnoop];
    [done|].
  intros [?|[?|Hempty]]; [done..|].
  destruct (json_Unmarshal E value) as [ids [e|]]; simpl in *; by subst.
Qed.

(** C1, as stated, fails: [svc1] exists, is not deletion-marked and has opted
    out; its sync returns nil and the registry entry of its key is still
    there. *)
Lemma sync_opted_out_entry_survives :
  notParticipating (Cluster.env (Cluster.cluster OptOut.start)) OptOut.svc1
  ∧ svc_DeletionTimestamp OptOut.svc1 = None
  ∧ (Cluster.serviceSync OptOut.start "default/svc1").1.2
    = Ok (Cluster.registry OptOut.start)
  ∧ Cluster.registry (Cluster.serviceSync OptOut.start "default/svc1").2
      !! "default/svc1" = Some {[ "default/wl1" := true ]}.
Proof.
  split; [right; left; by vm_compute|].
  split; [done|]. split; by vm_compute.
Qed.

(** C1 (amended): for a service that still exists and does not participate,
    the sync returns nil, issues no call besides at most a log line and
    leaves the registry exactly as it was, so an entry of the service's key
    stays. *)
Theorem sync_not_participating_keeps_registry
    (E : Env) (reg : Registry) (key : string) (obj : Service) :
  svc_DeletionTimestamp obj = None →
  notParticipating E obj →
  (Controller_sync E reg key (Some obj)).2 = Ok reg
  ∧ calls (Controller_sync E reg key (Some obj)).1 = [].
Proof.
  intros Hlive Hnot. unfold Controller_sync.
  destruct (decide (svc_DeletionTimestamp obj ≠ None)) as [|_]; [done|].
  destruct (isWorkloadService_notParticipating E obj Hnot) as [Hres Hcalls].
  destruct (isWorkloadService E obj) as [t r]. cbn [fst snd] in Hres, Hcalls.
  subst r. rewrite bind_Ok.
  destruct (decide (length (@nil string) = 0)) as [_|]; [|done].
  cbn [fst snd mret W_ret]. by rewrite app_nil_r.
Qed.

Lemma sync_not_participating_keeps_registry_witness :
  (Controller_sync (Cluster.env (Cluster.cluster OptOut.start))
                   (Cluster.registry OptOut.start) "default/svc1"
                   (Some OptOut.svc1)).2
  = Ok (Cluster.registry OptOut.start)
  ∧ calls (Controller_sync (Cluster.env (Cluster.cluster OptOut.start))
                           (Cluster.registry OptOut.start) "default/svc1"
                           (Some OptOut.svc1)).1 = [].
Proof.
  apply (sync_not_participating_keeps_registry
           (Cluster.env (Cluster.cluster OptOut.start))
           (Cluster.registry OptOut.start) "default/svc1" OptOut.svc1).
  - reflexivity.
  - right; left. vm_compute. reflexivity.
Defined.

(** ** C5: the scenario [svc1], [wl1], [p1] *)

(** A service whose selector has no pair when it is synced gets its selector
    term installed, and no pod is handed to [c.pods.Update] by that sync:
    the pods are compared with the selector of the object the handler was
    given, not with the one it has just written. *)
Lemma queuePod_no_selector (selector : Labels) (pod : Pod) :
  rangeLabels selector = ∅ → queuePod selector pod = [].
Proof.
  intros Hsel. unfold queuePod, missingPairs. rewrite Hsel, map_to_list_empty.
  by destruct (pod_DeletionTimestamp pod).
Qed.

(** C5, as stated, fails: after the handler has run once on [svc1] and its
    calls have been served, [p1] still carries [{app: x}] only. *)
Lemma one_sync_leaves_p1_unlabelled :
  Scenario.after1.1.2 = Ok {[ "default/svc1" := {[ "default/wl1" := true ]} ]}
  ∧ storedLabels Scenario.after1.2 "default/p1" = Some (Some {[ "app" := "x" ]})
  ∧ storedLabels Scenario.after1.2 "default/p1"
    ≠ Some (Some {[ "app" := "x"; "workloadID_svc1" := "true" ]}).
Proof.
  split; [by vm_compute|]. split; [by vm_compute|].
  intros H. by vm_compute in H.
Qed.

(** C5 (amended): in the scenario, the first sync of [svc1] installs the
    selector term [workloadID_svc1: true], hands no pod to the pod client and
    stores the entry of [svc1]; the sync of the updated [svc1] hands [p1] to
    the pod client once, and [p1]'s labels are then
    [{app: x, workloadID_svc1: true}]. *)
Theorem svc1_scenario_two_syncs :
  calls Scenario.after1.1.1
  = [ServicesUpdate (set_svc_Selector Scenario.svc1
                       (Some {[ "workloadID_svc1" := "true" ]}))]
  ∧ storedSelector Scenario.after1.2 "default/svc1"
    = Some (Some {[ "workloadID_svc1" := "true" ]})
  ∧ storedLabels Scenario.after1.2 "default/p1" = Some (Some {[ "app" := "x" ]})
  ∧ calls Scenario.after2.1.1
    = [PodsUpdate (set_pod_Labels Scenario.p1
                     (Some {[ "app" := "x"; "workloadID_svc1" := "true" ]}))]
  ∧ Scenario.after2.1.2 = Ok {[ "default/svc1" := {[ "default/wl1" := true ]} ]}
  ∧ storedSelector Scenario.after2.2 "default/svc1"
    = Some (Some {[ "workloadID_svc1" := "true" ]})
  ∧ storedLabels Scenario.after2.2 "default/p1"
    = Some (Some {[ "app" := "x"; "workloadID_svc1" := "true" ]}).
Proof. repeat split; by vm_compute. Qed.

(** ** C3: how often a pod is handed to the pod client *)

(** A listed pod is queued once for every selector pair it lacks. *)
Lemma queuePod_length (selector : Labels) (pod : Pod) :
  pod_DeletionTimestamp pod = None →
  length (queuePod selector pod) = length (missingPairs selector pod).
Proof. intros Hlive. unfold queuePod. rewrite Hlive. apply length_fmap. Qed.

Lemma queuePod_complete (selector : Labels) (pod : Pod) :
  missingPairs selector pod = [] → queuePod selector pod = [].
Proof.
  intros Hnone. unfold queuePod. rewrite Hnone.
  by destruct (pod_DeletionTimestamp pod).
Qed.

(** C3 fails on the code: [p1] lacks two of the selector pairs of [svc1], is
    appended to [podsToUpdate] twice and is handed to [c.pods.Update] twice
    in the one sync, with the same labels. *)
Theorem pod_missing_two_pairs_updated_twice :
  svc_DeletionTimestamp TwoPairs.svc1 = None
  ∧ length (missingPairs (svc_Selector TwoPairs.svc1) Scenario.p1) = 2
  ∧ queuePod (svc_Selector TwoPairs.svc1) Scenario.p1 = [Scenario.p1; Scenario.p1]
  ∧ (Cluster.serviceSync TwoPairs.start "default/svc1").1
    = ([PodsUpdate TwoPairs.labelled; PodsUpdate TwoPairs.labelled],
       Ok {[ "default/svc1" := {[ "default/wl1" := true ]} ]}).
Proof. repeat split; by vm_compute. Qed.

(** ** The label set the pod handler recomputes *)

Lemma getLabel_rangeLabels (l : Labels) (k : string) :
  rangeLabels l !! k = getLabel l k.
Proof. by destruct l. Qed.

(** A desired label wins; any other label of the pod stays unless its key
    starts with the prefix. *)
Lemma lookup_recomputeLabels (old : Labels) (desired : gmap string string) (k : string) :
  recomputeLabels old desired !! k =
  match desired !! k with
  | Some v => Some v
  | None => if Strings.HasPrefix k WorkloadIDLabelPrefix then None else getLabel old k
  end.
Proof.
  unfold recomputeLabels. rewrite lookup_union.
  destruct (desired !! k) as [v|] eqn:Hd.
  - by rewrite union_Some_l.
  - rewrite (left_id_L None (∪)). apply option_eq. intros v.
    rewrite map_lookup_filter_Some, getLabel_rangeLabels. cbn [fst snd].
    destruct (Strings.HasPrefix k WorkloadIDLabelPrefix).
    + split; [intros [_ Hkeep]; by destruct Hkeep|done].
    + split; [by intros [? _]|]. intros ?. split; [done|]. by intros [? _].
Qed.

Lemma recomputeLabels_idempotent (old : Labels) (desired : gmap string string) :
  recomputeLabels (Some (recomputeLabels old desired)) desired
  = recomputeLabels old desired.
Proof.
  apply map_eq. intros k. rewrite !lookup_recomputeLabels.
  destruct (desired !! k) eqn:Hd; [done|].
  destruct (Strings.HasPrefix k WorkloadIDLabelPrefix) eqn:Hp; [done|].
  simpl. rewrite lookup_recomputeLabels, Hd, Hp. done.
Qed.

(** ** C6: the guard against redundant pod updates *)

(** With a non-nil label map the guard works: when the recomputed labels are
    the pod's labels, the pod handler hands nothing to the pod client. *)
Lemma pod_sync_guard (E : Env) (order : nat → RangeOrder) (reg : Registry)
    (key : string) (o : Pod) (l : gmap string string) (ws : list Workload)
    (t : list Event) (desired : gmap string string) :
  pod_DeletionTimestamp o = None →
  pod_Labels o = Some l →
  GetWorkloadsMatchingLabels E (pod_Namespace o) (pod_Labels o) = Returned ws →
  forEach (mergeService E o) (collectServices order reg 0 ws) ∅ = (t, Ok desired) →
  recomputeLabels (Some l) desired = l →
  PodController_sync E order reg key (Some o) = (t, Ok tt).
Proof.
  intros Hlive Hl Hws Hd Heq. unfold PodController_sync.
  destruct (decide (pod_DeletionTimestamp o ≠ None)) as [|_]; [done|].
  rewrite Hws, Hd, bind_Ok, Hl, Heq.
  destruct (decide (Some l = Some l)) as [_|]; [|done].
  cbn [fst snd mret W_ret]. by rewrite app_nil_r.
Qed.

(** C6 fails on the code: for the pod [p0] without labels the recomputed
    label set has the same keys and values as its current one (none), yet the
    pod handler hands the pod to [c.pods.Update], since
    [reflect.DeepEqual] tells the nil map of the pod from the empty map that
    was built. *)
Theorem unlabelled_pod_is_updated :
  pod_DeletionTimestamp Unlabelled.p0 = None
  ∧ recomputeLabels (pod_Labels Unlabelled.p0) ∅ = rangeLabels (pod_Labels Unlabelled.p0)
  ∧ (Cluster.podSync canonical_order Unlabelled.start "default/p0").1
    = ([PodsUpdate (set_pod_Labels Unlabelled.p0 (Some ∅))], Ok tt).
Proof. repeat split; by vm_compute. Qed.

(** ** Which pods the handlers hand to the pod client *)

Lemma trace_bind {A B} (m : W A) (f : A → W B) :
  (m ≫= f).1 = m.1 ++ match m.2 with Ok a => (f a).1 | _ => [] end.
Proof.
  destruct m as [t [a | e | msg]]; cbn [fst snd].
  - by rewrite bind_Ok.
  - by rewrite bind_Err, app_nil_r.
  - by rewrite bind_Panic, app_nil_r.
Qed.

Lemma podUpdates_app (t1 t2 : list Event) :
  podUpdates (t1 ++ t2) = podUpdates t1 ++ podUpdates t2.
Proof. apply omap_app. Qed.

Lemma elem_of_podUpdates (p : Pod) (t : list Event) :
  p ∈ podUpdates t ↔ PodsUpdate p ∈ t.
Proof.
  unfold podUpdates. rewrite list_elem_of_omap. split.
  - intros ([] & Hin & Heq); naive_solver.
  - intros Hin. by exists (PodsUpdate p).
Qed.

Lemma podUpdates_isWorkloadService (E : Env) (obj : Service) :
  podUpdates (isWorkloadService E obj).1 = [].
Proof.
  unfold isWorkloadService.
  destruct (svc_Annotations obj) as [annotations|]; [|done].
  destruct (annotations !! WorkloadAnnotation E) as [value|]; [|done].
  destruct (decide _); [done|]. destruct (decide _); [done|].
  by destruct (json_Unmarshal E value) as [ids [e|]].
Qed.

Lemma podUpdates_enqueue (namespace : string) (pods : list Pod) :
  podUpdates (forEach (λ _ pod, emit (PodsEnqueue namespace (pod_Name pod))) pods tt).1
  = [].
Proof.
  induction pods as [|p pods IH]; [done|].
  rewrite forEach_cons, trace_bind, podUpdates_app. cbn [emit fst snd]. by rewrite IH.
Qed.

Lemma podUpdates_index {A} (l : list A) (i : nat) : podUpdates (index l i).1 = [].
Proof. unfold index. by destruct (l !! i). Qed.

Lemma podUpdates_sweep (E : Env) (key : string) :
  podUpdates (updateServiceWorkloadPods E key).1 = [].
Proof.
  unfold updateServiceWorkloadPods.
  rewrite trace_bind, podUpdates_app, podUpdates_index.
  destruct (index _ 0).2 as [namespace| |]; [|done..].
  rewrite trace_bind, podUpdates_app, podUpdates_index.
  destruct (index _ 1).2 as [serviceName| |]; [|done..].
  destruct (podLister_List E namespace _) as [pods|err]; [|done].
  by rewrite podUpdates_enqueue.
Qed.

Lemma podUpdates_syncRemoved (E : Env) (reg : Registry) (key : string) :
  podUpdates (syncRemoved E reg key).1 = [].
Proof.
  unfold syncRemoved. rewrite trace_bind, podUpdates_app.
  destruct (reg !! key); [|done].
  rewrite podUpdates_sweep. by destruct (updateServiceWorkloadPods E key).2.
Qed.

Lemma elem_of_queuePod (selector : Labels) (pod p : Pod) :
  p ∈ queuePod selector pod →
  p = pod ∧ pod_DeletionTimestamp pod = None ∧ missingPairs selector pod ≠ [].
Proof.
  unfold queuePod. destruct (pod_DeletionTimestamp pod); [by intros ?%elem_of_nil|].
  rewrite list_elem_of_fmap. intros (kv & -> & Hin).
  split; [done|]. split; [done|]. intros Hnil. rewrite Hnil in Hin.
  by apply elem_of_nil in Hin.
Qed.

Lemma resolveWorkload_spec (E : Env) (obj : Service)
    (st st' : list Pod * gmap string bool) (workloadID : string) (t : list Event) :
  resolveWorkload E obj st workloadID = (t, Ok st') →
  (∀ p, p ∈ st'.1 → p ∈ st.1 ∨ listedPod E p ∧ p ∈ st'.1).
Proof.
  unfold resolveWorkload. destruct st as [podsToUpdate targetWorkloadUUIDs].
  destruct (GetByWorkloadID E workloadID) as [targetWorkload|err] eqn:Hw.
  - destruct (podLister_List E _ _) as [pods|err] eqn:Hl; [|done].
    intros [= <- <-] p. cbn [fst]. rewrite elem_of_app.
    intros [?|Hin]; [by left|]. right. split; [|set_solver].
    apply list_elem_of_join in Hin as (q & Hp & Hq).
    apply list_elem_of_fmap in Hq as (pod & -> & Hpod).
    apply elem_of_queuePod in Hp as (-> & _). by exists workloadID, targetWorkload, pods.
  - intros [= <- <-] p. by left.
Qed.

Lemma podUpdates_resolveWorkload (E : Env) (obj : Service)
    (st : list Pod * gmap string bool) (workloadID : string) :
  podUpdates (resolveWorkload E obj st workloadID).1 = [].
Proof.
  unfold resolveWorkload. destruct st as [podsToUpdate targetWorkloadUUIDs].
  destruct (GetByWorkloadID E workloadID) as [targetWorkload|err]; [|done].
  by destruct (podLister_List E _ _).
Qed.

Lemma resolve_loop_spec (E : Env) (obj : Service) (workloadIDs : list string)
    (st : list Pod * gmap string bool) :
  podUpdates (forEach (resolveWorkload E obj) workloadIDs st).1 = []
  ∧ ∀ st', (forEach (resolveWorkload E obj) workloadIDs st).2 = Ok st' →
           Forall (listedPod E) st.1 → Forall (listedPod E) st'.1.
Proof.
  revert st. induction workloadIDs as [|workloadID ids IH]; intros st.
  - split; [done|]. by intros st' [= <-].
  - rewrite forEach_cons, trace_bind, podUpdates_app, podUpdates_resolveWorkload.
    destruct (resolveWorkload E obj st workloadID) as [t [st1| |]] eqn:Hstep;
      cbn [fst snd]; [|done..].
    destruct (IH st1) as [Hnone Hinv]. split; [by rewrite Hnone|].
    rewrite bind_Ok. cbn [snd]. intros st' Hst' Hall. apply Hinv; [done|].
    apply Forall_forall. intros p Hp.
    destruct (resolveWorkload_spec E obj st st1 workloadID t Hstep p Hp) as [?|[? _]];
      [|done].
    by eapply Forall_forall in Hall.
Qed.


Lemma podUpdates_updatePod (E : Env) (obj : Service) (p : Pod) :
  podUpdates (updatePod E obj () p).1
  = match (mergeSelector (svc_Selector obj) p).2 with
    | Ok toUpdate => [toUpdate]
    | _ => []
    end.
Proof.
  unfold updatePod, mergeSelector.
  destruct (pod_Labels p) as [l|]; [by rewrite bind_ret|].
  destruct (decide _); [by rewrite bind_ret|done].
Qed.

Lemma elem_of_update_loop (E : Env) (obj : Service) (queue : list Pod) (p' : Pod) :
  p' ∈ podUpdates (forEach (updatePod E obj) queue tt).1 →
  ∃ p, p ∈ queue ∧ (mergeSelector (svc_Selector obj) p).2 = Ok p'.
Proof.
  induction queue as [|p queue IH]; [by intros ?%elem_of_nil|].
  rewrite forEach_cons, trace_bind, podUpdates_app, elem_of_app, podUpdates_updatePod.
  intros [Hin|Hin].
  - exists p. split; [left|].
    destruct (mergeSelector (svc_Selector obj) p).2 as [toUpdate| |];
      [|by apply elem_of_nil in Hin..].
    apply list_elem_of_singleton in Hin. by subst.
  - destruct (updatePod E obj () p).2 as [[]| |]; [|by apply elem_of_nil in Hin..].
    destruct (IH Hin) as (q & ? & ?). exists q. split; [by right|done].
Qed.



(** Where the pairs of the desired label set come from: the selector of a
    service fetched, in the pod's namespace, under the name part of a
    collected key. *)
Lemma merge_loop_spec (E : Env) (obj : Pod) (keys : list string)
    (acc desired : gmap string string) (t : list Event) :
  forEach (mergeService E obj) keys acc = (t, Ok desired) →
  ∀ k v, desired !! k = Some v →
    acc !! k = Some v
    ∨ ∃ uuid name workload,
        uuid ∈ keys
        ∧ Strings.Split_slash uuid !! 1 = Some name
        ∧ serviceLister_Get E (pod_Namespace obj) name = Returned workload
        ∧ getLabel (svc_Selector workload) k = Some v.
Proof.
  revert acc t. induction keys as [|uuid keys IH]; intros acc t.
  - intros [= <- <-] k v Hk. by left.
  - rewrite forEach_cons. intros Hloop.
    apply bind_inv_Ok in Hloop as (t1 & acc' & t2 & Hstep & Hrest & ->).
    unfold mergeService, index in Hstep.
    destruct (Strings.Split_slash uuid !! 1) as [name|] eqn:Hname; [|done].
    rewrite bind_ret in Hstep.
    destruct (serviceLister_Get E (pod_Namespace obj) name) as [workload|err] eqn:Hget;
      [|done].
    injection Hstep as <- <-. intros k v Hk.
    destruct (IH _ _ Hrest k v Hk) as [Hacc|(uuid' & name' & w' & ? & ? & ? & ?)].
    + apply lookup_union_Some_raw in Hacc as [Hsel|[_ Hacc]].
      * right. exists uuid, name, workload. rewrite <- getLabel_rangeLabels.
        repeat split; [left|done..].
      * by left.
    + right. exists uuid', name', w'. repeat split; [by right|done..].
Qed.

(** Fetching the services issues no call the trace records. *)
Lemma merge_loop_trace (E : Env) (obj : Pod) (keys : list string)
    (acc : gmap string string) :
  (forEach (mergeService E obj) keys acc).1 = [].
Proof.
  revert acc. induction keys as [|uuid keys IH]; intros acc; [done|].
  rewrite forEach_cons, trace_bind. unfold mergeService, index.
  destruct (Strings.Split_slash uuid !! 1) as [name|]; [|done].
  rewrite bind_ret.
  destruct (serviceLister_Get E (pod_Namespace obj) name); [|done].
  cbn [mret W_ret fst snd]. by rewrite IH.
Qed.

(** What the pod handler hands to the pod client: the pod it was given with
    the recomputed labels. *)
Lemma PodController_sync_pod_updates (E : Env) (order : nat → RangeOrder)
    (reg : Registry) (key : string) (obj p' : Pod) :
  PodsUpdate p' ∈ (PodController_sync E order reg key (Some obj)).1 →
  ∃ workloads desired,
    GetWorkloadsMatchingLabels E (pod_Namespace obj) (pod_Labels obj) = Returned workloads
    ∧ forEach (mergeService E obj) (collectServices order reg 0 workloads) ∅
      = ([], Ok desired)
    ∧ p' = set_pod_Labels obj (Some (recomputeLabels (pod_Labels obj) desired)).
Proof.
  unfold PodController_sync.
  destruct (decide (pod_DeletionTimestamp obj ≠ None)); [by intros ?%elem_of_nil|].
  destruct (GetWorkloadsMatchingLabels E _ _) as [workloads|err];
    [|by intros ?%elem_of_nil].
  pose proof (merge_loop_trace E obj (collectServices order reg 0 workloads) ∅) as Ht.
  destruct (forEach (mergeService E obj) _ ∅) as [t [desired| |]] eqn:Hloop;
    cbn [fst] in Ht; subst t; [|by intros ?%elem_of_nil..].
  rewrite bind_Ok, app_nil_l. cbn [fst]. intros Hin.
  exists workloads, desired. split; [done|]. split; [done|].
  destruct (decide (pod_Labels obj = Some _)); [by apply elem_of_nil in Hin|].
  cbn [call_pods_Update fst] in Hin. apply list_elem_of_singleton in Hin.
  by injection Hin.
Qed.

(** ** C7: the labels a pod update leaves alone *)




(** ** C9: an annotation that fails to decode *)

(** Whatever the decoder reports, the identifiers it has left in the slice
    are the ones the service handler goes on with. *)
Lemma isWorkloadService_decoded (E : Env) (obj : Service)
    (annotations : gmap string string) (value : string) :
  svc_Annotations obj = Some annotations →
  annotations !! WorkloadAnnotation E = Some value →
  value ≠ "" →
  annotations !! WorkloadAnnotatioNoop E ≠ Some "true" →
  (isWorkloadService E obj).2 = Ok (json_Unmarshal E value).1
  ∧ (isWorkloadService E obj).1
    = match (json_Unmarshal E value).2 with
      | Some e => [Logged Debug "Failed to unmarshal targetWorkloadIds" [e]]
      | None => []
      end.
Proof.
  intros Hann Hvalue Hne Hnoop. unfold isWorkloadService. rewrite Hann, Hvalue.
  destruct (decide (value = "")); [done|].
  destruct (decide (annotations !! WorkloadAnnotatioNoop E = Some "true")); [done|].
  by destruct (json_Unmarshal E value) as [ids [e|]].
Qed.

(** C9 fails on the code: the payload of [svc1] fails to decode, the failure
    is logged, and the sync goes on with the identifiers decoded so far: it
    installs the selector term, tries to resolve both identifiers and writes
    the registry entry. *)
Theorem partly_decoded_targets_are_used :
  Json.Unmarshal PartialDecode.payload = (["wl1"; ""], Some "json.UnmarshalTypeError")
  ∧ (Cluster.serviceSync PartialDecode.start "default/svc1").1
    = ([Logged Debug "Failed to unmarshal targetWorkloadIds" ["json.UnmarshalTypeError"];
        ServicesUpdate (set_svc_Selector PartialDecode.svc1
                          (Some {[ "workloadID_svc1" := "true" ]}));
        Logged Warn "Failed to fetch workload [%s]: [%v]" [""; "workload not found"]],
       Ok {[ "default/svc1" := {[ "default/wl1" := true ]} ]}).
Proof. split; by vm_compute. Qed.

(** ** C10: where the pod handler fetches the dependent services *)

Lemma mergeService_eq (E : Env) (obj : Pod) (acc : gmap string string) (uuid : string) :
  mergeService E obj acc uuid
  = match Strings.Split_slash uuid !! 1 with
    | Some name =>
        match serviceLister_Get E (pod_Namespace obj) name with
        | Returned workload => ([], Ok (rangeLabels (svc_Selector workload) ∪ acc))
        | Failed err => ([], Err err)
        end
    | None => ([], Panic "index out of range")
    end.
Proof.
  unfold mergeService, index.
  destruct (Strings.Split_slash uuid !! 1) as [name|]; [|done].
  by rewrite bind_ret.
Qed.

Lemma merge_loop_succeeds (E : Env) (obj : Pod) (keys : list string)
    (services : list Service) (acc : gmap string string) :
  Forall2 (fetched E obj) keys services →
  forEach (mergeService E obj) keys acc
  = ([], Ok (foldl (λ acc workload, rangeLabels (svc_Selector workload) ∪ acc)
                   acc services)).
Proof.
  intros Hall. revert acc.
  induction Hall as [|uuid workload keys services (name & Hname & Hget) _ IH];
    intros acc; [done|].
  rewrite forEach_cons, mergeService_eq, Hname, Hget.
  exact (eq_trans (bind_ret _ _) (IH _)).
Qed.

Lemma merge_loop_fails (E : Env) (obj : Pod) (keys : list string)
    (acc : gmap string string) :
  Forall (λ uuid, is_Some (Strings.Split_slash uuid !! 1)) keys →
  (∃ uuid name err, uuid ∈ keys
                    ∧ Strings.Split_slash uuid !! 1 = Some name
                    ∧ serviceLister_Get E (pod_Namespace obj) name = Failed err) →
  ∃ uuid name err, uuid ∈ keys
                   ∧ Strings.Split_slash uuid !! 1 = Some name
                   ∧ serviceLister_Get E (pod_Namespace obj) name = Failed err
                   ∧ forEach (mergeService E obj) keys acc = ([], Err err).
Proof.
  intros Hnames. revert acc.
  induction Hnames as [|uuid keys [name Hname] _ IH]; intros acc Hbad.
  { destruct Hbad as (? & ? & ? & []%elem_of_nil & _). }
  rewrite forEach_cons, mergeService_eq, Hname.
  destruct (serviceLister_Get E (pod_Namespace obj) name) as [workload|err] eqn:Hget.
  - rewrite bind_nil_Ok.
    destruct (IH (rangeLabels (svc_Selector workload) ∪ acc))
      as (uuid' & name' & err' & Hin & Hname' & Hget' & Hloop).
    { destruct Hbad as (uuid' & name' & err' & Hin & Hname' & Hget').
      apply elem_of_cons in Hin as [->|Hin]; [congruence|].
      by exists uuid', name', err'. }
    exists uuid', name', err'. by rewrite elem_of_cons; auto.
  - exists uuid, name, err. rewrite elem_of_cons. auto.
Qed.

(** C10: the pod handler fetches every collected service under the pod's
    namespace and the part of the registry key after the first slash; the
    part before it plays no role.  If one of these fetches fails, the sync
    returns that failure and updates nothing; if all succeed, the selectors
    of the services found there are what is merged into the pod's labels. *)
Theorem pod_sync_fetches_in_pod_namespace
    (E : Env) (order : nat → RangeOrder) (reg : Registry) (key : string)
    (obj : Pod) (workloads : list Workload) :
  pod_DeletionTimestamp obj = None →
  GetWorkloadsMatchingLabels E (pod_Namespace obj) (pod_Labels obj) = Returned workloads →
  Forall (λ uuid, is_Some (Strings.Split_slash uuid !! 1))
         (collectServices order reg 0 workloads) →
  (∀ acc uuid uuid',
     Strings.Split_slash uuid !! 1 = Strings.Split_slash uuid' !! 1 →
     mergeService E obj acc uuid = mergeService E obj acc uuid')
  ∧ ((∃ uuid name err,
        uuid ∈ collectServices order reg 0 workloads
        ∧ Strings.Split_slash uuid !! 1 = Some name
        ∧ serviceLister_Get E (pod_Namespace obj) name = Failed err) →
     ∃ uuid name err,
       uuid ∈ collectServices order reg 0 workloads
       ∧ Strings.Split_slash uuid !! 1 = Some name
       ∧ serviceLister_Get E (pod_Namespace obj) name = Failed err
       ∧ PodController_sync E order reg key (Some obj) = ([], Err err))
  ∧ (∀ services,
       Forall2 (fetched E obj) (collectServices order reg 0 workloads) services →
       let labels :=
         recomputeLabels (pod_Labels obj)
           (foldl (λ acc workload, rangeLabels (svc_Selector workload) ∪ acc)
                  ∅ services) in
       PodController_sync E order reg key (Some obj)
       = if decide (pod_Labels obj = Some labels) then ([], Ok tt)
         else call_pods_Update E id (set_pod_Labels obj (Some labels))).
Proof.
  intros Hlive Hws Hnames. split; [|split].
  - intros acc uuid uuid' Hsame. by rewrite !mergeService_eq, Hsame.
  - intros Hbad.
    destruct (merge_loop_fails E obj _ ∅ Hnames Hbad)
      as (uuid & name & err & Hin & Hname & Hget & Hloop).
    exists uuid, name, err. repeat split; [done..|].
    unfold PodController_sync.
    destruct (decide (pod_DeletionTimestamp obj ≠ None)); [done|].
    by rewrite Hws, Hloop.
  - intros services Hall labels. unfold PodController_sync.
    destruct (decide (pod_DeletionTimestamp obj ≠ None)); [done|].
    rewrite Hws, (merge_loop_succeeds E obj _ services ∅ Hall), bind_Ok.
    fold labels. cbn [fst snd]. rewrite app_nil_l.
    by destruct (if decide (pod_Labels obj = Some labels) then _ else _).
Qed.

Lemma pod_sync_fetches_in_pod_namespace_witness :
  ∃ uuid name err,
    uuid ∈ collectServices canonical_order CrossNamespace.registry 0 [CrossNamespace.wl]
    ∧ Strings.Split_slash uuid !! 1 = Some name
    ∧ serviceLister_Get (Cluster.env (Cluster.cluster CrossNamespace.start))
        (pod_Namespace CrossNamespace.p) name = Failed err
    ∧ PodController_sync (Cluster.env (Cluster.cluster CrossNamespace.start))
        canonical_order CrossNamespace.registry "other/p" (Some CrossNamespace.p)
      = ([], Err err).
Proof.
  apply (pod_sync_fetches_in_pod_namespace
           (Cluster.env (Cluster.cluster CrossNamespace.start)) canonical_order
           CrossNamespace.registry "other/p" CrossNamespace.p [CrossNamespace.wl]).
  - reflexivity.
  - vm_compute. reflexivity.
  - apply (bool_decide_unpack _). vm_compute. exact I.
  - exists "default/svc1", "svc1", "service not found".
    split; [|split]; [|vm_compute; reflexivity..].
    apply (bool_decide_unpack _). vm_compute. exact I.
Defined.

(** With a namesake of [svc1] in the pod's namespace, it is the namesake's
    selector that reaches the pod's labels. *)
Example pod_sync_merges_namesake :
  (Cluster.podSync canonical_order CrossNamespace.crowded "other/p").1
  = ([PodsUpdate (set_pod_Labels CrossNamespace.p
                    (Some {[ "app" := "x"; "tier" := "web" ]}))], Ok tt).
Proof. by vm_compute. Qed.

(** ** The steps of the loops of [updatePods] and the shrink test *)

(** An identifier that does not resolve costs a log line and nothing else:
    the queue and the target set are as before, and the loop goes on. *)
Lemma resolveWorkload_unresolved (E : Env) (obj : Service)
    (st : list Pod * gmap string bool) (workloadID : string) (err : error) :
  GetByWorkloadID E workloadID = Failed err →
  resolveWorkload E obj st workloadID
  = ([Logged Warn "Failed to fetch workload [%s]: [%v]" [workloadID; err]], Ok st).
Proof. intros Hw. unfold resolveWorkload. destruct st. by rewrite Hw. Qed.

Lemma resolveWorkload_resolved (E : Env) (obj : Service)
    (st : list Pod * gmap string bool) (workloadID : string)
    (targetWorkload : Workload) (pods : list Pod) :
  GetByWorkloadID E workloadID = Returned targetWorkload →
  podLister_List E (wl_Namespace targetWorkload)
    (rangeLabels (wl_SelectorLabels targetWorkload)) = Returned pods →
  resolveWorkload E obj st workloadID
  = ([], Ok (st.1 ++ mjoin (queuePod (svc_Selector obj) <$> pods),
             <[ Strings.Sprintf_slash (wl_Namespace targetWorkload)
                                      (wl_Name targetWorkload) := true ]> st.2)).
Proof. intros Hw Hl. unfold resolveWorkload. destruct st. by rewrite Hw, Hl. Qed.

Lemma update_loop_succeeds (E : Env) (obj : Service) (queue : list Pod) :
  Forall (λ p, is_Some (pod_Labels p)
               ∧ pods_Update E (labelled (svc_Selector obj) p) = None) queue →
  forEach (updatePod E obj) queue tt
  = (PodsUpdate ∘ labelled (svc_Selector obj) <$> queue, Ok tt).
Proof.
  induction 1 as [|p queue [[l Hl] Hup] _ IH]; [done|].
  assert (updatePod E obj () p
          = ([PodsUpdate (labelled (svc_Selector obj) p)], Ok ())) as Hstep.
  { unfold updatePod, mergeSelector, labelled in *. rewrite Hl in *.
    rewrite bind_ret. unfold call_pods_Update.
    cbn [rangeLabels] in Hup. by rewrite Hup. }
  by rewrite forEach_cons, Hstep, bind_Ok, IH.
Qed.

(** The loop of [Controller.sync] finds no key of the old entry missing
    exactly when the new set has every key of the old one. *)
Lemma targetsShrank_false (oldMap targetWorkloadUUIDs : gmap string bool) :
  targetsShrank oldMap targetWorkloadUUIDs = false
  ↔ ∀ k, is_Some (oldMap !! k) → is_Some (targetWorkloadUUIDs !! k).
Proof.
  unfold targetsShrank. rewrite <- not_true_iff_false, existsb_exists. split.
  - intros Hnone k [b Hk]. destruct (targetWorkloadUUIDs !! k) eqn:Hnew; [done|].
    destruct Hnone. exists k. split; [|by apply bool_decide_eq_true].
    apply list_elem_of_In, list_elem_of_fmap. exists (k, b).
    split; [done|]. by apply elem_of_map_to_list.
  - intros Hall (k & Hin & Hk). apply bool_decide_eq_true in Hk.
    apply list_elem_of_In, list_elem_of_fmap in Hin as ([k' b] & -> & Hin).
    apply elem_of_map_to_list in Hin. destruct (Hall k') as [? ?]; [done|].
    simpl in *. congruence.
Qed.

Lemma targetsShrank_true (oldMap targetWorkloadUUIDs : gmap string bool) :
  targetsShrank oldMap targetWorkloadUUIDs = true
  ↔ ∃ k, is_Some (oldMap !! k) ∧ targetWorkloadUUIDs !! k = None.
Proof.
  destruct (targetsShrank oldMap targetWorkloadUUIDs) eqn:Hs.
  - split; [intros _|done]. unfold targetsShrank in Hs.
    apply existsb_exists in Hs as (k & Hin & Hk). apply bool_decide_eq_true in Hk.
    apply list_elem_of_In, list_elem_of_fmap in Hin as ([k' b] & -> & Hin).
    apply elem_of_map_to_list in Hin. by exists k'.
  - split; [done|]. intros (k & Hold & Hnew).
    destruct (proj1 (targetsShrank_false _ _) Hs k Hold) as [? ?]. congruence.
Qed.

(** In the cluster of [SkipFailure], whose service carries its term, the
    pod of [wl2] ends up labelled and the registry holds the key of [wl2]
    only. *)
Example skip_failure_outcome :
  storedLabels (Cluster.serviceSync SkipFailure.start "default/svc1").2 "default/p2"
  = Some (Some {[ "app" := "y"; "workloadID_svc1" := "true" ]})
  ∧ Cluster.registry (Cluster.serviceSync SkipFailure.start "default/svc1").2
    = {[ "default/svc1" := {[ "default/wl2" := true ]} ]}.
Proof. split; by vm_compute. Qed.

(** ** The sweep and the labels the pod handler drops *)

Lemma enqueue_loop (namespace : string) (pods : list Pod) :
  forEach (λ _ pod, emit (PodsEnqueue namespace (pod_Name pod))) pods tt
  = ((λ pod, PodsEnqueue namespace (pod_Name pod)) <$> pods, Ok tt).
Proof.
  induction pods as [|p pods IH]; [done|].
  rewrite forEach_cons.
  change (((([PodsEnqueue namespace (pod_Name p)], Ok tt) : W unit)
           ≫= forEach (λ _ pod, emit (PodsEnqueue namespace (pod_Name pod))) pods)
          = ((λ pod, PodsEnqueue namespace (pod_Name pod)) <$> p :: pods, Ok ())).
  by rewrite bind_Ok, IH.
Qed.

(** The sweep: every pod the lister returns for the namespace of the key and
    the selector term of the service, with the sentinel value, is enqueued;
    nothing is written. *)
Lemma updateServiceWorkloadPods_enqueues (E : Env) (key namespace serviceName : string)
    (pods : list Pod) :
  Strings.Split_slash key !! 0 = Some namespace →
  Strings.Split_slash key !! 1 = Some serviceName →
  podLister_List E namespace {[ getServiceSelector serviceName := "true" ]}
  = Returned pods →
  updateServiceWorkloadPods E key
  = ((λ pod, PodsEnqueue namespace (pod_Name pod)) <$> pods, Ok tt).
Proof.
  intros Hns Hname Hlist. unfold updateServiceWorkloadPods, index.
  rewrite Hns, bind_ret, Hname, bind_ret, Hlist. apply enqueue_loop.
Qed.

(** A stale label goes: a label whose key starts with the prefix and that no
    fetched service defines is not in the recomputed set. *)
Lemma recomputeLabels_drops (old : Labels) (desired : gmap string string) (k : string) :
  Strings.HasPrefix k WorkloadIDLabelPrefix = true →
  desired !! k = None →
  recomputeLabels old desired !! k = None.
Proof. intros Hp Hd. by rewrite lookup_recomputeLabels, Hd, Hp. Qed.

(** ** C2: the order in which the dependent services are merged *)

Lemma canonical_order_valid (i : nat) : valid_order (canonical_order i).
Proof. by intros reg. Qed.

Lemma reversed_order_valid (i : nat) : valid_order (reversed_order i).
Proof. intros reg. apply reverse_Permutation. Qed.

(** Two enumerations collect the same keys, the same number of times. *)
Lemma collectServices_Permutation (order1 order2 : nat → RangeOrder)
    (reg : Registry) (i : nat) (workloads : list Workload) :
  (∀ j, valid_order (order1 j)) → (∀ j, valid_order (order2 j)) →
  collectServices order1 reg i workloads ≡ₚ collectServices order2 reg i workloads.
Proof.
  intros H1 H2. revert i. induction workloads as [|d workloads IH]; intros i; [done|].
  cbn [collectServices]. by rewrite (H1 i reg), (H2 i reg), (IH (S i)).
Qed.

(** When the maps agree, a pair is in the merge iff it is in one of them. *)
Lemma lookup_overlay_agree (ms : list (gmap string string))
    (acc : gmap string string) (k v : string) :
  agree (acc :: ms) →
  foldl overlay acc ms !! k = Some v ↔ ∃ m, m ∈ acc :: ms ∧ m !! k = Some v.
Proof.
  revert acc. induction ms as [|m ms IH]; intros acc Hagree.
  - cbn [foldl]. split; [intros ?; exists acc; split; [left|done]|].
    by intros (m & ->%list_elem_of_singleton & ?).
  - cbn [foldl]. rewrite IH.
    + unfold overlay. split.
      * intros (m' & [->|Hin]%elem_of_cons & Hk).
        -- apply lookup_union_Some_raw in Hk as [Hk|[_ Hk]].
           ++ exists m. split; [right; left|done].
           ++ exists acc. split; [left|done].
        -- exists m'. split; [by do 2 right|done].
      * intros (m' & Hin & Hk). apply elem_of_cons in Hin as [Hacc|Hin].
        { subst m'. exists (m ∪ acc). split; [left|]. rewrite lookup_union.
          destruct (m !! k) as [v'|] eqn:Hm.
          - rewrite Hk. cbn. f_equal.
            apply (Hagree m acc k v' v); [right; left|left|done..].
          - by rewrite Hk. }
        apply elem_of_cons in Hin as [Hm|Hin].
        { subst m'. exists (m ∪ acc). split; [left|]. by apply lookup_union_Some_l. }
        exists m'. split; [by right|done].
    + intros m1 m2 k' v1 v2 Hin1 Hin2 Hk1 Hk2. unfold overlay in *.
      assert (∀ m' v', m' ∈ (m ∪ acc) :: ms → m' !! k' = Some v' →
                       ∃ m'', m'' ∈ acc :: m :: ms ∧ m'' !! k' = Some v') as Hsrc.
      { intros m' v' [->|Hin]%elem_of_cons Hk'.
        - apply lookup_union_Some_raw in Hk' as [Hk'|[_ Hk']].
          + exists m. split; [right; left|done].
          + exists acc. split; [left|done].
        - exists m'. split; [by do 2 right|done]. }
      destruct (Hsrc m1 v1 Hin1 Hk1) as (m1' & ? & ?).
      destruct (Hsrc m2 v2 Hin2 Hk2) as (m2' & ? & ?).
      by apply (Hagree m1' m2' k').
Qed.

Lemma agree_Permutation (ms1 ms2 : list (gmap string string)) :
  ms1 ≡ₚ ms2 → agree ms1 → agree ms2.
Proof.
  intros Hperm Hagree m1 m2 k v1 v2 Hin1 Hin2. rewrite <- Hperm in Hin1, Hin2.
  by apply Hagree.
Qed.

(** Maps that agree can be merged in any order. *)
Lemma overlay_Permutation (ms1 ms2 : list (gmap string string)) :
  ms1 ≡ₚ ms2 → agree ms1 →
  foldl overlay ∅ ms1 = foldl overlay ∅ ms2.
Proof.
  intros Hperm Hagree.
  assert (∀ ms, agree ms → agree (∅ :: ms)) as Hempty.
  { intros ms Hms m1 m2 k v1 v2 [->|Hin1]%elem_of_cons [->|Hin2]%elem_of_cons;
      rewrite ?lookup_empty; try done. by apply Hms. }
  apply map_eq. intros k. apply option_eq. intros v.
  rewrite !lookup_overlay_agree
    by eauto using agree_Permutation.
  by setoid_rewrite Hperm.
Qed.

Lemma merge_loop_fetched (E : Env) (obj : Pod) (keys : list string)
    (acc : gmap string string) :
  Forall (λ uuid, ∃ workload, fetched E obj uuid workload) keys →
  forEach (mergeService E obj) keys acc
  = ([], Ok (foldl overlay acc (fetchedSelector E obj <$> keys))).
Proof.
  intros Hall. revert acc.
  induction Hall as [|uuid keys (workload & name & Hname & Hget) _ IH]; intros acc;
    [done|].
  rewrite forEach_cons, mergeService_eq, Hname, Hget, bind_nil_Ok, IH.
  cbn [fmap list_fmap foldl]. unfold fetchedSelector at 2. by rewrite Hname, Hget.
Qed.

(** C2, as stated, fails: the collected keys are neither sorted nor
    deduplicated, and two runs of the pod handler on the same pod, cluster
    and registry, whose [Range] calls enumerate the registry differently,
    write different values for the label [tier] on which [blue] and [green]
    disagree. *)
Lemma pod_sync_depends_on_range_order :
  (∀ i, valid_order (canonical_order i))
  ∧ (∀ i, valid_order (reversed_order i))
  ∧ collectServices canonical_order Conflict.registry 0 [Conflict.wl; Conflict.wl']
    = ["default/green"; "default/blue"]
  ∧ collectServices reversed_order Conflict.registry 0 [Conflict.wl; Conflict.wl']
    = ["default/blue"; "default/green"]
  ∧ collectServices reversed_order Conflict.registry' 0 [Conflict.wl; Conflict.wl']
    = ["default/blue"; "default/green"; "default/blue"]
  ∧ (Cluster.podSync canonical_order Conflict.start "default/p").1
    = ([PodsUpdate (Conflict.written "a")], Ok tt)
  ∧ (Cluster.podSync reversed_order Conflict.start "default/p").1
    = ([PodsUpdate (Conflict.written "b")], Ok tt)
  ∧ Conflict.written "a" ≠ Conflict.written "b".
Proof.
  split; [apply canonical_order_valid|]. split; [apply reversed_order_valid|].
  repeat split; by vm_compute.
Qed.

(** C2 (amended): the pod handler merges the dependent services in the order
    in which its [Range] calls enumerate the registry, a key once for every
    matching workload its entry holds.  Two runs on the same pod and the same
    external state have the same outcome and hand the same labels to the pod
    client, however their [Range] calls enumerate the registry, provided the
    service of every collected key can be fetched and no two of these
    services give different values to one label key. *)
Theorem pod_sync_independent_of_range_order
    (E : Env) (order1 order2 : nat → RangeOrder) (reg : Registry) (key : string)
    (obj : Pod) (workloads : list Workload) :
  (∀ i, valid_order (order1 i)) →
  (∀ i, valid_order (order2 i)) →
  GetWorkloadsMatchingLabels E (pod_Namespace obj) (pod_Labels obj) = Returned workloads →
  (∀ uuid, uuid ∈ collectServices order1 reg 0 workloads →
           ∃ workload, fetched E obj uuid workload) →
  (∀ uuid1 uuid2 workload1 workload2 k v1 v2,
     uuid1 ∈ collectServices order1 reg 0 workloads →
     uuid2 ∈ collectServices order1 reg 0 workloads →
     fetched E obj uuid1 workload1 →
     fetched E obj uuid2 workload2 →
     getLabel (svc_Selector workload1) k = Some v1 →
     getLabel (svc_Selector workload2) k = Some v2 →
     v1 = v2) →
  PodController_sync E order1 reg key (Some obj)
  = PodController_sync E order2 reg key (Some obj).
Proof.
  intros Hvalid1 Hvalid2 Hws Hfetched Hagree.
  pose proof (collectServices_Permutation order1 order2 reg 0 workloads Hvalid1 Hvalid2)
    as Hperm.
  unfold PodController_sync.
  destruct (decide (pod_DeletionTimestamp obj ≠ None)); [done|].
  rewrite Hws.
  rewrite !merge_loop_fetched.
  - rewrite (overlay_Permutation
               (fetchedSelector E obj <$> collectServices order1 reg 0 workloads)
               (fetchedSelector E obj <$> collectServices order2 reg 0 workloads));
      [done|by rewrite Hperm|].
    intros m1 m2 k v1 v2 (uuid1 & -> & Hin1)%list_elem_of_fmap
      (uuid2 & -> & Hin2)%list_elem_of_fmap Hk1 Hk2.
    destruct (Hfetched uuid1 Hin1) as (w1 & name1 & Hname1 & Hget1).
    destruct (Hfetched uuid2 Hin2) as (w2 & name2 & Hname2 & Hget2).
    unfold fetchedSelector in Hk1, Hk2.
    rewrite Hname1, Hget1, getLabel_rangeLabels in Hk1.
    rewrite Hname2, Hget2, getLabel_rangeLabels in Hk2.
    apply (Hagree uuid1 uuid2 w1 w2 k v1 v2); try done.
    + by exists name1.
    + by exists name2.
  - apply Forall_forall. intros uuid Hin. apply Hfetched. by rewrite Hperm.
  - apply Forall_forall. intros uuid Hin. by apply Hfetched.
Qed.

(** A test for two label maps giving no key different values. *)
Lemma agree_by_test (m1 m2 : gmap string string) :
  forallb (λ kv, match m2 !! kv.1 with
                 | Some v2 => bool_decide (kv.2 = v2)
                 | None => true
                 end) (map_to_list m1) = true →
  ∀ k v1 v2, m1 !! k = Some v1 → m2 !! k = Some v2 → v1 = v2.
Proof.
  intros Htest k v1 v2 Hk1 Hk2. rewrite forallb_forall in Htest.
  specialize (Htest (k, v1)). cbn [fst snd] in Htest. rewrite Hk2 in Htest.
  apply (bool_decide_unpack _), Is_true_true, Htest, list_elem_of_In.
  by apply elem_of_map_to_list.
Qed.

Lemma pod_sync_independent_of_range_order_witness :
  PodController_sync (Cluster.env Concord.cluster) canonical_order
                     Conflict.registry "default/p" (Some Conflict.p)
  = PodController_sync (Cluster.env Concord.cluster) reversed_order
                       Conflict.registry "default/p" (Some Conflict.p).
Proof.
  assert (∀ uuid workload,
            uuid ∈ collectServices canonical_order Conflict.registry 0
                     [Conflict.wl; Conflict.wl'] →
            fetched (Cluster.env Concord.cluster) Conflict.p uuid workload →
            uuid = "default/green" ∧ workload = Concord.green
            ∨ uuid = "default/blue" ∧ workload = Conflict.blue) as Hcases.
  { intros uuid workload Hin (name & Hname & Hget).
    change (uuid ∈ ["default/green"; "default/blue"]) in Hin.
    apply elem_of_cons in Hin as [->|Hin];
      [|apply list_elem_of_singleton in Hin as ->];
      vm_compute in Hname; injection Hname as <-;
      vm_compute in Hget; injection Hget as <-; auto. }
  apply (pod_sync_independent_of_range_order
           (Cluster.env Concord.cluster) canonical_order reversed_order
           Conflict.registry "default/p" Conflict.p [Conflict.wl; Conflict.wl']).
  - apply canonical_order_valid.
  - apply reversed_order_valid.
  - vm_compute. reflexivity.
  - intros uuid Hin.
    change (uuid ∈ ["default/green"; "default/blue"]) in Hin.
    apply elem_of_cons in Hin as [->|Hin];
      [exists Concord.green, "green"
      |apply list_elem_of_singleton in Hin as ->; exists Conflict.blue, "blue"];
      split; vm_compute; reflexivity.
  - intros uuid1 uuid2 workload1 workload2 k v1 v2 Hin1 Hin2 Hf1 Hf2.
    rewrite <- !getLabel_rangeLabels.
    destruct (Hcases uuid1 workload1 Hin1 Hf1) as [[-> ->]|[-> ->]];
      destruct (Hcases uuid2 workload2 Hin2 Hf2) as [[-> ->]|[-> ->]];
      apply agree_by_test; vm_compute; reflexivity.
Defined.

(** * Further properties of the two handlers *)

(** ** The removal path of the service handler *)

Lemma Controller_sync_removed (E : Env) (reg : Registry) (key : string)
    (obj : option Service) :
  removed obj → Controller_sync E reg key obj = syncRemoved E reg key.
Proof.
  destruct obj as [o|]; [|done]. intros Hgone. unfold Controller_sync.
  by destruct (decide (svc_DeletionTimestamp o ≠ None)).
Qed.

(** X1: when the service is gone or deletion-marked, the handler does
    nothing if the registry has no entry for the key; if it has one, every
    pod the lister returns for the key's namespace and the service's selector
    term is enqueued and the entry is deleted; and if that listing fails, the
    error is returned and the entry stays. *)
Theorem removed_service_is_swept_and_forgotten
    (E : Env) (reg : Registry) (key : string) (obj : option Service) :
  removed obj →
  (reg !! key = None → Controller_sync E reg key obj = ([], Ok reg))
  ∧ (∀ namespace serviceName,
       is_Some (reg !! key) →
       Strings.Split_slash key !! 0 = Some namespace →
       Strings.Split_slash key !! 1 = Some serviceName →
       match podLister_List E namespace {[ getServiceSelector serviceName := "true" ]} with
       | Returned pods =>
           Controller_sync E reg key obj
           = ((λ pod, PodsEnqueue namespace (pod_Name pod)) <$> pods,
              Ok (delete key reg))
           ∧ delete key reg !! key = None
       | Failed err => Controller_sync E reg key obj = ([], Err err)
       end).
Proof.
  intros Hgone. rewrite (Controller_sync_removed E reg key obj Hgone).
  unfold syncRemoved. split.
  - intros Hnone. rewrite Hnone, bind_ret. by rewrite delete_id.
  - intros namespace serviceName [oldMap Hold] Hns Hname. rewrite Hold.
    destruct (podLister_List E namespace _) as [pods|err] eqn:Hlist.
    + rewrite (updateServiceWorkloadPods_enqueues E key namespace serviceName pods)
        by done.
      rewrite bind_Ok. cbn [mret W_ret fst snd]. rewrite app_nil_r.
      split; [done|]. apply lookup_delete_eq.
    + unfold updateServiceWorkloadPods, index.
      by rewrite Hns, bind_ret, Hname, bind_ret, Hlist.
Qed.

Lemma removed_service_is_swept_and_forgotten_witness :
  Controller_sync (Cluster.env (Cluster.cluster Shrink.start)) Shrink.registry
                  "default/svc1" None
  = ((λ pod, PodsEnqueue "default" (pod_Name pod)) <$> [Shrink.pa; Shrink.pb],
     Ok (delete "default/svc1" Shrink.registry))
  ∧ delete "default/svc1" Shrink.registry !! "default/svc1" = None.
Proof.
  exact (proj2 (removed_service_is_swept_and_forgotten
                  (Cluster.env (Cluster.cluster Shrink.start)) Shrink.registry
                  "default/svc1" None I)
               "default" "svc1"
               (ex_intro _ {[ "default/A" := true; "default/B" := true ]} eq_refl)
               eq_refl eq_refl).
Defined.

(** ** What the parts of a sync hand to the clients *)

Lemma trace_Forall_bind {A B} (P : Event → Prop) (m : W A) (f : A → W B) :
  Forall P m.1 → (∀ a, Forall P (f a).1) → Forall P (m ≫= f).1.
Proof.
  intros Hm Hf. rewrite trace_bind. apply Forall_app. split; [done|].
  destruct m.2; [apply Hf|constructor..].
Qed.

Lemma trace_Forall_forEach {A S} (P : Event → Prop) (f : S → A → W S)
    (l : list A) (s : S) :
  (∀ s a, Forall P (f s a).1) → Forall P (forEach f l s).1.
Proof.
  intros Hf. revert s. induction l as [|a l IH]; intros s; [constructor|].
  rewrite forEach_cons. by apply trace_Forall_bind.
Qed.

Lemma serviceUpdates_none (t : list Event) :
  Forall notServiceUpdate t → serviceUpdates t = [].
Proof.
  induction 1 as [|e t He _ IH]; [done|].
  destruct e; cbn in *; [done|exact IH..].
Qed.

Lemma serviceUpdates_app (t1 t2 : list Event) :
  serviceUpdates (t1 ++ t2) = serviceUpdates t1 ++ serviceUpdates t2.
Proof. apply omap_app. Qed.

Lemma serviceUpdates_bind_l {A B} (m : W A) (f : A → W B) :
  Forall notServiceUpdate m.1 →
  serviceUpdates (m ≫= f).1
  = match m.2 with Ok a => serviceUpdates (f a).1 | _ => [] end.
Proof.
  intros Hm. rewrite trace_bind, serviceUpdates_app, (serviceUpdates_none _ Hm).
  by destruct m.2.
Qed.

Lemma serviceUpdates_bind_r {A B} (m : W A) (f : A → W B) :
  (∀ a, Forall notServiceUpdate (f a).1) →
  serviceUpdates (m ≫= f).1 = serviceUpdates m.1.
Proof.
  intros Hf. rewrite trace_bind, serviceUpdates_app.
  destruct m.2; rewrite ?(serviceUpdates_none _ (Hf _)); apply app_nil_r.
Qed.

Lemma isWorkloadService_trace (E : Env) (obj : Service) :
  Forall notServiceUpdate (isWorkloadService E obj).1.
Proof.
  unfold isWorkloadService.
  destruct (svc_Annotations obj) as [annotations|]; [|constructor].
  destruct (annotations !! WorkloadAnnotation E) as [value|]; [|constructor].
  destruct (decide _); [constructor|]. destruct (decide _); [constructor|].
  destruct (json_Unmarshal E value) as [ids [e|]]; repeat constructor.
Qed.

Lemma index_trace {A} (P : Event → Prop) (l : list A) (i : nat) :
  Forall P (index l i).1.
Proof. unfold index. destruct (l !! i); constructor. Qed.

Lemma sweep_trace (E : Env) (key : string) :
  Forall notServiceUpdate (updateServiceWorkloadPods E key).1.
Proof.
  unfold updateServiceWorkloadPods.
  apply trace_Forall_bind; [apply index_trace|]. intros namespace.
  apply trace_Forall_bind; [apply index_trace|]. intros serviceName.
  destruct (podLister_List E namespace _) as [pods|err]; [|constructor].
  apply trace_Forall_forEach. intros _ pod. by repeat constructor.
Qed.

Lemma updatePods_trace (E : Env) (key : string) (obj : Service)
    (workloadIDs : list string) :
  Forall notServiceUpdate (updatePods E key obj workloadIDs).1.
Proof.
  unfold updatePods. apply trace_Forall_bind.
  - apply trace_Forall_forEach. intros [queue targets] workloadID.
    unfold resolveWorkload.
    destruct (GetByWorkloadID E workloadID) as [w|err]; [|by repeat constructor].
    destruct (podLister_List E _ _); constructor.
  - intros st. apply trace_Forall_bind; [|constructor].
    apply trace_Forall_forEach. intros [] pod. unfold updatePod.
    apply trace_Forall_bind.
    + unfold mergeSelector. destruct (pod_Labels pod); [constructor|].
      destruct (decide _); constructor.
    + intros toUpdate. by repeat constructor.
Qed.

(** The object [reconcilePods] works on once a nil selector has been
    replaced. *)
Lemma reconcilePods_eq (E : Env) (key : string) (obj : Service)
    (workloadIDs : list string) :
  reconcilePods E key obj workloadIDs
  = (match getLabel (svc_Selector obj) (getServiceSelector (svc_Name obj)) with
     | None => call_services_Update E (installed obj)
     | Some _ => mret tt
     end ≫= λ _,
     updatePods E key
       (match svc_Selector obj with
        | None => set_svc_Selector obj (Some ∅)
        | Some _ => obj
        end) workloadIDs).
Proof.
  unfold reconcilePods, installed. by destruct obj as [? ? ? ? [selector|]].
Qed.

(** X2: a sync of a participating service hands the service to the service
    client exactly when its selector lacks the term derived from its name,
    and then once, as a copy whose selector has the term with value [true]
    and every other pair as before; a sync of that copy hands nothing to the
    service client. *)
Theorem selector_term_is_installed_once
    (E : Env) (reg reg' : Registry) (key : string) (obj : Service)
    (t0 : list Event) (workloadIDs : list string) :
  svc_DeletionTimestamp obj = None →
  isWorkloadService E obj = (t0, Ok workloadIDs) →
  workloadIDs ≠ [] →
  serviceUpdates (Controller_sync E reg key (Some obj)).1
  = match getLabel (svc_Selector obj) (getServiceSelector (svc_Name obj)) with
    | Some _ => []
    | None => [installed obj]
    end
  ∧ getLabel (svc_Selector (installed obj)) (getServiceSelector (svc_Name obj))
    = Some "true"
  ∧ (∀ k, k ≠ getServiceSelector (svc_Name obj) →
          getLabel (svc_Selector (installed obj)) k = getLabel (svc_Selector obj) k)
  ∧ serviceUpdates (Controller_sync E reg' key (Some (installed obj))).1 = [].
Proof.
  intros Hlive Hids Hne.
  assert (∀ reg o,
            svc_DeletionTimestamp o = None →
            isWorkloadService E o = (t0, Ok workloadIDs) →
            serviceUpdates (Controller_sync E reg key (Some o)).1
            = match getLabel (svc_Selector o) (getServiceSelector (svc_Name o)) with
              | Some _ => []
              | None => [installed o]
              end) as Hsync.
  { intros r o Hl Hi. unfold Controller_sync.
    destruct (decide (svc_DeletionTimestamp o ≠ None)) as [|_]; [done|].
    rewrite serviceUpdates_bind_l by apply isWorkloadService_trace.
    rewrite Hi. cbn [snd].
    destruct (decide (length workloadIDs = 0)) as [Hlen|_].
    { by apply nil_length_inv in Hlen. }
    rewrite serviceUpdates_bind_r.
    - rewrite reconcilePods_eq, serviceUpdates_bind_r by (intros; apply updatePods_trace).
      by destruct (getLabel (svc_Selector o) _).
    - intros targets. apply trace_Forall_bind; [|constructor].
      destruct (match r !! key with Some _ => _ | None => _ end);
        [apply sweep_trace|constructor]. }
  assert (getLabel (svc_Selector (installed obj)) (getServiceSelector (svc_Name obj))
          = Some "true") as Hterm.
  { cbn. apply lookup_insert_eq. }
  split; [by apply Hsync|]. split; [done|]. split.
  - intros k Hk. cbn. rewrite lookup_insert_ne by done. apply getLabel_rangeLabels.
  - rewrite Hsync; [| done |].
    + change (svc_Name (installed obj)) with (svc_Name obj). by rewrite Hterm.
    + rewrite <- Hids. unfold isWorkloadService. done.
Qed.

Lemma selector_term_is_installed_once_witness :
  serviceUpdates (Controller_sync (Cluster.env (Cluster.cluster Scenario.start)) ∅
                                  "default/svc1" (Some Scenario.svc1)).1
  = match getLabel (svc_Selector Scenario.svc1)
                   (getServiceSelector (svc_Name Scenario.svc1)) with
    | Some _ => []
    | None => [installed Scenario.svc1]
    end.
Proof.
  apply (selector_term_is_installed_once
           (Cluster.env (Cluster.cluster Scenario.start)) ∅ ∅ "default/svc1"
           Scenario.svc1 [] ["wl1"]).
  - reflexivity.
  - vm_compute. reflexivity.
  - discriminate.
Defined.

(** X3: when the selector term has to be installed and the service client
    refuses the update, the sync returns the client's error right after that
    one call: no workload is resolved, no pod is listed, updated or enqueued,
    and nothing is stored. *)
Theorem failed_selector_install_aborts_sync
    (E : Env) (reg : Registry) (key : string) (obj : Service)
    (t0 : list Event) (workloadIDs : list string) (err : error) :
  svc_DeletionTimestamp obj = None →
  isWorkloadService E obj = (t0, Ok workloadIDs) →
  workloadIDs ≠ [] →
  getLabel (svc_Selector obj) (getServiceSelector (svc_Name obj)) = None →
  services_Update E (installed obj) = Some err →
  Controller_sync E reg key (Some obj)
  = (t0 ++ [ServicesUpdate (installed obj)], Err err).
Proof.
  intros Hlive Hids Hne Hterm Hup. unfold Controller_sync.
  destruct (decide (svc_DeletionTimestamp obj ≠ None)) as [|_]; [done|].
  rewrite Hids, bind_Ok.
  destruct (decide (length workloadIDs = 0)) as [Hlen|_].
  { by apply nil_length_inv in Hlen. }
  rewrite reconcilePods_eq, Hterm. unfold call_services_Update. by rewrite Hup.
Qed.

Lemma failed_selector_install_aborts_sync_witness :
  Controller_sync (Cluster.env Vanished.cluster) ∅ "default/svc1" (Some Scenario.svc1)
  = ([] ++ [ServicesUpdate (installed Scenario.svc1)], Err "service not found").
Proof.
  apply (failed_selector_install_aborts_sync
           (Cluster.env Vanished.cluster) ∅ "default/svc1" Scenario.svc1 [] ["wl1"]).
  - reflexivity.
  - vm_compute. reflexivity.
  - discriminate.
  - vm_compute. reflexivity.
  - vm_compute. reflexivity.
Defined.

(** ** The target set a sync stores *)

Lemma resolve_loop_targets (E : Env) (obj : Service) (workloadIDs : list string)
    (st st' : list Pod * gmap string bool) (t : list Event) :
  forEach (resolveWorkload E obj) workloadIDs st = (t, Ok st') →
  (∀ k, is_Some (st'.2 !! k)
        ↔ is_Some (st.2 !! k)
          ∨ ∃ workloadID w, workloadID ∈ workloadIDs
                            ∧ GetByWorkloadID E workloadID = Returned w
                            ∧ k = workloadUUID w)
  ∧ ((∀ k b, st.2 !! k = Some b → b = true) →
     ∀ k b, st'.2 !! k = Some b → b = true).
Proof.
  revert st t. induction workloadIDs as [|workloadID ids IH]; intros st t.
  - intros [= <- <-]. split; [|done]. intros k. split; [by left|].
    intros [?|(? & ? & []%elem_of_nil & _)]; done.
  - rewrite forEach_cons. intros Hloop.
    apply bind_inv_Ok in Hloop as (t1 & st1 & t2 & Hstep & Hrest & ->).
    destruct (IH _ _ Hrest) as [Hdom Htrue].
    assert (st1.2 = match GetByWorkloadID E workloadID with
                    | Returned w => <[ workloadUUID w := true ]> st.2
                    | Failed _ => st.2
                    end) as Hst1.
    { unfold resolveWorkload in Hstep. destruct st as [queue targets].
      destruct (GetByWorkloadID E workloadID) as [w|err].
      - destruct (podLister_List E _ _); [|done]. by injection Hstep as <- <-.
      - by injection Hstep as <- <-. }
    split.
    + intros k. rewrite Hdom, Hst1.
      destruct (GetByWorkloadID E workloadID) as [w|err] eqn:Hw.
      * rewrite lookup_insert_is_Some. split.
        -- intros [[<-|[_ ?]]|(id & w' & ? & ? & ?)]; [right|by left|right].
           ++ exists workloadID, w. split; [left|done].
           ++ exists id, w'. split; [by right|done].
        -- intros [?|(id & w' & [->|?]%elem_of_cons & Hw' & ->)].
           ++ left. destruct (decide (workloadUUID w = k)); auto.
           ++ left. left. congruence.
           ++ right. by exists id, w'.
      * split.
        -- intros [?|(id & w' & ? & ? & ?)]; [by left|right].
           exists id, w'. split; [by right|done].
        -- intros [?|(id & w' & [->|?]%elem_of_cons & Hw' & ->)];
             [by left|congruence|right]. by exists id, w'.
    + intros Hst. apply Htrue. rewrite Hst1.
      destruct (GetByWorkloadID E workloadID) as [w|err]; [|done].
      intros k b [[_ <-]|[_ ?]]%lookup_insert_Some; eauto.
Qed.

Lemma updatePods_inv_Ok (E : Env) (key : string) (obj : Service)
    (workloadIDs : list string) (t : list Event) (targets : gmap string bool) :
  updatePods E key obj workloadIDs = (t, Ok targets) →
  ∃ t1 t2 queue,
    forEach (resolveWorkload E obj) workloadIDs ([], ∅) = (t1, Ok (queue, targets))
    ∧ forEach (updatePod E obj) queue tt = (t2, Ok tt)
    ∧ t = t1 ++ t2.
Proof.
  unfold updatePods. intros Hup.
  apply bind_inv_Ok in Hup as (t1 & [queue targets'] & t2 & Hresolve & Hrest & ->).
  apply bind_inv_Ok in Hrest as (t2' & [] & t3 & Hloop & Hret & ->).
  injection Hret as <- <-. exists t1, t2', queue.
  by rewrite app_nil_r.
Qed.

Lemma reconcilePods_inv_Ok (E : Env) (key : string) (obj : Service)
    (workloadIDs : list string) (t : list Event) (targets : gmap string bool) :
  reconcilePods E key obj workloadIDs = (t, Ok targets) →
  ∃ t', updatePods E key
          (match svc_Selector obj with
           | None => set_svc_Selector obj (Some ∅)
           | Some _ => obj
           end) workloadIDs = (t', Ok targets).
Proof.
  rewrite reconcilePods_eq. intros Hrec.
  apply bind_inv_Ok in Hrec as (t1 & [] & t2 & _ & Hup & _). eauto.
Qed.

Lemma Controller_sync_inv_Ok (E : Env) (reg reg' : Registry) (key : string)
    (obj : Service) (t0 t : list Event) (workloadIDs : list string) :
  svc_DeletionTimestamp obj = None →
  isWorkloadService E obj = (t0, Ok workloadIDs) →
  workloadIDs ≠ [] →
  Controller_sync E reg key (Some obj) = (t, Ok reg') →
  ∃ t1 targets,
    reconcilePods E key obj workloadIDs = (t1, Ok targets)
    ∧ reg' = <[ key := targets ]> reg.
Proof.
  intros Hlive Hids Hne. unfold Controller_sync.
  destruct (decide (svc_DeletionTimestamp obj ≠ None)) as [|_]; [done|].
  rewrite Hids, bind_Ok.
  destruct (decide (length workloadIDs = 0)) as [Hlen|_].
  { by apply nil_length_inv in Hlen. }
  intros [= _ Hres].
  destruct (reconcilePods E key obj workloadIDs ≫= _) as [t' r] eqn:Hbody.
  cbn [snd] in Hres. subst r.
  apply bind_inv_Ok in Hbody as (t1 & targets & t2 & Hrec & Hrest & _).
  apply bind_inv_Ok in Hrest as (t3 & [] & t4 & _ & Hret & _).
  injection Hret as _ <-. by exists t1, targets.
Qed.

(** X4: when a sync of a participating service returns nil, the entry it has
    stored for the key holds exactly the keys [namespace/name] of the
    workloads its declared identifiers resolve to, each with value [true];
    an identifier that does not resolve contributes nothing. *)
Theorem stored_targets_are_the_resolved_workloads
    (E : Env) (reg reg' : Registry) (key : string) (obj : Service)
    (t0 t : list Event) (workloadIDs : list string) :
  svc_DeletionTimestamp obj = None →
  isWorkloadService E obj = (t0, Ok workloadIDs) →
  workloadIDs ≠ [] →
  Controller_sync E reg key (Some obj) = (t, Ok reg') →
  ∃ targets,
    reg' !! key = Some targets
    ∧ (∀ k, k ≠ key → reg' !! k = reg !! k)
    ∧ ∀ k b, targets !! k = Some b
             ↔ b = true
               ∧ ∃ workloadID w, workloadID ∈ workloadIDs
                                 ∧ GetByWorkloadID E workloadID = Returned w
                                 ∧ k = workloadUUID w.
Proof.
  intros Hlive Hids Hne Hsync.
  destruct (Controller_sync_inv_Ok E reg reg' key obj t0 t workloadIDs
              Hlive Hids Hne Hsync) as (t1 & targets & Hrec & ->).
  exists targets. split; [apply lookup_insert_eq|].
  split; [by intros k Hk; apply lookup_insert_ne|].
  apply reconcilePods_inv_Ok in Hrec as (t' & Hup).
  apply updatePods_inv_Ok in Hup as (t1' & t2' & queue & Hresolve & _ & _).
  destruct (resolve_loop_targets E _ _ _ _ _ Hresolve) as [Hdom Htrue].
  cbn [snd] in Hdom, Htrue. intros k b. split.
  - intros Hk. split.
    + apply (Htrue ltac:(intros ? ?; by rewrite lookup_empty) k b Hk).
    + destruct (proj1 (Hdom k) (mk_is_Some _ _ Hk)) as [[? Hempty]|?]; [|done].
      by rewrite lookup_empty in Hempty.
  - intros [-> Hres]. destruct (proj2 (Hdom k) (or_intror Hres)) as [b Hb].
    rewrite Hb. f_equal.
    apply (Htrue ltac:(intros ? ?; by rewrite lookup_empty) k b Hb).
Qed.

Lemma stored_targets_are_the_resolved_workloads_witness :
  ∃ targets,
    Scenario.after1.2.(Cluster.registry) !! "default/svc1" = Some targets
    ∧ (∀ k, k ≠ "default/svc1" →
            Scenario.after1.2.(Cluster.registry) !! k
            = (∅ : Registry) !! k)
    ∧ ∀ k b, targets !! k = Some b
             ↔ b = true
               ∧ ∃ workloadID w,
                   workloadID ∈ ["wl1"]
                   ∧ GetByWorkloadID (Cluster.env (Cluster.cluster Scenario.start))
                       workloadID = Returned w
                   ∧ k = workloadUUID w.
Proof.
  apply (stored_targets_are_the_resolved_workloads
           (Cluster.env (Cluster.cluster Scenario.start)) ∅
           (Cluster.registry Scenario.after1.2) "default/svc1" Scenario.svc1 []
           Scenario.after1.1.1 ["wl1"]).
  - reflexivity.
  - vm_compute. reflexivity.
  - discriminate.
  - vm_compute. reflexivity.
Defined.

(** ** Failures while the pods are reconciled *)

Lemma resolve_loop_succeeds (E : Env) (obj : Service) (workloadIDs : list string)
    (st : list Pod * gmap string bool) :
  Forall (resolvesOrSkips E) workloadIDs →
  ∃ t st', forEach (resolveWorkload E obj) workloadIDs st = (t, Ok st')
           ∧ calls t = [].
Proof.
  intros Hall. revert st.
  induction Hall as [|workloadID ids Hid _ IH]; intros st; [by exists [], st|].
  unfold resolvesOrSkips in Hid. rewrite forEach_cons.
  destruct (GetByWorkloadID E workloadID) as [w|err] eqn:Hw.
  - destruct Hid as [pods Hl].
    rewrite (resolveWorkload_resolved _ _ _ _ _ _ Hw Hl), bind_nil_Ok. apply IH.
  - rewrite (resolveWorkload_unresolved _ _ _ _ _ Hw), bind_Ok.
    destruct (IH st) as (t & st' & Heq & Hcalls). rewrite Heq. cbn [fst snd].
    eexists _, st'. split; [reflexivity|]. exact Hcalls.
Qed.

Lemma resolveWorkload_unlisted (E : Env) (obj : Service)
    (st : list Pod * gmap string bool) (workloadID : string) (w : Workload)
    (err : error) :
  GetByWorkloadID E workloadID = Returned w →
  podLister_List E (wl_Namespace w) (rangeLabels (wl_SelectorLabels w)) = Failed err →
  resolveWorkload E obj st workloadID
  = ([], Err (Wrapf err ("Failed to list pods for target workload ["
                         +:+ workloadID +:+ "]"))).
Proof. intros Hw Hl. unfold resolveWorkload. destruct st. by rewrite Hw, Hl. Qed.

(** X5: when the pods of a resolved workload cannot be listed, [updatePods]
    returns the lister's error, wrapped with the identifier, before it has
    handed any pod to the pod client, whatever the identifiers before and
    after it are. *)
Theorem failed_listing_aborts_before_any_update
    (E : Env) (key : string) (obj : Service) (before after : list string)
    (workloadID : string) (w : Workload) (err : error) :
  Forall (resolvesOrSkips E) before →
  GetByWorkloadID E workloadID = Returned w →
  podLister_List E (wl_Namespace w) (rangeLabels (wl_SelectorLabels w)) = Failed err →
  ∃ t, updatePods E key obj (before ++ workloadID :: after)
       = (t, Err (Wrapf err ("Failed to list pods for target workload ["
                             +:+ workloadID +:+ "]")))
       ∧ calls t = [].
Proof.
  intros Hbefore Hw Hl.
  destruct (resolve_loop_succeeds E obj before ([], ∅) Hbefore)
    as (t & [queue targets] & Hloop & Hcalls).
  exists t. split; [|done].
  unfold updatePods. rewrite forEach_app, Hloop, bind_Ok, forEach_cons.
  rewrite (resolveWorkload_unlisted _ _ _ _ _ _ Hw Hl), !bind_Err.
  cbn [fst snd]. by rewrite app_nil_r.
Qed.

Lemma failed_listing_aborts_before_any_update_witness :
  ∃ t, updatePods Unlisted.env "default/svc1" TwoPairs.svc1
         (["missing"] ++ "wl1" :: ["other"])
       = (t, Err (Wrapf "cache not synced"
                        ("Failed to list pods for target workload ["
                         +:+ "wl1" +:+ "]")))
       ∧ calls t = [].
Proof.
  apply (failed_listing_aborts_before_any_update
           Unlisted.env "default/svc1" TwoPairs.svc1 ["missing"] ["other"] "wl1"
           Scenario.wl1 "cache not synced").
  - constructor; [|constructor]. vm_compute. exact I.
  - vm_compute. reflexivity.
  - reflexivity.
Defined.

(** X6: when the pod client refuses the update of a queued pod, the pods
    queued before it have been updated, none of the pods queued after it is,
    and [updatePods] returns the client's error wrapped with the pod's name
    and the service's namespace and name. *)
Theorem failed_pod_update_stops_the_loop
    (E : Env) (key : string) (obj : Service) (workloadIDs : list string)
    (t1 : list Event) (targets : gmap string bool) (done rest : list Pod)
    (p : Pod) (err : error) :
  forEach (resolveWorkload E obj) workloadIDs ([], ∅)
  = (t1, Ok (done ++ p :: rest, targets)) →
  Forall (λ q, is_Some (pod_Labels q)
               ∧ pods_Update E (labelled (svc_Selector obj) q) = None) done →
  is_Some (pod_Labels p) →
  pods_Update E (labelled (svc_Selector obj) p) = Some err →
  updatePods E key obj workloadIDs
  = (t1 ++ (PodsUpdate ∘ labelled (svc_Selector obj) <$> done ++ [p]),
     Err (updateError obj p err)).
Proof.
  intros Hresolve Hdone [l Hl] Hup. unfold updatePods.
  rewrite Hresolve, bind_Ok. cbn [fst snd].
  rewrite forEach_app, (update_loop_succeeds E obj done Hdone), bind_Ok, forEach_cons.
  assert (updatePod E obj () p
          = ([PodsUpdate (labelled (svc_Selector obj) p)],
             Err (updateError obj p err))) as ->.
  { unfold updatePod, mergeSelector, labelled in *. rewrite Hl in *.
    rewrite bind_ret. unfold call_pods_Update.
    cbn [rangeLabels] in Hup. by rewrite Hup. }
  rewrite !bind_Err. cbn [fst snd]. by rewrite fmap_app.
Qed.

Lemma failed_pod_update_stops_the_loop_witness :
  updatePods Refused.env "default/svc1" Refused.svc1 ["wl1"]
  = ([] ++ (PodsUpdate ∘ labelled (svc_Selector Refused.svc1)
              <$> [] ++ [Scenario.p1]),
     Err (updateError Refused.svc1 Scenario.p1 "pod not found")).
Proof.
  apply (failed_pod_update_stops_the_loop
           Refused.env "default/svc1" Refused.svc1 ["wl1"] []
           {[ "default/wl1" := true ]} [] [Refused.p2] Scenario.p1 "pod not found").
  - vm_compute. reflexivity.
  - constructor.
  - eexists. reflexivity.
  - vm_compute. reflexivity.
Defined.

(** ** Which pods the service handler updates *)

Lemma missingPairs_lacks (selector : Labels) (p : Pod) :
  missingPairs selector p ≠ [] →
  ∃ k v, getLabel selector k = Some v ∧ getLabel (pod_Labels p) k ≠ Some v.
Proof.
  unfold missingPairs. intros Hne.
  destruct (filter _ _) as [|[k v] l] eqn:Hf; [done|].
  assert ((k, v) ∈ filter (λ kv : string * string,
                             getLabel (pod_Labels p) kv.1 ≠ Some kv.2)
                          (map_to_list (rangeLabels selector))) as Hin.
  { rewrite Hf. left. }
  apply list_elem_of_filter in Hin as [Hlack Hin].
  apply elem_of_map_to_list in Hin. exists k, v.
  by rewrite <- getLabel_rangeLabels.
Qed.

Lemma lacks_missingPairs (selector : Labels) (p : Pod) (k v : string) :
  getLabel selector k = Some v → getLabel (pod_Labels p) k ≠ Some v →
  (k, v) ∈ missingPairs selector p.
Proof.
  intros Hk Hlack. unfold missingPairs. apply list_elem_of_filter. split; [done|].
  apply elem_of_map_to_list. by rewrite getLabel_rangeLabels.
Qed.

(** ** A member pod without a label map *)

Lemma resolveWorkload_grows (E : Env) (obj : Service)
    (st st' : list Pod * gmap string bool) (workloadID : string) (t : list Event) :
  resolveWorkload E obj st workloadID = (t, Ok st') →
  st.1 ⊆ st'.1
  ∧ ∀ w pods, GetByWorkloadID E workloadID = Returned w →
              podLister_List E (wl_Namespace w) (rangeLabels (wl_SelectorLabels w))
              = Returned pods →
              ∀ p q, p ∈ pods → q ∈ queuePod (svc_Selector obj) p → q ∈ st'.1.
Proof.
  unfold resolveWorkload. destruct st as [queue targets].
  destruct (GetByWorkloadID E workloadID) as [w|err].
  - destruct (podLister_List E _ _) as [pods|] eqn:Hlist; [|done].
    intros [= <- <-]. cbn [fst]. split; [set_solver|].
    intros w' pods' [= <-] Hlist' p q Hp Hq. rewrite Hlist in Hlist'.
    injection Hlist' as <-. apply elem_of_app. right.
    apply list_elem_of_join. exists (queuePod (svc_Selector obj) p).
    split; [done|]. apply list_elem_of_fmap. by exists p.
  - intros [= <- <-]. split; [done|]. by intros w pods [=].
Qed.

Lemma resolve_loop_contains (E : Env) (obj : Service) (workloadIDs : list string)
    (st st' : list Pod * gmap string bool) (t : list Event) :
  forEach (resolveWorkload E obj) workloadIDs st = (t, Ok st') →
  st.1 ⊆ st'.1
  ∧ ∀ workloadID w pods,
      workloadID ∈ workloadIDs →
      GetByWorkloadID E workloadID = Returned w →
      podLister_List E (wl_Namespace w) (rangeLabels (wl_SelectorLabels w))
      = Returned pods →
      ∀ p q, p ∈ pods → q ∈ queuePod (svc_Selector obj) p → q ∈ st'.1.
Proof.
  revert st t. induction workloadIDs as [|workloadID ids IH]; intros st t.
  - intros [= <- <-]. split; [done|]. by intros ? ? ? ?%elem_of_nil.
  - rewrite forEach_cons. intros Hloop.
    apply bind_inv_Ok in Hloop as (t1 & st1 & t2 & Hstep & Hrest & ->).
    destruct (resolveWorkload_grows E obj st st1 workloadID t1 Hstep) as [Hsub1 Hnew].
    destruct (IH _ _ Hrest) as [Hsub Hlater].
    split; [intros x Hx; apply Hsub, Hsub1, Hx|].
    intros id w pods [->|Hin]%elem_of_cons Hw Hl p q Hp Hq.
    + apply Hsub. by eapply Hnew.
    + by eapply Hlater.
Qed.

Lemma update_loop_inv_Ok (E : Env) (obj : Service) (queue : list Pod)
    (t : list Event) :
  forEach (updatePod E obj) queue tt = (t, Ok tt) →
  ∀ p, p ∈ queue → pod_Labels p = None → rangeLabels (svc_Selector obj) = ∅.
Proof.
  revert t. induction queue as [|q queue IH]; intros t; [by intros _ p ?%elem_of_nil|].
  rewrite forEach_cons. intros Hloop.
  apply bind_inv_Ok in Hloop as (t1 & [] & t2 & Hstep & Hrest & ->).
  intros p [->|Hin]%elem_of_cons Hnil; [|by eapply IH].
  unfold updatePod, mergeSelector in Hstep. rewrite Hnil in Hstep.
  by destruct (decide (rangeLabels (svc_Selector obj) = ∅)).
Qed.

(** X8: [updatePods] writes the selector pairs into a copy of the pod's label
    map, and a nil map cannot be written.  So when the pods listed for a
    resolved target workload include a pod that is not deletion-marked and
    has no label map, and the service's selector has a pair, the sync does
    not return nil and stores nothing. *)
Theorem member_pod_without_label_map_fails_the_sync
    (E : Env) (reg : Registry) (key : string) (obj : Service) (t0 : list Event)
    (workloadIDs : list string) (workloadID : string) (w : Workload)
    (pods : list Pod) (p : Pod) :
  svc_DeletionTimestamp obj = None →
  isWorkloadService E obj = (t0, Ok workloadIDs) →
  workloadID ∈ workloadIDs →
  GetByWorkloadID E workloadID = Returned w →
  podLister_List E (wl_Namespace w) (rangeLabels (wl_SelectorLabels w))
  = Returned pods →
  p ∈ pods →
  pod_DeletionTimestamp p = None →
  pod_Labels p = None →
  rangeLabels (svc_Selector obj) ≠ ∅ →
  ∀ t reg', Controller_sync E reg key (Some obj) ≠ (t, Ok reg').
Proof.
  intros Hlive Hids Hid Hw Hl Hp Hplive Hnil Hsel t reg' Hsync.
  assert (workloadIDs ≠ []) as Hne by (intros ->; by apply elem_of_nil in Hid).
  destruct (Controller_sync_inv_Ok E reg reg' key obj t0 t workloadIDs
              Hlive Hids Hne Hsync) as (t1 & targets & Hrec & _).
  apply reconcilePods_inv_Ok in Hrec as (t' & Hup).
  set (obj' := match svc_Selector obj with
               | None => set_svc_Selector obj (Some ∅)
               | Some _ => obj
               end) in Hup.
  assert (rangeLabels (svc_Selector obj') = rangeLabels (svc_Selector obj)) as Hrange.
  { unfold obj'. by destruct (svc_Selector obj) eqn:Hs; rewrite ?Hs. }
  apply updatePods_inv_Ok in Hup as (t1' & t2' & queue & Hresolve & Hloop & _).
  destruct (resolve_loop_contains E obj' _ _ _ _ Hresolve) as [_ Hqueue].
  apply Hsel. rewrite <- Hrange.
  apply (update_loop_inv_Ok E obj' queue t2' Hloop p); [|done].
  apply (Hqueue workloadID w pods Hid Hw Hl p p Hp).
  unfold queuePod. rewrite Hplive. apply list_elem_of_fmap.
  destruct (map_choose (rangeLabels (svc_Selector obj'))) as (k & v & Hk).
  { by rewrite Hrange. }
  exists (k, v). split; [done|]. apply lacks_missingPairs.
  - by rewrite <- getLabel_rangeLabels.
  - by rewrite Hnil.
Qed.

Lemma member_pod_without_label_map_fails_the_sync_witness :
  Controller_sync (Cluster.env Bare.cluster) ∅ "default/svc1" (Some Bare.svc1)
  ≠ ([], Ok {[ "default/svc1" := {[ "default/wl0" := true ]} ]}).
Proof.
  refine (member_pod_without_label_map_fails_the_sync
            (Cluster.env Bare.cluster) ∅ "default/svc1" Bare.svc1 [] ["wl0"] "wl0"
            Bare.wl0 [Bare.p0] Bare.p0 _ _ _ _ _ _ _ _ _
            [] {[ "default/svc1" := {[ "default/wl0" := true ]} ]}).
  - reflexivity.
  - vm_compute. reflexivity.
  - left.
  - vm_compute. reflexivity.
  - vm_compute. reflexivity.
  - left.
  - reflexivity.
  - reflexivity.
  - apply (bool_decide_unpack _). vm_compute. exact I.
Defined.

(** In that cluster the sync panics on the write, before any call. *)
Example bare_pod_panics :
  Controller_sync (Cluster.env Bare.cluster) ∅ "default/svc1" (Some Bare.svc1)
  = ([], Panic "assignment to entry in nil map").
Proof. by vm_compute. Qed.

(** ** A service that has converged *)

Lemma queuePod_settled (selector : Labels) (p : Pod) :
  (pod_DeletionTimestamp p ≠ None
   ∨ ∀ k v, getLabel selector k = Some v → getLabel (pod_Labels p) k = Some v) →
  queuePod selector p = [].
Proof.
  intros [Hgone|Hall]; unfold queuePod.
  - by destruct (pod_DeletionTimestamp p).
  - destruct (pod_DeletionTimestamp p); [done|].
    destruct (missingPairs selector p) as [|[k v] l] eqn:Hmiss; [done|].
    assert ((k, v) ∈ missingPairs selector p) as Hin by (rewrite Hmiss; left).
    unfold missingPairs in Hin. apply list_elem_of_filter in Hin as [Hlack Hin].
    apply elem_of_map_to_list in Hin. rewrite getLabel_rangeLabels in Hin.
    by destruct Hlack; apply Hall.
Qed.

Lemma resolve_loop_settled (E : Env) (obj : Service) (workloadIDs : list string)
    (st : list Pod * gmap string bool) :
  Forall (settled E (svc_Selector obj)) workloadIDs →
  ∃ t targets,
    forEach (resolveWorkload E obj) workloadIDs st = (t, Ok (st.1, targets))
    ∧ calls t = [].
Proof.
  intros Hall. revert st.
  induction Hall as [|workloadID ids Hid _ IH]; intros [queue targets].
  { by exists [], targets. }
  unfold settled in Hid. rewrite forEach_cons.
  destruct (GetByWorkloadID E workloadID) as [w|err] eqn:Hw.
  - destruct Hid as (pods & Hl & Hpods).
    rewrite (resolveWorkload_resolved _ _ _ _ _ _ Hw Hl), bind_nil_Ok. cbn [fst snd].
    assert (mjoin (queuePod (svc_Selector obj) <$> pods) = []) as ->.
    { clear Hl. induction pods as [|p pods IHp]; [done|]. cbn.
      rewrite (queuePod_settled _ p) by (apply Hpods; left).
      apply IHp. intros q Hq. apply Hpods. by right. }
    rewrite app_nil_r. apply (IH (queue, _)).
  - rewrite (resolveWorkload_unresolved _ _ _ _ _ Hw), bind_Ok.
    destruct (IH (queue, targets)) as (t & targets' & Heq & Hcalls).
    rewrite Heq. cbn [fst snd]. eexists _, targets'. split; [reflexivity|].
    exact Hcalls.
Qed.

(** X9: a sync of a service that has converged is silent.  When the selector
    carries the term, every declared identifier either does not resolve or
    resolves to a workload whose listed pods are deletion-marked or carry
    every selector pair, and every workload key of the registry entry is the
    key of a workload that still resolves, the sync hands nothing to the
    service client or the pod client, enqueues nothing, and returns nil. *)
Theorem converged_service_sync_is_silent
    (E : Env) (reg : Registry) (key : string) (obj : Service) (t0 : list Event)
    (workloadIDs : list string) :
  svc_DeletionTimestamp obj = None →
  isWorkloadService E obj = (t0, Ok workloadIDs) →
  workloadIDs ≠ [] →
  is_Some (getLabel (svc_Selector obj) (getServiceSelector (svc_Name obj))) →
  Forall (settled E (svc_Selector obj)) workloadIDs →
  (∀ oldMap k, reg !! key = Some oldMap → is_Some (oldMap !! k) →
               ∃ workloadID w, workloadID ∈ workloadIDs
                               ∧ GetByWorkloadID E workloadID = Returned w
                               ∧ k = workloadUUID w) →
  ∃ t targets,
    Controller_sync E reg key (Some obj) = (t, Ok (<[ key := targets ]> reg))
    ∧ calls t = [].
Proof.
  intros Hlive Hids Hne [v Hterm] Hsettled Hold.
  destruct (svc_Selector obj) as [selector|] eqn:Hsel; [|done].
  destruct (resolve_loop_settled E obj workloadIDs ([], ∅))
    as (t1 & targets & Hresolve & Hcalls1).
  { by rewrite Hsel. }
  cbn [fst] in Hresolve.
  assert (calls t0 = []) as Hcalls0.
  { pose proof (isWorkloadService_decoded E obj) as Hdec.
    unfold isWorkloadService in Hids.
    destruct (svc_Annotations obj) as [annotations|]; [|by injection Hids as <- _].
    destruct (annotations !! WorkloadAnnotation E) as [value|];
      [|by injection Hids as <- _].
    destruct (decide (value = "")); [by injection Hids as <- _|].
    destruct (decide _); [by injection Hids as <- _|].
    destruct (json_Unmarshal E value) as [ids [e|]]; by injection Hids as <- _. }
  exists (t0 ++ t1), targets. split.
  - unfold Controller_sync.
    destruct (decide (svc_DeletionTimestamp obj ≠ None)) as [|_]; [done|].
    rewrite Hids, bind_Ok.
    destruct (decide (length workloadIDs = 0)) as [Hlen|_].
    { by apply nil_length_inv in Hlen. }
    rewrite reconcilePods_eq, Hsel. cbn [getLabel] in Hterm |- *.
    assert (updatePods E key obj workloadIDs = (t1, Ok targets)) as Hup.
    { unfold updatePods. rewrite Hresolve, bind_Ok. cbn [fst snd forEach].
      rewrite !bind_ret. cbn [mret W_ret fst snd]. by rewrite app_nil_r. }
    rewrite Hterm, bind_ret, Hup, bind_Ok.
    assert (match reg !! key with
            | Some oldMap => targetsShrank oldMap targets
            | None => false
            end = false) as ->.
    { destruct (reg !! key) as [oldMap|] eqn:Hreg; [|done].
      apply targetsShrank_false. intros k Hk.
      destruct (resolve_loop_targets E obj _ _ _ _ Hresolve) as [Hdom _].
      apply Hdom. right. by eapply Hold. }
    rewrite bind_ret. cbn [mret W_ret fst snd]. by rewrite !app_nil_r.
  - unfold calls in *. by rewrite List.filter_app, Hcalls0, Hcalls1.
Qed.

Lemma converged_service_sync_is_silent_witness :
  ∃ t targets,
    Controller_sync (Cluster.env (Cluster.cluster Scenario.after2.2))
                    (Cluster.registry Scenario.after2.2) "default/svc1"
                    (Some (set_svc_Selector Scenario.svc1
                             (Some {[ "workloadID_svc1" := "true" ]})))
    = (t, Ok (<[ "default/svc1" := targets ]> (Cluster.registry Scenario.after2.2)))
    ∧ calls t = [].
Proof.
  apply (converged_service_sync_is_silent
           (Cluster.env (Cluster.cluster Scenario.after2.2))
           (Cluster.registry Scenario.after2.2) "default/svc1"
           (set_svc_Selector Scenario.svc1 (Some {[ "workloadID_svc1" := "true" ]}))
           [] ["wl1"]).
  - reflexivity.
  - vm_compute. reflexivity.
  - discriminate.
  - exists "true". vm_compute. reflexivity.
  - constructor; [|constructor]. unfold settled.
    change (GetByWorkloadID (Cluster.env (Cluster.cluster Scenario.after2.2)) "wl1")
      with (Returned (A:=Workload) Scenario.wl1).
    exists [set_pod_Labels Scenario.p1
              (Some {[ "app" := "x"; "workloadID_svc1" := "true" ]})].
    split; [vm_compute; reflexivity|].
    intros p Hp. apply list_elem_of_singleton in Hp. subst p. right.
    intros k v Hk. cbn [set_svc_Selector svc_Selector getLabel] in Hk.
    apply lookup_singleton_Some in Hk as [<- <-]. vm_compute. reflexivity.
  - intros oldMap k Hreg Hk.
    change (Cluster.registry Scenario.after2.2)
      with ({[ "default/svc1" := {[ "default/wl1" := true ]} ]} : Registry) in Hreg.
    rewrite lookup_singleton_eq in Hreg. injection Hreg as <-.
    destruct Hk as [b Hk]. apply lookup_singleton_Some in Hk as [<- _].
    exists "wl1", Scenario.wl1. split; [left|]. split; reflexivity.
Defined.

(** ** Keys and their parts *)

Lemma noSlash_cons (c : ascii) (s : string) :
  noSlash (String c s) ↔ c ≠ "/"%char ∧ noSlash s.
Proof.
  unfold noSlash. cbn [String.list_ascii_of_string]. by rewrite Forall_cons.
Qed.

Lemma Split_slash_noSlash (s : string) :
  noSlash s → Strings.Split_slash s = [s].
Proof.
  induction s as [|c s IH]; [done|]. intros [Hc Hs]%noSlash_cons. cbn.
  destruct (Ascii.eqb_spec c "/"); [done|]. by rewrite IH.
Qed.

Lemma Split_slash_Sprintf (a b : string) :
  noSlash a →
  Strings.Split_slash (Strings.Sprintf_slash a b) = a :: Strings.Split_slash b.
Proof.
  intros Ha. unfold Strings.Sprintf_slash. induction a as [|c a IH]; [done|].
  apply noSlash_cons in Ha as [Hc Ha]. specialize (IH Ha).
  change (String c a +:+ "/" +:+ b) with (String c (a +:+ "/" +:+ b)).
  cbn [Strings.Split_slash]. destruct (Ascii.eqb_spec c "/"); [done|].
  by rewrite IH.
Qed.

(** X10: a key built as [namespace/name] from parts without a slash splits
    back into exactly these parts, so the sweep of the service handler lists
    the pods of that namespace that carry the term of that service name, and
    the pod handler fetches the service of that name. *)
Theorem key_splits_into_namespace_and_name
    (E : Env) (namespace name : string) :
  noSlash namespace → noSlash name →
  Strings.Split_slash (Strings.Sprintf_slash namespace name) = [namespace; name]
  ∧ updateServiceWorkloadPods E (Strings.Sprintf_slash namespace name)
    = match podLister_List E namespace {[ getServiceSelector name := "true" ]} with
      | Returned pods =>
          ((λ pod, PodsEnqueue namespace (pod_Name pod)) <$> pods, Ok tt)
      | Failed err => ([], Err err)
      end
  ∧ ∀ obj acc,
      mergeService E obj acc (Strings.Sprintf_slash namespace name)
      = match serviceLister_Get E (pod_Namespace obj) name with
        | Returned workload => ([], Ok (rangeLabels (svc_Selector workload) ∪ acc))
        | Failed err => ([], Err err)
        end.
Proof.
  intros Hns Hname.
  assert (Strings.Split_slash (Strings.Sprintf_slash namespace name)
          = [namespace; name]) as Hsplit.
  { by rewrite Split_slash_Sprintf, Split_slash_noSlash. }
  split; [done|]. split.
  - unfold updateServiceWorkloadPods, index. rewrite Hsplit. cbn [lookup list_lookup].
    rewrite !bind_ret.
    destruct (podLister_List E namespace _) as [pods|err]; [|done].
    apply enqueue_loop.
  - intros obj acc. by rewrite mergeService_eq, Hsplit.
Qed.

Lemma key_splits_into_namespace_and_name_witness :
  Strings.Split_slash (Strings.Sprintf_slash "default" "svc1") = ["default"; "svc1"].
Proof.
  apply (key_splits_into_namespace_and_name
           (Cluster.env (Cluster.cluster Scenario.start)) "default" "svc1").
  - apply (bool_decide_unpack _). vm_compute. exact I.
  - apply (bool_decide_unpack _). vm_compute. exact I.
Defined.

(** X11: a key without a slash has no second part: the sweep of the service
    handler and the fetch of the pod handler panic on it with an index out of
    range, before any call; a removal sync for such a key that has a registry
    entry panics and leaves the entry. *)
Theorem key_without_slash_panics
    (E : Env) (reg : Registry) (key : string) (obj : option Service) :
  noSlash key →
  updateServiceWorkloadPods E key = ([], Panic "index out of range")
  ∧ (∀ pod acc, mergeService E pod acc key = ([], Panic "index out of range"))
  ∧ (removed obj → is_Some (reg !! key) →
     Controller_sync E reg key obj = ([], Panic "index out of range")).
Proof.
  intros Hkey. pose proof (Split_slash_noSlash key Hkey) as Hsplit.
  assert (updateServiceWorkloadPods E key = ([], Panic "index out of range")) as Hsweep.
  { unfold updateServiceWorkloadPods, index. rewrite Hsplit. cbn [lookup list_lookup].
    by rewrite bind_ret. }
  split; [done|]. split.
  - intros pod acc. by rewrite mergeService_eq, Hsplit.
  - intros Hgone [oldMap Hold]. rewrite (Controller_sync_removed E reg key obj Hgone).
    unfold syncRemoved. by rewrite Hold, Hsweep.
Qed.

Lemma key_without_slash_panics_witness :
  updateServiceWorkloadPods (Cluster.env (Cluster.cluster Scenario.start)) "svc1"
  = ([], Panic "index out of range").
Proof.
  apply (key_without_slash_panics
           (Cluster.env (Cluster.cluster Scenario.start)) ∅ "svc1" None).
  apply (bool_decide_unpack _). vm_compute. exact I.
Defined.

(** ** What the pod handler writes *)

Lemma getServiceSelector_prefix (serviceName : string) :
  Strings.HasPrefix (getServiceSelector serviceName) WorkloadIDLabelPrefix = true.
Proof. done. Qed.

Lemma merge_loop_keys (E : Env) (obj : Pod) (keys : list string)
    (acc desired : gmap string string) (t : list Event) :
  forEach (mergeService E obj) keys acc = (t, Ok desired) →
  (∀ k, is_Some (acc !! k) → is_Some (desired !! k))
  ∧ ∀ uuid workload k,
      uuid ∈ keys → fetched E obj uuid workload →
      is_Some (getLabel (svc_Selector workload) k) → is_Some (desired !! k).
Proof.
  revert acc t. induction keys as [|uuid keys IH]; intros acc t.
  - intros [= <- <-]. split; [done|]. by intros ? ? ? ?%elem_of_nil.
  - rewrite forEach_cons, mergeService_eq. intros Hloop.
    destruct (Strings.Split_slash uuid !! 1) as [name|] eqn:Hname; [|done].
    destruct (serviceLister_Get E (pod_Namespace obj) name) as [workload|err] eqn:Hget;
      [|done].
    rewrite bind_nil_Ok in Hloop. destruct (IH _ _ Hloop) as [Hacc Hlater]. split.
    + intros k Hk. apply Hacc. rewrite lookup_union_is_Some. by right.
    + intros uuid' workload' k [->|Hin]%elem_of_cons (name' & Hname' & Hget') Hk.
      * apply Hacc. rewrite lookup_union_is_Some. left.
        rewrite getLabel_rangeLabels. congruence.
      * eapply Hlater; [done| |done]. by exists name'.
Qed.

(** X12: the labels the pod handler writes.  A label whose key starts with
    [workloadID], the term of any service among them, is written only if
    the selector of a service fetched for a collected key has that pair, so a
    stale term is dropped; and every key of the selector of every fetched
    service is present in the written labels. *)
Theorem pod_sync_writes_terms_of_dependent_services_only
    (E : Env) (order : nat → RangeOrder) (reg : Registry) (key : string)
    (obj p' : Pod) :
  PodsUpdate p' ∈ (PodController_sync E order reg key (Some obj)).1 →
  ∃ workloads,
    GetWorkloadsMatchingLabels E (pod_Namespace obj) (pod_Labels obj) = Returned workloads
    ∧ (∀ k v,
         Strings.HasPrefix k WorkloadIDLabelPrefix = true →
         getLabel (pod_Labels p') k = Some v →
         ∃ uuid workload,
           uuid ∈ collectServices order reg 0 workloads
           ∧ fetched E obj uuid workload
           ∧ getLabel (svc_Selector workload) k = Some v)
    ∧ (∀ serviceName v,
         getLabel (pod_Labels p') (getServiceSelector serviceName) = Some v →
         ∃ uuid workload,
           uuid ∈ collectServices order reg 0 workloads
           ∧ fetched E obj uuid workload
           ∧ getLabel (svc_Selector workload) (getServiceSelector serviceName) = Some v)
    ∧ (∀ uuid workload k,
         uuid ∈ collectServices order reg 0 workloads →
         fetched E obj uuid workload →
         is_Some (getLabel (svc_Selector workload) k) →
         is_Some (getLabel (pod_Labels p') k)).
Proof.
  intros Hin.
  apply PodController_sync_pod_updates in Hin as (workloads & desired & Hws & Hloop & ->).
  exists workloads. split; [done|].
  assert (∀ k v,
            Strings.HasPrefix k WorkloadIDLabelPrefix = true →
            recomputeLabels (pod_Labels obj) desired !! k = Some v →
            ∃ uuid workload,
              uuid ∈ collectServices order reg 0 workloads
              ∧ fetched E obj uuid workload
              ∧ getLabel (svc_Selector workload) k = Some v) as Hterms.
  { intros k v Hprefix. rewrite lookup_recomputeLabels, Hprefix.
    destruct (desired !! k) as [v'|] eqn:Hk; [|done]. intros [= ->].
    destruct (merge_loop_spec E obj _ _ _ _ Hloop k v Hk)
      as [Hempty|(uuid & name & workload & Huuid & Hname & Hget & Hsel)].
    - by rewrite lookup_empty in Hempty.
    - exists uuid, workload. split; [done|]. split; [by exists name|done]. }
  split; [exact Hterms|]. split.
  - intros serviceName v. apply Hterms, getServiceSelector_prefix.
  - intros uuid workload k Huuid Hfetched Hk. cbn [set_pod_Labels pod_Labels getLabel].
    destruct (merge_loop_keys E obj _ _ _ _ Hloop) as [_ Hkeys].
    destruct (Hkeys uuid workload k Huuid Hfetched Hk) as [v Hv].
    rewrite lookup_recomputeLabels, Hv. eauto.
Qed.

Lemma pod_sync_writes_terms_of_dependent_services_only_witness :
  ∃ workloads,
    GetWorkloadsMatchingLabels (Cluster.env (Cluster.cluster Shrink.afterService.2))
      (pod_Namespace Shrink.pb) (pod_Labels Shrink.pb) = Returned workloads
    ∧ (∀ k v,
         Strings.HasPrefix k WorkloadIDLabelPrefix = true →
         getLabel (pod_Labels (set_pod_Labels Shrink.pb (Some {[ "app" := "b" ]}))) k
         = Some v →
         ∃ uuid workload,
           uuid ∈ collectServices canonical_order
                    (Cluster.registry Shrink.afterService.2) 0 workloads
           ∧ fetched (Cluster.env (Cluster.cluster Shrink.afterService.2))
                     Shrink.pb uuid workload
           ∧ getLabel (svc_Selector workload) k = Some v)
    ∧ (∀ serviceName v,
         getLabel (pod_Labels (set_pod_Labels Shrink.pb (Some {[ "app" := "b" ]})))
                  (getServiceSelector serviceName) = Some v →
         ∃ uuid workload,
           uuid ∈ collectServices canonical_order
                    (Cluster.registry Shrink.afterService.2) 0 workloads
           ∧ fetched (Cluster.env (Cluster.cluster Shrink.afterService.2))
                     Shrink.pb uuid workload
           ∧ getLabel (svc_Selector workload) (getServiceSelector serviceName) = Some v)
    ∧ (∀ uuid workload k,
         uuid ∈ collectServices canonical_order
                  (Cluster.registry Shrink.afterService.2) 0 workloads →
         fetched (Cluster.env (Cluster.cluster Shrink.afterService.2))
                 Shrink.pb uuid workload →
         is_Some (getLabel (svc_Selector workload) k) →
         is_Some (getLabel (pod_Labels (set_pod_Labels Shrink.pb
                                          (Some {[ "app" := "b" ]}))) k)).
Proof.
  apply (pod_sync_writes_terms_of_dependent_services_only
           (Cluster.env (Cluster.cluster Shrink.afterService.2)) canonical_order
           (Cluster.registry Shrink.afterService.2) "default/pb" Shrink.pb
           (set_pod_Labels Shrink.pb (Some {[ "app" := "b" ]}))).
  apply (bool_decide_unpack _). vm_compute. exact I.
Defined.

Lemma forEach_ext {A S} (f g : S → A → W S) (l : list A) (s : S) :
  (∀ s a, f s a = g s a) → forEach f l s = forEach g l s.
Proof.
  intros Hfg. revert s. induction l as [|a l IH]; intros s; [done|].
  rewrite !forEach_cons, Hfg. by apply bind_ext.
Qed.

(** X13: the pod handler does not write twice.  When it has handed a pod to
    the pod client and is run again on the pod as written, with the registry,
    the services and the enumeration unchanged and the workload directory
    matching the same workloads, it hands nothing to the pod client and
    returns nil. *)
Theorem pod_sync_second_run_is_silent
    (E : Env) (order : nat → RangeOrder) (reg : Registry) (key : string)
    (obj p' : Pod) :
  PodsUpdate p' ∈ (PodController_sync E order reg key (Some obj)).1 →
  GetWorkloadsMatchingLabels E (pod_Namespace p') (pod_Labels p')
  = GetWorkloadsMatchingLabels E (pod_Namespace obj) (pod_Labels obj) →
  PodController_sync E order reg key (Some p') = ([], Ok tt).
Proof.
  intros Hin Hsame.
  assert (pod_DeletionTimestamp obj = None) as Hlive.
  { unfold PodController_sync in Hin.
    destruct (decide (pod_DeletionTimestamp obj ≠ None)) as [|Hl];
      [by apply elem_of_nil in Hin|].
    destruct (pod_DeletionTimestamp obj); [by destruct Hl|done]. }
  apply PodController_sync_pod_updates in Hin as (workloads & desired & Hws & Hloop & ->).
  set (labels := recomputeLabels (pod_Labels obj) desired) in *.
  unfold PodController_sync.
  change (pod_DeletionTimestamp (set_pod_Labels obj (Some labels)))
    with (pod_DeletionTimestamp obj).
  change (pod_Labels (set_pod_Labels obj (Some labels))) with (Some labels) in *.
  destruct (decide (pod_DeletionTimestamp obj ≠ None)) as [|_]; [done|].
  rewrite Hsame, Hws.
  rewrite (forEach_ext (mergeService E (set_pod_Labels obj (Some labels)))
                       (mergeService E obj))
    by (intros; by rewrite !mergeService_eq).
  rewrite Hloop, bind_nil_Ok. subst labels.
  rewrite !recomputeLabels_idempotent.
  by destruct (decide (Some (recomputeLabels (pod_Labels obj) desired) = Some _)).
Qed.

Lemma pod_sync_second_run_is_silent_witness :
  PodController_sync (Cluster.env (Cluster.cluster Shrink.afterService.2))
                     canonical_order (Cluster.registry Shrink.afterService.2)
                     "default/pb"
                     (Some (set_pod_Labels Shrink.pb (Some {[ "app" := "b" ]})))
  = ([], Ok tt).
Proof.
  apply (pod_sync_second_run_is_silent
           (Cluster.env (Cluster.cluster Shrink.afterService.2)) canonical_order
           (Cluster.registry Shrink.afterService.2) "default/pb" Shrink.pb
           (set_pod_Labels Shrink.pb (Some {[ "app" := "b" ]}))).
  - apply (bool_decide_unpack _). vm_compute. exact I.
  - vm_compute. reflexivity.
Defined.

(** * The sync when identifiers fail, the sweep, and the pods a sync updates *)

(** ** C8: the sync when an identifier does not resolve *)







(** ** C4: the sweep and the shrink scenario *)

(** The keys the pod handler collects are keys of registry entries that hold
    the key of a workload of the pod. *)
Lemma elem_of_collectServices (order : nat → RangeOrder) (reg : Registry)
    (i : nat) (workloads : list Workload) (uuid : string) :
  (∀ j, valid_order (order j)) →
  uuid ∈ collectServices order reg i workloads →
  ∃ m d, reg !! uuid = Some m ∧ d ∈ workloads ∧ is_Some (m !! workloadUUID d).
Proof.
  intros Hvalid. revert i. induction workloads as [|d workloads IH]; intros i.
  { by intros ?%elem_of_nil. }
  cbn [collectServices]. rewrite elem_of_app. intros [Hin|Hin].
  - apply list_elem_of_fmap in Hin as ([k m] & -> & Hin).
    apply list_elem_of_filter in Hin as [Hd Hin].
    rewrite (Hvalid i reg) in Hin. apply elem_of_map_to_list in Hin.
    exists m, d. split; [done|]. split; [left|done].
  - destruct (IH _ Hin) as (m & d' & ? & ? & ?). exists m, d'.
    split; [done|]. split; [by right|done].
Qed.

(** The sync of a participating service whose old entry holds a key the new
    target set lacks. *)
Lemma Controller_sync_sweeps (E : Env) (reg : Registry) (key : string)
    (obj : Service) (t0 t1 : list Event) (workloadIDs : list string)
    (targetWorkloadUUIDs oldMap : gmap string bool)
    (namespace serviceName : string) (pods : list Pod) :
  svc_DeletionTimestamp obj = None →
  isWorkloadService E obj = (t0, Ok workloadIDs) →
  workloadIDs ≠ [] →
  reconcilePods E key obj workloadIDs = (t1, Ok targetWorkloadUUIDs) →
  reg !! key = Some oldMap →
  (∃ k, is_Some (oldMap !! k) ∧ targetWorkloadUUIDs !! k = None) →
  Strings.Split_slash key !! 0 = Some namespace →
  Strings.Split_slash key !! 1 = Some serviceName →
  podLister_List E namespace {[ getServiceSelector serviceName := "true" ]}
  = Returned pods →
  Controller_sync E reg key (Some obj)
  = (t0 ++ t1 ++ ((λ pod, PodsEnqueue namespace (pod_Name pod)) <$> pods),
     Ok (<[ key := targetWorkloadUUIDs ]> reg)).
Proof.
  intros Hlive Hids Hne Hrec Hreg Hshrank Hns Hname Hlist.
  unfold Controller_sync.
  destruct (decide (svc_DeletionTimestamp obj ≠ None)) as [|_]; [done|].
  rewrite Hids, bind_Ok.
  destruct (decide (length workloadIDs = 0)) as [Hlen|_].
  { by apply nil_length_inv in Hlen. }
  rewrite Hrec, bind_Ok, Hreg, (proj2 (targetsShrank_true _ _) Hshrank).
  rewrite (updateServiceWorkloadPods_enqueues E key namespace serviceName pods)
    by done.
  rewrite bind_Ok. cbn [mret W_ret fst snd]. by rewrite app_nil_r.
Qed.

(** The target set [reconcilePods] returns holds only keys of workloads the
    declared identifiers resolve to. *)
Lemma reconcilePods_targets (E : Env) (key : string) (obj : Service)
    (workloadIDs : list string) (t : list Event) (targets : gmap string bool)
    (k : string) :
  reconcilePods E key obj workloadIDs = (t, Ok targets) →
  is_Some (targets !! k) →
  ∃ workloadID w, workloadID ∈ workloadIDs
                  ∧ GetByWorkloadID E workloadID = Returned w
                  ∧ k = workloadUUID w.
Proof.
  intros (t' & Hup)%reconcilePods_inv_Ok Hk.
  apply updatePods_inv_Ok in Hup as (t1 & t2 & queue & Hloop & _ & _).
  destruct (resolve_loop_targets _ _ _ _ _ _ Hloop) as [Hdom _].
  apply Hdom in Hk as [Hk|?]; [|done]. cbn [snd] in Hk.
  rewrite lookup_empty in Hk. by destruct Hk.
Qed.

(** The pod handler on a labelled pod none of whose dependent services
    carries the term: the pod is handed to the pod client without it. *)
Lemma pod_sync_drops_term (E : Env) (order : nat → RangeOrder) (reg : Registry)
    (podKey term : string) (P : Pod) (workloads : list Workload)
    (l : gmap string string) :
  Strings.HasPrefix term WorkloadIDLabelPrefix = true →
  pod_DeletionTimestamp P = None →
  pod_Labels P = Some l → is_Some (l !! term) →
  GetWorkloadsMatchingLabels E (pod_Namespace P) (pod_Labels P) = Returned workloads →
  Forall (λ uuid, ∃ s, fetched E P uuid s ∧ getLabel (svc_Selector s) term = None)
         (collectServices order reg 0 workloads) →
  ∃ labels,
    PodController_sync E order reg podKey (Some P)
    = ([PodsUpdate (set_pod_Labels P (Some labels))],
       match pods_Update E (set_pod_Labels P (Some labels)) with
       | None => Ok tt
       | Some err => Err err
       end)
    ∧ labels !! term = None.
Proof.
  intros Hprefix Hlive Hl Hterm Hws Hkeys.
  set (keys := collectServices order reg 0 workloads) in *.
  assert (Forall (λ uuid, ∃ workload, fetched E P uuid workload) keys) as Hfetched.
  { eapply Forall_impl; [exact Hkeys|]. intros uuid (s & ? & _). by exists s. }
  pose proof (merge_loop_fetched E P keys ∅ Hfetched) as Hloop.
  set (desired := foldl overlay ∅ (fetchedSelector E P <$> keys)) in *.
  assert (desired !! term = None) as Hdesired.
  { destruct (desired !! term) as [v|] eqn:Hv; [|done].
    destruct (merge_loop_spec E P keys ∅ desired [] Hloop term v Hv)
      as [Hempty|(uuid & name & workload & Hin & Hname & Hget & Hsel)].
    { by rewrite lookup_empty in Hempty. }
    eapply Forall_forall in Hkeys as (s & (name' & Hname' & Hget') & Hnone); [|done].
    congruence. }
  exists (recomputeLabels (pod_Labels P) desired). split.
  - unfold PodController_sync.
    destruct (decide (pod_DeletionTimestamp P ≠ None)) as [|_]; [done|].
    rewrite Hws. fold keys. rewrite Hloop, bind_nil_Ok.
    destruct (decide (pod_Labels P = Some _)) as [Heq|_]; [|done].
    pose proof (recomputeLabels_drops (pod_Labels P) desired term Hprefix Hdesired)
      as Hdrop.
    rewrite Hl in Heq, Hdrop. injection Heq as Heq.
    rewrite <- Heq in Hdrop. rewrite Hdrop in Hterm. by destruct Hterm.
  - by apply recomputeLabels_drops.
Qed.

(** C4: when the entry the registry holds for the service has a workload key
    that the newly computed target set lacks, the sync, after reconciling the
    pods, enqueues every pod the lister returns for the service's namespace
    and selector term, writes no label in doing so, and stores the new set.

    The shrink scenario, for any service, workload and pod: the service held
    the key of workload [wB] and its declared identifiers now resolve to no
    workload of pod [pod], which belongs to [wB], is live, carries the term
    of the service and is returned by the sweep's listing.  Then the sync of
    the service enqueues [pod] and stores the new set, and the sync of [pod]
    that follows, on the registry the first left, hands [pod] to the pod
    client with labels that lack the term of the service, provided the other
    services that depend on a workload of [pod] can be fetched and do not
    carry that term themselves.

    On the concrete cluster of the scenario, one sync of [svc1] followed by
    one sync of [pb] leaves [pb] without the label of [svc1]. *)
Theorem shrunk_targets_trigger_sweep :
  (∀ (E : Env) (reg : Registry) (key : string) (obj : Service)
     (t0 t1 : list Event) (workloadIDs : list string)
     (targetWorkloadUUIDs oldMap : gmap string bool)
     (namespace serviceName : string) (pods : list Pod),
     svc_DeletionTimestamp obj = None →
     isWorkloadService E obj = (t0, Ok workloadIDs) →
     workloadIDs ≠ [] →
     reconcilePods E key obj workloadIDs = (t1, Ok targetWorkloadUUIDs) →
     reg !! key = Some oldMap →
     (∃ k, is_Some (oldMap !! k) ∧ targetWorkloadUUIDs !! k = None) →
     Strings.Split_slash key !! 0 = Some namespace →
     Strings.Split_slash key !! 1 = Some serviceName →
     podLister_List E namespace {[ getServiceSelector serviceName := "true" ]}
     = Returned pods →
     Controller_sync E reg key (Some obj)
     = (t0 ++ t1 ++ ((λ pod, PodsEnqueue namespace (pod_Name pod)) <$> pods),
        Ok (<[ key := targetWorkloadUUIDs ]> reg)))
  ∧ (∀ (E E' : Env) (order : nat → RangeOrder) (reg : Registry) (obj : Service)
       (wB : Workload) (pod : Pod) (t0 t1 : list Event)
       (workloadIDs : list string) (targetWorkloadUUIDs oldMap : gmap string bool)
       (swept : list Pod) (workloads : list Workload) (l : gmap string string)
       (podKey : string),
       noSlash (svc_Namespace obj) → noSlash (svc_Name obj) →
       svc_DeletionTimestamp obj = None →
       isWorkloadService E obj = (t0, Ok workloadIDs) →
       workloadIDs ≠ [] →
       reconcilePods E (serviceUUID obj) obj workloadIDs
       = (t1, Ok targetWorkloadUUIDs) →
       reg !! serviceUUID obj = Some oldMap →
       is_Some (oldMap !! workloadUUID wB) →
       (∀ workloadID w d,
          workloadID ∈ workloadIDs → GetByWorkloadID E workloadID = Returned w →
          d ∈ workloads → workloadUUID w ≠ workloadUUID d) →
       podLister_List E (svc_Namespace obj)
         {[ getServiceSelector (svc_Name obj) := "true" ]} = Returned swept →
       pod ∈ swept →
       pod_DeletionTimestamp pod = None →
       pod_Labels pod = Some l →
       is_Some (l !! getServiceSelector (svc_Name obj)) →
       GetWorkloadsMatchingLabels E' (pod_Namespace pod) (pod_Labels pod)
       = Returned workloads →
       wB ∈ workloads →
       (∀ i, valid_order (order i)) →
       (∀ k m d,
          k ≠ serviceUUID obj → reg !! k = Some m → d ∈ workloads →
          is_Some (m !! workloadUUID d) →
          ∃ s, fetched E' pod k s
               ∧ getLabel (svc_Selector s) (getServiceSelector (svc_Name obj)) = None) →
       ∃ t labels,
         Controller_sync E reg (serviceUUID obj) (Some obj)
         = (t, Ok (<[ serviceUUID obj := targetWorkloadUUIDs ]> reg))
         ∧ PodsEnqueue (svc_Namespace obj) (pod_Name pod) ∈ t
         ∧ podUpdates t = podUpdates t1
         ∧ targetWorkloadUUIDs !! workloadUUID wB = None
         ∧ PodController_sync E' order (<[ serviceUUID obj := targetWorkloadUUIDs ]> reg)
                              podKey (Some pod)
           = ([PodsUpdate (set_pod_Labels pod (Some labels))],
              match pods_Update E' (set_pod_Labels pod (Some labels)) with
              | None => Ok tt
              | Some err => Err err
              end)
         ∧ labels !! getServiceSelector (svc_Name obj) = None)
  ∧ (Shrink.afterService.1
     = ([PodsEnqueue "default" "pa"; PodsEnqueue "default" "pb"],
        Ok {[ "default/svc1" := {[ "default/A" := true ]} ]})
     ∧ Shrink.afterPod.1
       = ([PodsUpdate (set_pod_Labels Shrink.pb (Some {[ "app" := "b" ]}))], Ok tt)
     ∧ storedLabels Shrink.afterPod.2 "default/pb" = Some (Some {[ "app" := "b" ]})).
Proof.
  split; [|split; [|repeat split; by vm_compute]].
  { intros. by eapply Controller_sync_sweeps. }
  intros E E' order reg obj wB pod t0 t1 workloadIDs targets oldMap swept workloads
    l podKey Hns Hname Hlive Hids Hne Hrec Hreg Hold Hgone Hlist Hswept
    Hpodlive Hl Hterm Hws HwB Hvalid Hothers.
  assert (∀ d, d ∈ workloads → targets !! workloadUUID d = None) as Hdropped.
  { intros d Hd. destruct (targets !! workloadUUID d) as [b|] eqn:Hk; [|done].
    destruct (reconcilePods_targets E _ obj workloadIDs t1 targets (workloadUUID d) Hrec)
      as (workloadID & w & Hin & Hw & Heq); [by eexists|].
    by destruct (Hgone workloadID w d). }
  assert (Strings.Split_slash (serviceUUID obj)
          = [svc_Namespace obj; svc_Name obj]) as Hsplit.
  { unfold serviceUUID. by rewrite Split_slash_Sprintf, Split_slash_noSlash. }
  exists (t0 ++ t1 ++ ((λ p, PodsEnqueue (svc_Namespace obj) (pod_Name p)) <$> swept)).
  destruct (pod_sync_drops_term E' order (<[ serviceUUID obj := targets ]> reg) podKey
              (getServiceSelector (svc_Name obj)) pod workloads l)
    as (labels & Hsync & Hlabels);
    [apply getServiceSelector_prefix|done..| |].
  { apply Forall_forall. intros uuid Hin.
    apply elem_of_collectServices in Hin as (m & d & Hm & Hd & Hmd); [|done].
    destruct (decide (uuid = serviceUUID obj)) as [->|Hother].
    - rewrite lookup_insert_eq in Hm. injection Hm as <-.
      rewrite (Hdropped d Hd) in Hmd. by destruct Hmd.
    - rewrite lookup_insert_ne in Hm by done. by eapply Hothers. }
  exists labels. split; [|split; [|split; [|split; [|split]]]]; [|..|done|done].
  - eapply Controller_sync_sweeps; [done..| | | |done].
    + exists (workloadUUID wB). split; [done|]. by apply Hdropped.
    + by rewrite Hsplit.
    + by rewrite Hsplit.
  - rewrite !elem_of_app. right. right. apply list_elem_of_fmap. by exists pod.
  - rewrite !podUpdates_app.
    pose proof (podUpdates_isWorkloadService E obj) as Ht0.
    rewrite Hids in Ht0. cbn [fst] in Ht0. rewrite Ht0. cbn [app].
    assert (podUpdates ((λ p, PodsEnqueue (svc_Namespace obj) (pod_Name p)) <$> swept)
            = []) as ->; [|by rewrite app_nil_r].
    clear. by induction swept.
  - by apply Hdropped.
Qed.

Lemma shrunk_targets_trigger_sweep_witness :
  Controller_sync (Cluster.env (Cluster.cluster Shrink.start)) Shrink.registry
                  "default/svc1" (Some Shrink.svc1)
  = ([] ++ [] ++ ((λ pod, PodsEnqueue "default" (pod_Name pod)) <$> [Shrink.pa; Shrink.pb]),
     Ok (<[ "default/svc1" := {[ "default/A" := true ]} ]> Shrink.registry))
  ∧ ∃ t labels,
      Controller_sync (Cluster.env (Cluster.cluster Shrink.start)) Shrink.registry
                      (serviceUUID Shrink.svc1) (Some Shrink.svc1)
      = (t, Ok (<[ serviceUUID Shrink.svc1 := {[ "default/A" := true ]} ]>
                  Shrink.registry))
      ∧ PodsEnqueue (svc_Namespace Shrink.svc1) (pod_Name Shrink.pb) ∈ t
      ∧ podUpdates t = podUpdates []
      ∧ ({[ "default/A" := true ]} : gmap string bool) !! workloadUUID Shrink.B = None
      ∧ PodController_sync (Cluster.env (Cluster.cluster Shrink.afterService.2))
                           canonical_order
                           (<[ serviceUUID Shrink.svc1 := {[ "default/A" := true ]} ]>
                              Shrink.registry)
                           "default/pb" (Some Shrink.pb)
        = ([PodsUpdate (set_pod_Labels Shrink.pb (Some labels))],
           match pods_Update (Cluster.env (Cluster.cluster Shrink.afterService.2))
                             (set_pod_Labels Shrink.pb (Some labels)) with
           | None => Ok tt
           | Some err => Err err
           end)
      ∧ labels !! getServiceSelector (svc_Name Shrink.svc1) = None.
Proof.
  split.
  - apply (proj1 shrunk_targets_trigger_sweep
             (Cluster.env (Cluster.cluster Shrink.start)) Shrink.registry
             "default/svc1" Shrink.svc1 [] [] ["A"] {[ "default/A" := true ]}
             {[ "default/A" := true; "default/B" := true ]} "default" "svc1"
             [Shrink.pa; Shrink.pb]).
    + reflexivity.
    + vm_compute. reflexivity.
    + discriminate.
    + vm_compute. reflexivity.
    + vm_compute. reflexivity.
    + exists "default/B". split; [exists true|]; vm_compute; reflexivity.
    + reflexivity.
    + reflexivity.
    + vm_compute. reflexivity.
  - apply (proj1 (proj2 shrunk_targets_trigger_sweep)
             (Cluster.env (Cluster.cluster Shrink.start))
             (Cluster.env (Cluster.cluster Shrink.afterService.2))
             canonical_order Shrink.registry Shrink.svc1 Shrink.B Shrink.pb [] []
             ["A"] {[ "default/A" := true ]}
             {[ "default/A" := true; "default/B" := true ]}
             [Shrink.pa; Shrink.pb] [Shrink.B]
             {[ "app" := "b"; "workloadID_svc1" := "true" ]} "default/pb").
    + apply (bool_decide_unpack _). vm_compute. exact I.
    + apply (bool_decide_unpack _). vm_compute. exact I.
    + reflexivity.
    + vm_compute. reflexivity.
    + discriminate.
    + vm_compute. reflexivity.
    + vm_compute. reflexivity.
    + exists true. vm_compute. reflexivity.
    + intros workloadID w d Hid Hw Hd.
      apply list_elem_of_singleton in Hid as ->.
      apply list_elem_of_singleton in Hd as ->.
      vm_compute in Hw. injection Hw as <-. vm_compute. discriminate.
    + vm_compute. reflexivity.
    + right. left.
    + reflexivity.
    + reflexivity.
    + exists "true". vm_compute. reflexivity.
    + vm_compute. reflexivity.
    + left.
    + apply canonical_order_valid.
    + intros k m d Hk Hreg _ _. unfold Shrink.registry in Hreg.
      apply lookup_singleton_Some in Hreg as [<- _]. by destruct Hk.
Defined.

(** ** X7: the pods the service handler updates *)

(** The pods in the queue of [updatePods]: listed for the workload of a
    declared identifier, not deletion-marked, and lacking a pair of the
    selector. *)
Lemma resolve_loop_declared (E : Env) (obj : Service) (workloadIDs : list string)
    (st st' : list Pod * gmap string bool) (t : list Event) :
  forEach (resolveWorkload E obj) workloadIDs st = (t, Ok st') →
  ∀ p, p ∈ st'.1 →
       p ∈ st.1 ∨ declaredPod E workloadIDs p ∧ lacksPair (svc_Selector obj) p.
Proof.
  revert st t. induction workloadIDs as [|workloadID ids IH]; intros st t.
  - intros [= <- <-] p Hp. by left.
  - rewrite forEach_cons. intros Hloop p Hp.
    apply bind_inv_Ok in Hloop as (t1 & st1 & t2 & Hstep & Hrest & ->).
    destruct (IH _ _ Hrest p Hp)
      as [Hp1|[(id & w & pods & Hin & Hw & Hl & Hpod) Hlack]].
    + unfold resolveWorkload in Hstep. destruct st as [queue targets].
      destruct (GetByWorkloadID E workloadID) as [w|err] eqn:Hw;
        [|injection Hstep as <- <-; by left].
      destruct (podLister_List E _ _) as [pods|] eqn:Hl; [|done].
      injection Hstep as <- <-. cbn [fst] in Hp1 |- *.
      apply elem_of_app in Hp1 as [?|Hq]; [by left|]. right.
      apply list_elem_of_join in Hq as (q & Hq & Hpods).
      apply list_elem_of_fmap in Hpods as (pod & -> & Hpod).
      apply elem_of_queuePod in Hq as (-> & Hlive & Hmiss). split.
      * exists workloadID, w, pods. split; [left|done].
      * split; [done|]. by apply missingPairs_lacks.
    + right. split; [|done]. exists id, w, pods. split; [by right|done].
Qed.

(** X7: every pod the service handler hands to the pod client is a pod the
    lister returned for the workload that one of the identifiers the service
    declares resolves to, not deletion-marked, with a label map that lacks a
    pair of the service's selector; it is handed over with all pairs of the
    selector laid over its labels.  So a pod of a workload the service does
    not declare, a deletion-marked pod, and a pod that already carries every
    pair, is never updated. *)
Theorem service_sync_updates_only_pods_lacking_a_pair
    (E : Env) (reg : Registry) (key : string) (obj : Service) (p' : Pod) :
  PodsUpdate p' ∈ (Controller_sync E reg key (Some obj)).1 →
  ∃ workloadIDs p l,
    (isWorkloadService E obj).2 = Ok workloadIDs
    ∧ declaredPod E workloadIDs p
    ∧ lacksPair (svc_Selector obj) p
    ∧ pod_Labels p = Some l
    ∧ p' = set_pod_Labels p (Some (rangeLabels (svc_Selector obj) ∪ l)).
Proof.
  rewrite <- elem_of_podUpdates. unfold Controller_sync.
  destruct (decide (svc_DeletionTimestamp obj ≠ None)) as [|_].
  { rewrite podUpdates_syncRemoved. by intros ?%elem_of_nil. }
  rewrite trace_bind, podUpdates_app, podUpdates_isWorkloadService, app_nil_l.
  destruct (isWorkloadService E obj).2 as [workloadIDs| |] eqn:Hids;
    [|by intros ?%elem_of_nil..].
  destruct (decide (length workloadIDs = 0)); [by intros ?%elem_of_nil|].
  rewrite trace_bind, podUpdates_app, elem_of_app. intros [Hin|Hin].
  - rewrite reconcilePods_eq, trace_bind, podUpdates_app in Hin.
    set (obj' := match svc_Selector obj with
                 | None => set_svc_Selector obj (Some ∅)
                 | Some _ => obj
                 end) in Hin.
    assert (rangeLabels (svc_Selector obj') = rangeLabels (svc_Selector obj)
            ∧ ∀ k, getLabel (svc_Selector obj') k = getLabel (svc_Selector obj) k)
      as [Hrange Hsel].
    { unfold obj'. by destruct (svc_Selector obj) eqn:Hs; rewrite ?Hs. }
    assert (p' ∈ podUpdates (updatePods E key obj' workloadIDs).1) as Hin'.
    { destruct (getLabel (svc_Selector obj) _);
        [|cbn [call_services_Update fst snd] in Hin].
      - by rewrite app_nil_l in Hin.
      - destruct (services_Update E _); [by apply elem_of_nil in Hin|].
        by rewrite app_nil_l in Hin. }
    clear Hin. unfold updatePods in Hin'.
    rewrite trace_bind, podUpdates_app in Hin'.
    destruct (resolve_loop_spec E obj' workloadIDs ([], ∅)) as [Hnone _].
    rewrite Hnone, app_nil_l in Hin'.
    destruct (forEach (resolveWorkload E obj') workloadIDs ([], ∅))
      as [t1 [st| |]] eqn:Hresolve; cbn [snd] in Hin';
      [|by apply elem_of_nil in Hin'..].
    pose proof (resolve_loop_declared E obj' workloadIDs _ _ _ Hresolve) as Hqueue.
    rewrite trace_bind, podUpdates_app, elem_of_app in Hin'.
    destruct Hin' as [Hin'|Hin'];
      [|destruct (forEach (updatePod E obj') st.1 ()).2; by apply elem_of_nil in Hin'].
    apply elem_of_update_loop in Hin' as (p & Hp & Hm).
    destruct (Hqueue p Hp) as [?%elem_of_nil|[Hdeclared [Hlive (k & v & Hk & Hlack)]]];
      [done|].
    unfold mergeSelector in Hm. destruct (pod_Labels p) as [l|] eqn:Hl.
    + injection Hm as <-. exists workloadIDs, p, l. rewrite <- Hrange.
      split; [done|]. split; [done|]. split; [|done]. split; [done|].
      exists k, v. by rewrite <- Hsel, Hl.
    + destruct (decide (rangeLabels (svc_Selector obj') = ∅)) as [Hempty|]; [|done].
      rewrite <- getLabel_rangeLabels, Hempty, lookup_empty in Hk. done.
  - destruct (reconcilePods E key obj workloadIDs).2 as [targets| |];
      [|by apply elem_of_nil in Hin..].
    rewrite trace_bind, podUpdates_app in Hin.
    destruct (match reg !! key with
              | Some oldMap => targetsShrank oldMap targets
              | None => false
              end).
    + rewrite podUpdates_sweep in Hin.
      destruct (updateServiceWorkloadPods E key).2; by apply elem_of_nil in Hin.
    + by apply elem_of_nil in Hin.
Qed.

Lemma service_sync_updates_only_pods_lacking_a_pair_witness :
  ∃ workloadIDs p l,
    (isWorkloadService (Cluster.env (Cluster.cluster TwoPairs.start)) TwoPairs.svc1).2
    = Ok workloadIDs
    ∧ declaredPod (Cluster.env (Cluster.cluster TwoPairs.start)) workloadIDs p
    ∧ lacksPair (svc_Selector TwoPairs.svc1) p
    ∧ pod_Labels p = Some l
    ∧ TwoPairs.labelled
      = set_pod_Labels p (Some (rangeLabels (svc_Selector TwoPairs.svc1) ∪ l)).
Proof.
  apply (service_sync_updates_only_pods_lacking_a_pair
           (Cluster.env (Cluster.cluster TwoPairs.start)) ∅ "default/svc1"
           TwoPairs.svc1 TwoPairs.labelled).
  apply (bool_decide_unpack _). vm_compute. exact I.
Defined.

(** * Properties of the namespace lifecycle of the RBAC controller *)

Lemma removeName_spec (i : nat) (name : string) (l : list string) :
  (i ≤ length l)%nat →
  Rbac.removeName i name l
  = Some (filter (λ n, n ≠ name) (take i l) ++ drop i l).
Proof.
  revert l. induction i as [|i IH]; intros l Hi.
  - by rewrite take_0, drop_0.
  - cbn [Rbac.removeName].
    destruct (lookup_lt_is_Some_2 l i ltac:(lia)) as [x Hx]. rewrite Hx. cbn.
    rewrite (take_S_r _ _ _ Hx), filter_app.
    destruct (decide (x = name)) as [->|Hne].
    + rewrite IH by (rewrite length_app, length_take, length_drop; lia).
      rewrite take_app_length', drop_app_length' by (rewrite length_take; lia).
      rewrite filter_cons_False, filter_nil by (intros ?; done).
      by rewrite app_nil_r.
    + rewrite IH by lia.
      rewrite filter_cons_True, filter_nil by done.
      rewrite <- app_assoc. cbn. by rewrite (drop_S _ _ _ Hx).
Qed.

Lemma stripRule_spec (verb nsName : string) (r : Rbac.PolicyRule) :
  Rbac.stripRule verb nsName r
  = Some (stripped verb nsName r, Rbac.grants verb nsName r).
Proof.
  unfold Rbac.stripRule, stripped. destruct (Rbac.grants verb nsName r); [|done].
  rewrite removeName_spec by lia. cbn.
  by rewrite take_ge, drop_ge, app_nil_r by lia.
Qed.

Lemma stripRules_spec (verb nsName : string) (rules : list Rbac.PolicyRule) :
  Rbac.stripRules verb nsName rules
  = Some (stripped verb nsName <$> rules,
          existsb (Rbac.grants verb nsName) rules).
Proof.
  induction rules as [|r rules IH]; [done|].
  cbn [Rbac.stripRules]. rewrite stripRule_spec. cbn. by rewrite IH.
Qed.

Lemma grants_stripped (verb nsName : string) (r : Rbac.PolicyRule) :
  Rbac.grants verb nsName (stripped verb nsName r) = false.
Proof.
  unfold stripped. destruct (Rbac.grants verb nsName r) eqn:Hg; [|done].
  unfold Rbac.grants, Rbac.ContainsString. cbn.
  rewrite (bool_decide_eq_false_2 (nsName ∈ _)); [by rewrite andb_false_r|].
  by intros [? _]%list_elem_of_filter.
Qed.

(** X14: the loop that takes a namespace out of a cluster role never indexes
    out of range; it reports a modification exactly when some rule granted
    the verb on the namespace, it takes every occurrence of the namespace out
    of the resource names of such a rule and keeps the other names in their
    order, it leaves the other rules as they were, and afterwards no rule
    grants the verb on the namespace. *)
Theorem namespace_is_stripped_from_every_granting_rule
    (verb nsName : string) (rules : list Rbac.PolicyRule) :
  ∃ rules',
    Rbac.stripRules verb nsName rules
    = Some (rules', existsb (Rbac.grants verb nsName) rules)
    ∧ rules' = stripped verb nsName <$> rules
    ∧ existsb (Rbac.grants verb nsName) rules' = false.
Proof.
  eexists. split; [apply stripRules_spec|]. split; [done|].
  induction rules as [|r rules IH]; [done|].
  cbn. by rewrite grants_stripped, IH.
Qed.

Lemma stripRoles_calls (E : Rbac.Env) (verb nsName desired : string)
    (roles : list Rbac.Object) (b : bool) :
  Forall (λ c, ∃ cr,
            Rbac.IsClusterRole cr ∈ roles
            ∧ Rbac.cr_Name cr ≠ desired
            ∧ existsb (Rbac.grants verb nsName) (Rbac.cr_Rules cr) = true
            ∧ c = Rbac.RoleUpdate
                    (Rbac.mkRole (Rbac.cr_Name cr) (Rbac.cr_Annotations cr)
                                 (stripped verb nsName <$> Rbac.cr_Rules cr)))
         (Rbac.stripRoles E verb nsName desired roles b).1.
Proof.
  revert b. induction roles as [|[cr|printed] roles IH]; intros b;
    cbn [Rbac.stripRoles]; [by apply Forall_nil| |by apply Forall_nil].
  assert (∀ b', Forall (λ c, ∃ cr0,
            Rbac.IsClusterRole cr0 ∈ Rbac.IsClusterRole cr :: roles
            ∧ Rbac.cr_Name cr0 ≠ desired
            ∧ existsb (Rbac.grants verb nsName) (Rbac.cr_Rules cr0) = true
            ∧ c = Rbac.RoleUpdate
                    (Rbac.mkRole (Rbac.cr_Name cr0) (Rbac.cr_Annotations cr0)
                                 (stripped verb nsName <$> Rbac.cr_Rules cr0)))
         (Rbac.stripRoles E verb nsName desired roles b').1) as IH'.
  { intros b'. eapply Forall_impl; [apply IH|].
    intros c (cr0 & ? & ? & ? & ?). exists cr0. by rewrite elem_of_cons; auto. }
  destruct (decide (Rbac.cr_Name cr = desired)) as [|Hne]; [apply IH'|].
  rewrite stripRules_spec.
  destruct (existsb (Rbac.grants verb nsName) (Rbac.cr_Rules cr)) eqn:Hg;
    [|apply IH'].
  assert (∃ cr0,
            Rbac.IsClusterRole cr0 ∈ Rbac.IsClusterRole cr :: roles
            ∧ Rbac.cr_Name cr0 ≠ desired
            ∧ existsb (Rbac.grants verb nsName) (Rbac.cr_Rules cr0) = true
            ∧ Rbac.RoleUpdate
                (Rbac.mkRole (Rbac.cr_Name cr) (Rbac.cr_Annotations cr)
                             (stripped verb nsName <$> Rbac.cr_Rules cr))
              = Rbac.RoleUpdate
                    (Rbac.mkRole (Rbac.cr_Name cr0) (Rbac.cr_Annotations cr0)
                                 (stripped verb nsName <$> Rbac.cr_Rules cr0)))
    as Hhead.
  { exists cr. by rewrite elem_of_cons; auto. }
  destruct (Rbac.roleCli_Update E _) as [err|].
  - by apply Forall_cons.
  - specialize (IH' b).
    destruct (Rbac.stripRoles E verb nsName desired roles b) as [t r].
    by apply Forall_cons.
Qed.

(** The four ways a pass over one verb ends: after the strip calls only;
    or after them and the creation of the desired role; or after them and
    the addition of the namespace to the desired role. *)
Lemma reconcileVerb_cases (E : Rbac.Env) (ns : Rbac.Namespace) (verb name : string) :
  ∃ t,
    Forall (stripCall E (Rbac.ns_Name ns) verb (Rbac.desiredRoleOf E ns name)) t
    ∧ ((∃ flow, Rbac.reconcileVerb E ns verb name = (t, flow))
       ∨ (Rbac.desiredRoleOf E ns name ≠ ""
          ∧ Rbac.crLister_Get E (Rbac.desiredRoleOf E ns name) = Rbac.NotFound
          ∧ Rbac.reconcileVerb E ns verb name
            = (t ++ [Rbac.RoleCreate
                       (Rbac.projectNSRole (Rbac.desiredRoleOf E ns name) verb
                                           (Rbac.ns_Name ns))],
               Rbac.Return
                 (Rbac.roleCli_Create E
                    (Rbac.projectNSRole (Rbac.desiredRoleOf E ns name) verb
                                        (Rbac.ns_Name ns)))))
       ∨ (Rbac.desiredRoleOf E ns name ≠ ""
          ∧ ∃ cr,
              Rbac.crLister_Get E (Rbac.desiredRoleOf E ns name) = Rbac.Found cr
              ∧ existsb (Rbac.grants verb (Rbac.ns_Name ns)) (Rbac.cr_Rules cr) = false
              ∧ Rbac.reconcileVerb E ns verb name
                = (t ++ [Rbac.RoleUpdate (Rbac.withNamespace verb (Rbac.ns_Name ns) cr)],
                   Rbac.Return
                     (Rbac.roleCli_Update E
                        (Rbac.withNamespace verb (Rbac.ns_Name ns) cr))))).
Proof.
  unfold Rbac.reconcileVerb.
  destruct (Rbac.crIndexer_ByIndex E (Rbac.ns_Name ns)) as [roles|err] eqn:Hroles;
    [|exists []; split; [by apply Forall_nil|left; by eexists]].
  pose proof (stripRoles_calls E verb (Rbac.ns_Name ns)
                (Rbac.desiredRoleOf E ns name) roles false) as Hcalls.
  destruct (Rbac.stripRoles E verb (Rbac.ns_Name ns)
              (Rbac.desiredRoleOf E ns name) roles false) as [t r].
  cbn [fst] in Hcalls. exists t. split.
  { eapply Forall_impl; [exact Hcalls|].
    intros c (cr & ? & ? & ? & ?). by exists roles, cr. }
  destruct r as [flow|inDesired]; [left; by eexists|].
  destruct inDesired; cbn [negb andb]; [left; by eexists|].
  destruct (bool_decide_reflect (Rbac.desiredRoleOf E ns name = "")) as [|Hne];
    cbn [negb]; [left; by eexists|].
  destruct (Rbac.crLister_Get E (Rbac.desiredRoleOf E ns name)) as [cr| |err] eqn:Hget.
  - destruct (existsb (Rbac.grants verb (Rbac.ns_Name ns)) (Rbac.cr_Rules cr)) eqn:Hg;
      [left; by eexists|].
    right; right. split; [done|]. by exists cr.
  - right; left. by unfold Rbac.createProjectNSRole.
  - left; by eexists.
Qed.

Lemma noColon_cons (c : ascii) (s : string) :
  noColon (String c s) ↔ c ≠ ":"%char ∧ noColon s.
Proof.
  unfold noColon. cbn [String.list_ascii_of_string]. by rewrite Forall_cons.
Qed.

Lemma SplitN2_colon_noColon (s : string) :
  noColon s → Rbac.SplitN2_colon s = [s].
Proof.
  induction s as [|c s IH]; [done|]. intros [Hc Hs]%noColon_cons. cbn.
  destruct (Ascii.eqb_spec c ":"); [done|]. by rewrite IH.
Qed.

Lemma SplitN2_colon_join (a b : string) :
  noColon a → Rbac.SplitN2_colon (a +:+ ":" +:+ b) = [a; b].
Proof.
  intros Ha. induction a as [|c a IH]; [done|].
  apply noColon_cons in Ha as [Hc Ha]. specialize (IH Ha).
  change (String c a +:+ ":" +:+ b) with (String c (a +:+ ":" +:+ b)).
  cbn [Rbac.SplitN2_colon]. destruct (Ascii.eqb_spec c ":"); [done|].
  by rewrite IH.
Qed.

Lemma desiredRoleOf_unassigned (E : Rbac.Env) (ns : Rbac.Namespace) (name : string) :
  unassigned E ns → Rbac.desiredRoleOf E ns name = "".
Proof.
  unfold Rbac.desiredRoleOf. intros [Hdel|Hann].
  - by destruct (Rbac.ns_DeletionTimestamp ns).
  - destruct (Rbac.ns_DeletionTimestamp ns); [done|].
    by rewrite SplitN2_colon_noColon.
Qed.

Lemma desiredRoleOf_assigned (E : Rbac.Env) (ns : Rbac.Namespace)
    (cluster project name : string) :
  assigned E ns cluster project →
  Rbac.desiredRoleOf E ns name = Rbac.projectNSGetClusterRoleName project name.
Proof.
  intros (Hlive & Hc & Hp & Hann). unfold Rbac.desiredRoleOf, Rbac.annotation.
  rewrite Hlive, Hann. cbn [from_option id]. rewrite SplitN2_colon_join by done.
  by destruct project.
Qed.

Lemma stripCall_not_create (E : Rbac.Env) (nsName verb desired : string)
    (t : list Rbac.Call) (i : nat) (cr : Rbac.ClusterRole) :
  Forall (stripCall E nsName verb desired) t →
  t !! i ≠ Some (Rbac.RoleCreate cr).
Proof.
  intros Ht Hi. eapply Forall_lookup_1 in Ht; [|exact Hi].
  by destruct Ht as (? & ? & _ & _ & _ & _ & ?).
Qed.

(** X15: a namespace that is being deleted, or whose project annotation
    names no project, is only taken out of cluster roles: whatever the
    indexer, the lister and the role client answer, every call to the role
    client updates a cluster role the indexer returned for the namespace,
    with the namespace stripped from the rules that granted one of the verbs
    on it; no role is created and the namespace is added to none. *)
Theorem unassigned_namespace_is_only_taken_out_of_roles
    (E : Rbac.Env) (ns : Rbac.Namespace) (verbs : list (string * string)) :
  unassigned E ns →
  Forall (λ c, ∃ verb, verb ∈ verbs.*1 ∧ stripCall E (Rbac.ns_Name ns) verb "" c)
         (Rbac.reconcileNamespaceProjectClusterRole E ns verbs).1.
Proof.
  intros Hun. unfold Rbac.reconcileNamespaceProjectClusterRole.
  induction verbs as [|[verb name] verbs IH]; [by apply Forall_nil|].
  cbn [Rbac.reconcileVerbs].
  destruct (reconcileVerb_cases E ns verb name) as (t & Ht & Hcases).
  rewrite (desiredRoleOf_unassigned E ns name Hun) in Ht, Hcases.
  destruct Hcases as [[flow Heq]|[[? _]|[? _]]]; [|done..].
  rewrite Heq.
  assert (Forall (λ c, ∃ verb0, verb0 ∈ ((verb, name) :: verbs).*1
                                ∧ stripCall E (Rbac.ns_Name ns) verb0 "" c) t) as Ht'.
  { eapply Forall_impl; [exact Ht|]. intros c Hc. exists verb.
    split; [|done]. cbn. apply elem_of_cons. by left. }
  destruct flow; [|done..].
  destruct (Rbac.reconcileVerbs E ns verbs) as [t' flow']. cbn [fst] in *.
  apply Forall_app. split; [done|].
  eapply Forall_impl; [exact IH|]. intros c (verb0 & Hin & Hc).
  exists verb0. split; [|done]. cbn. apply elem_of_cons. by right.
Qed.

(** X16: creating a role ends the reconciliation.  Whatever the order of the
    verbs and the answers of the indexer, the lister and the role client, a
    call that creates a cluster role is the last call of the function, and
    the function returns what the creation returned, nil included: at most
    one role is created per call. *)
Theorem role_creation_ends_the_reconciliation
    (E : Rbac.Env) (ns : Rbac.Namespace) (verbs : list (string * string))
    (i : nat) (cr : Rbac.ClusterRole) :
  (Rbac.reconcileNamespaceProjectClusterRole E ns verbs).1 !! i
  = Some (Rbac.RoleCreate cr) →
  S i = length (Rbac.reconcileNamespaceProjectClusterRole E ns verbs).1
  ∧ (Rbac.reconcileNamespaceProjectClusterRole E ns verbs).2
    = Rbac.Return (Rbac.roleCli_Create E cr).
Proof.
  unfold Rbac.reconcileNamespaceProjectClusterRole. revert i.
  induction verbs as [|[verb name] verbs IH]; intros i; [done|].
  cbn [Rbac.reconcileVerbs].
  destruct (reconcileVerb_cases E ns verb name) as (t & Ht & Hcases).
  destruct Hcases as [[flow Heq]|[(_ & _ & Heq)|(_ & cr0 & _ & _ & Heq)]];
    rewrite Heq.
  - assert (∀ j, t !! j ≠ Some (Rbac.RoleCreate cr)) as Hno
        by (intros j; by eapply stripCall_not_create).
    destruct flow; try (cbn [fst]; intros Hi; by apply Hno in Hi).
    destruct (Rbac.reconcileVerbs E ns verbs) as [t' flow']. cbn [fst snd] in *.
    intros Hi. apply lookup_app_Some in Hi as [Hi|[Hge Hi]]; [by apply Hno in Hi|].
    apply IH in Hi as [Hlen ->]. split; [|done].
    rewrite length_app. lia.
  - cbn [fst snd]. intros Hi.
    apply lookup_app_Some in Hi as [Hi|[Hge Hi]];
      [by eapply stripCall_not_create in Hi|].
    apply list_lookup_singleton_Some in Hi as [Hi [= <-]].
    split; [|done]. rewrite length_app. cbn. lia.
  - cbn [fst snd]. intros Hi.
    apply lookup_app_Some in Hi as [Hi|[Hge Hi]];
      [by eapply stripCall_not_create in Hi|].
    by apply list_lookup_singleton_Some in Hi as [Hi [=]].
Qed.

Lemma created_roles (E : Rbac.Env) (ns : Rbac.Namespace)
    (verbs : list (string * string)) (cr : Rbac.ClusterRole) :
  Rbac.RoleCreate cr ∈ (Rbac.reconcileVerbs E ns verbs).1 →
  ∃ verb name,
    (verb, name) ∈ verbs
    ∧ cr = Rbac.projectNSRole (Rbac.desiredRoleOf E ns name) verb (Rbac.ns_Name ns).
Proof.
  induction verbs as [|[verb name] verbs IH]; [by intros ?%elem_of_nil|].
  cbn [Rbac.reconcileVerbs].
  destruct (reconcileVerb_cases E ns verb name) as (t & Ht & Hcases).
  assert (Rbac.RoleCreate cr ∉ t) as Hno.
  { 
    intros (i & Hi)%list_elem_of_lookup. by eapply stripCall_not_create in Hi. }
  destruct Hcases as [[flow Heq]|[(_ & _ & Heq)|(_ & cr0 & _ & _ & Heq)]];
    rewrite Heq.
  - destruct flow; try (cbn [fst]; by intros ?%Hno).
    destruct (Rbac.reconcileVerbs E ns verbs) as [t' flow']. cbn [fst] in *.
    intros [?%Hno|Hin]%elem_of_app; [done|].
    destruct (IH Hin) as (verb0 & name0 & ? & ?). exists verb0, name0.
    split; [|done]. apply elem_of_cons. by right.
  - cbn [fst]. intros [?%Hno|Hin]%elem_of_app; [done|].
    apply list_elem_of_singleton in Hin as [= ->]. exists verb, name.
    split; [|done]. apply elem_of_cons. by left.
  - cbn [fst]. intros [?%Hno|Hin]%elem_of_app; [done|].
    by apply list_elem_of_singleton in Hin.
Qed.

Lemma crByNS_projectNSRole (roleName verb suffix nsName : string) :
  (verb, suffix) ∈ Rbac.projectNSVerbToSuffix →
  nsName ≠ "" →
  Rbac.crByNS (Rbac.IsClusterRole (Rbac.projectNSRole roleName verb nsName))
  = [nsName].
Proof.
  intros Hverb Hns. unfold Rbac.crByNS, Rbac.projectNSRole.
  cbn [Rbac.cr_Annotations Rbac.cr_Rules getLabel].
  rewrite lookup_singleton_eq.
  destruct (decide (nsName = "")); [done|].
  unfold Rbac.projectNSVerbToSuffix in Hverb.
  apply elem_of_cons in Hverb as [[= -> ->]|Hverb]; [done|].
  by apply list_elem_of_singleton in Hverb as [= -> ->].
Qed.

(** X17: every cluster role the reconciliation creates is found again by the
    index: for a namespace with a name, and verbs taken from
    [projectNSVerbToSuffix], the index function [crByNS] files a created role
    under that namespace and under no other. *)
Theorem created_role_is_indexed_under_the_namespace
    (E : Rbac.Env) (ns : Rbac.Namespace) (verbs : list (string * string))
    (cr : Rbac.ClusterRole) :
  verbs ⊆ Rbac.projectNSVerbToSuffix →
  Rbac.ns_Name ns ≠ "" →
  Rbac.RoleCreate cr ∈ (Rbac.reconcileNamespaceProjectClusterRole E ns verbs).1 →
  Rbac.crByNS (Rbac.IsClusterRole cr) = [Rbac.ns_Name ns].
Proof.
  intros Hverbs Hns (verb & name & Hin & ->)%created_roles.
  eapply crByNS_projectNSRole; [|done]. apply Hverbs, Hin.
Qed.

Lemma grants_more_names (v n : string) (r : Rbac.PolicyRule) (names : list string) :
  Rbac.grants v n r = true →
  Rbac.grants v n (Rbac.mkRule (Rbac.APIGroups r) (Rbac.Verbs r) (Rbac.Resources r)
                               (Rbac.ResourceNames r ++ names)) = true.
Proof.
  unfold Rbac.grants, Rbac.ContainsString. cbn.
  rewrite !andb_true_iff, !bool_decide_eq_true, elem_of_app. tauto.
Qed.

Lemma appendToExisting_spec (verb nsName : string)
    (rules rules' : list Rbac.PolicyRule) :
  Rbac.appendToExisting verb nsName rules = Some rules' →
  existsb (Rbac.grants verb nsName) rules' = true
  ∧ (∀ v n, existsb (Rbac.grants v n) rules = true →
            existsb (Rbac.grants v n) rules' = true)
  ∧ rules' ≫= Rbac.ResourceNames ≡ₚ nsName :: (rules ≫= Rbac.ResourceNames)
  ∧ length rules' = length rules.
Proof.
  revert rules'. induction rules as [|r rules IH]; intros rules'; [done|].
  cbn [Rbac.appendToExisting].
  destruct (Rbac.ContainsString (Rbac.Verbs r) verb
            && Rbac.ContainsString (Rbac.Resources r) "namespaces") eqn:Hr.
  - intros [= <-]. split; [|split; [|split; [|done]]].
    + cbn [existsb]. unfold Rbac.grants at 1. cbn. rewrite Hr.
      unfold Rbac.ContainsString. rewrite bool_decide_eq_true_2; [done|].
      apply elem_of_app. right. by apply list_elem_of_singleton.
    + intros v n. cbn [existsb]. rewrite !orb_true_iff.
      intros [Hg|Hg]; [left|by right].
      by apply (grants_more_names v n r [nsName]).
    + cbn. rewrite <- app_assoc. cbn.
      by rewrite <- Permutation_middle.
  - intros Hsome. apply fmap_Some in Hsome as (rs & Hrs & ->).
    destruct (IH _ Hrs) as (Hg & Hkeep & Hperm & Hlen).
    split; [|split; [|split]].
    + cbn [existsb]. rewrite Hg. by rewrite orb_true_r.
    + intros v n. cbn [existsb]. rewrite !orb_true_iff.
      intros [Hv|Hv]; [by left|right; by apply Hkeep].
    + cbn. rewrite Hperm. by rewrite <- Permutation_middle.
    + cbn. by rewrite Hlen.
Qed.

(** X18: adding a namespace to the desired role adds it once and takes
    nothing away.  The role handed to the role client grants the verb on the
    namespace, so the check of the next pass finds it; every grant of the
    role as fetched is still there; the resource names of all rules together
    are those of before and the namespace, once; and name and annotations of
    the role are kept. *)
Theorem added_namespace_is_granted_once_and_no_grant_is_lost
    (verb nsName : string) (cr : Rbac.ClusterRole) :
  existsb (Rbac.grants verb nsName)
          (Rbac.cr_Rules (Rbac.withNamespace verb nsName cr)) = true
  ∧ (∀ v n, existsb (Rbac.grants v n) (Rbac.cr_Rules cr) = true →
            existsb (Rbac.grants v n)
                    (Rbac.cr_Rules (Rbac.withNamespace verb nsName cr)) = true)
  ∧ Rbac.cr_Rules (Rbac.withNamespace verb nsName cr) ≫= Rbac.ResourceNames
    ≡ₚ nsName :: (Rbac.cr_Rules cr ≫= Rbac.ResourceNames)
  ∧ Rbac.cr_Name (Rbac.withNamespace verb nsName cr) = Rbac.cr_Name cr
  ∧ Rbac.cr_Annotations (Rbac.withNamespace verb nsName cr) = Rbac.cr_Annotations cr.
Proof.
  unfold Rbac.withNamespace. cbn [Rbac.cr_Rules Rbac.cr_Name Rbac.cr_Annotations].
  destruct (Rbac.appendToExisting verb nsName (Rbac.cr_Rules cr)) as [rules'|] eqn:Happ.
  - destruct (appendToExisting_spec _ _ _ _ Happ) as (? & ? & ? & _). done.
  - split; [|split; [|split; [|done]]].
    + rewrite existsb_app. cbn. unfold Rbac.grants, Rbac.ContainsString. cbn.
      rewrite !bool_decide_eq_true_2 by (by apply list_elem_of_singleton).
      by rewrite orb_true_r.
    + intros v n Hg. by rewrite existsb_app, Hg.
    + rewrite bind_app. cbn. by rewrite <- Permutation_cons_append.
Qed.

Lemma append_inj_r (p a b : string) : p +:+ a = p +:+ b → a = b.
Proof. induction p as [|c p IH]; [done|]. intros [= ?]. by apply IH. Qed.

Lemma grants_projectNSRole (v n roleName verb nsName : string) :
  existsb (Rbac.grants v n) (Rbac.cr_Rules (Rbac.projectNSRole roleName verb nsName))
  = true →
  v = verb.
Proof.
  unfold Rbac.projectNSRole. cbn [Rbac.cr_Rules].
  destruct (decide (nsName = "")); [done|]. cbn [existsb].
  rewrite orb_false_r. unfold Rbac.grants, Rbac.ContainsString. cbn.
  rewrite !andb_true_iff, !bool_decide_eq_true.
  by intros [[?%list_elem_of_singleton _] _].
Qed.

Lemma reconcileVerb_settled (E : Rbac.Env) (ns : Rbac.Namespace)
    (cluster project verb suffix : string) :
  assigned E ns cluster project →
  Rbac.crIndexer_ByIndex E (Rbac.ns_Name ns)
  = Returned (projectRoles project (Rbac.ns_Name ns)) →
  (verb, suffix) ∈ Rbac.projectNSVerbToSuffix →
  Rbac.reconcileVerb E ns verb suffix = ([], Rbac.Continue).
Proof.
  intros Hns Hidx Hverb. unfold Rbac.reconcileVerb.
  rewrite (desiredRoleOf_assigned E ns cluster project suffix Hns), Hidx.
  assert (∀ roleName verb' b,
            verb' ≠ verb →
            roleName ≠ Rbac.projectNSGetClusterRoleName project suffix →
            ∀ rest,
            Rbac.stripRoles E verb (Rbac.ns_Name ns)
              (Rbac.projectNSGetClusterRoleName project suffix)
              (Rbac.IsClusterRole (Rbac.projectNSRole roleName verb' (Rbac.ns_Name ns))
               :: rest) b
            = Rbac.stripRoles E verb (Rbac.ns_Name ns)
                (Rbac.projectNSGetClusterRoleName project suffix) rest b) as Hother.
  { intros roleName verb' b Hv Hname rest. cbn [Rbac.stripRoles].
    change (Rbac.cr_Name (Rbac.projectNSRole roleName verb' (Rbac.ns_Name ns)))
      with roleName.
    destruct (decide (roleName = _)); [done|]. rewrite stripRules_spec.
    destruct (existsb _ _) eqn:Hg; [|done].
    apply grants_projectNSRole in Hg. by destruct Hv. }
  assert (∀ verb' b rest,
            Rbac.stripRoles E verb (Rbac.ns_Name ns)
              (Rbac.projectNSGetClusterRoleName project suffix)
              (Rbac.IsClusterRole
                 (Rbac.projectNSRole (Rbac.projectNSGetClusterRoleName project suffix)
                                     verb' (Rbac.ns_Name ns))
               :: rest) b
            = Rbac.stripRoles E verb (Rbac.ns_Name ns)
                (Rbac.projectNSGetClusterRoleName project suffix) rest true) as Hsame.
  { intros verb' b rest. cbn [Rbac.stripRoles].
    change (Rbac.cr_Name (Rbac.projectNSRole ?r verb' (Rbac.ns_Name ns))) with r.
    by destruct (decide (_ = _)). }
  unfold projectRoles, Rbac.projectNSVerbToSuffix in *. cbn [fmap list_fmap].
  apply elem_of_cons in Hverb as [[= -> ->]|Hverb].
  - rewrite Hsame. rewrite Hother; [done|done|].
    unfold Rbac.projectNSGetClusterRoleName. by intros [=]%append_inj_r.
  - apply list_elem_of_singleton in Hverb as [= -> ->].
    rewrite Hother; [by rewrite Hsame|done|].
    unfold Rbac.projectNSGetClusterRoleName. by intros [=]%append_inj_r.
Qed.

(** X19: the reconciliation settles.  For a live namespace annotated with
    [cluster:project], once the indexer returns for it the two roles that
    [createProjectNSRole] makes, the function calls the role client for
    neither and returns nil, in whichever order the verbs are visited and
    whatever the lister and the role client would answer. *)
Theorem reconciled_namespace_is_left_alone
    (E : Rbac.Env) (ns : Rbac.Namespace) (cluster project : string)
    (verbs : list (string * string)) :
  assigned E ns cluster project →
  Rbac.crIndexer_ByIndex E (Rbac.ns_Name ns)
  = Returned (projectRoles project (Rbac.ns_Name ns)) →
  verbs ≡ₚ Rbac.projectNSVerbToSuffix →
  Rbac.reconcileNamespaceProjectClusterRole E ns verbs = ([], Rbac.Return None).
Proof.
  intros Hns Hidx Hperm. unfold Rbac.reconcileNamespaceProjectClusterRole.
  assert (Forall (λ v, v ∈ Rbac.projectNSVerbToSuffix) verbs) as Hall.
  { apply Forall_forall. intros v Hv. by rewrite <- Hperm. }
  clear Hperm. induction Hall as [|[verb suffix] verbs Hv _ IH]; [done|].
  cbn [Rbac.reconcileVerbs].
  by rewrite (reconcileVerb_settled E ns cluster project verb suffix), IH.
Qed.

Lemma reconciled_namespace_is_left_alone_witness :
  Rbac.reconcileNamespaceProjectClusterRole Project.settled Project.ns1
    [("*", "edit"); ("get", "readonly")]
  = ([], Rbac.Return None).
Proof.
  apply (reconciled_namespace_is_left_alone Project.settled Project.ns1 "c-1" "p-1").
  - split; [reflexivity|]. split; [|split; [done|reflexivity]].
    apply (bool_decide_unpack _). vm_compute. exact I.
  - reflexivity.
  - apply Permutation_swap.
Defined.

(** X20: a namespace new to its project gets one role per call.  For a live
    namespace annotated with [cluster:project] for which the indexer returns
    no role and the lister finds none of the name wanted for the verb visited
    first, the function creates that role, with the one rule that grants the
    verb on the namespace, and returns what the creation returned: the role
    for the other verb is left to a later call even when the creation
    succeeded. *)
Theorem new_namespace_gets_one_role_per_call
    (E : Rbac.Env) (ns : Rbac.Namespace) (cluster project verb suffix : string)
    (rest : list (string * string)) :
  assigned E ns cluster project →
  Rbac.crIndexer_ByIndex E (Rbac.ns_Name ns) = Returned [] →
  Rbac.crLister_Get E (Rbac.projectNSGetClusterRoleName project suffix)
  = Rbac.NotFound →
  Rbac.reconcileNamespaceProjectClusterRole E ns ((verb, suffix) :: rest)
  = ([Rbac.RoleCreate
        (Rbac.projectNSRole (Rbac.projectNSGetClusterRoleName project suffix)
                            verb (Rbac.ns_Name ns))],
     Rbac.Return
       (Rbac.roleCli_Create E
          (Rbac.projectNSRole (Rbac.projectNSGetClusterRoleName project suffix)
                              verb (Rbac.ns_Name ns)))).
Proof.
  intros Hns Hidx Hget. unfold Rbac.reconcileNamespaceProjectClusterRole.
  cbn [Rbac.reconcileVerbs]. unfold Rbac.reconcileVerb.
  rewrite (desiredRoleOf_assigned E ns cluster project suffix Hns), Hidx, Hget.
  cbn [Rbac.stripRoles negb andb].
  destruct (bool_decide_reflect (Rbac.projectNSGetClusterRoleName project suffix = ""))
    as [Hempty|_]; [|done].
  destruct Hns as (_ & _ & Hp & _). by destruct project.
Qed.

Lemma new_namespace_gets_one_role_per_call_witness :
  Rbac.reconcileNamespaceProjectClusterRole Project.fresh Project.ns1
    Rbac.projectNSVerbToSuffix
  = ([Rbac.RoleCreate Project.readonly], Rbac.Return None).
Proof.
  apply (new_namespace_gets_one_role_per_call Project.fresh Project.ns1 "c-1" "p-1"
           "get" "readonly" [("*", "edit")]).
  - split; [reflexivity|]. split; [|split; [done|reflexivity]].
    apply (bool_decide_unpack _). vm_compute. exact I.
  - reflexivity.
  - reflexivity.
Defined.

Lemma unassigned_namespace_is_only_taken_out_of_roles_witness :
  Forall (λ c, ∃ verb, verb ∈ Rbac.projectNSVerbToSuffix.*1
                       ∧ stripCall Project.settled "ns1" verb "" c)
         (Rbac.reconcileNamespaceProjectClusterRole Project.settled Project.leaving
            Rbac.projectNSVerbToSuffix).1.
Proof.
  apply (unassigned_namespace_is_only_taken_out_of_roles Project.settled
           Project.leaving Rbac.projectNSVerbToSuffix).
  left. discriminate.
Defined.

Lemma role_creation_ends_the_reconciliation_witness :
  1 = length (Rbac.reconcileNamespaceProjectClusterRole Project.fresh Project.ns1
                Rbac.projectNSVerbToSuffix).1
  ∧ (Rbac.reconcileNamespaceProjectClusterRole Project.fresh Project.ns1
       Rbac.projectNSVerbToSuffix).2
    = Rbac.Return None.
Proof.
  apply (role_creation_ends_the_reconciliation Project.fresh Project.ns1
           Rbac.projectNSVerbToSuffix 0 Project.readonly).
  vm_compute. reflexivity.
Defined.

Lemma created_role_is_indexed_under_the_namespace_witness :
  Rbac.crByNS (Rbac.IsClusterRole Project.readonly) = ["ns1"].
Proof.
  apply (created_role_is_indexed_under_the_namespace Project.fresh Project.ns1
           Rbac.projectNSVerbToSuffix Project.readonly).
  - done.
  - done.
  - apply (bool_decide_unpack _). vm_compute. exact I.
Defined.
